(** * The Slashdiablo launcher's game service ([d2/service.go])

    A shallow embedding of the patch orchestration and process supervision
    code of package [d2], and the properties of it that the specification
    states.

    The Go code is effectful throughout: it reads and writes the install
    directories, fetches remote files, sends on channels and updates the
    slice of running games.  Every Go function is therefore embedded as a
    computation in a state-and-error monad over an explicit [world].  The
    operating system, the remote patch repository, the configuration
    service and the JSON decoder are collaborators outside the package;
    they are gathered in an environment [env], which can also inject a
    failure into any system call. *)

From Stdlib Require Import ZArith Lia.
From stdpp Require Import base strings list gmap sorting.

(** ** Go's [int64] and [int] *)

Module Int64.
(** Two's complement wrap-around of a mathematical integer. *)
Definition wrap (z : Z) : Z := ((z + 2 ^ 63) mod 2 ^ 64 - 2 ^ 63)%Z.
Definition add (a b : Z) : Z := wrap (a + b).
Definition sub (a b : Z) : Z := wrap (a - b).
Definition in_range (z : Z) : Prop := (- 2 ^ 63 <= z < 2 ^ 63)%Z.

(** The [int64] sum of a list, accumulated left to right as
    [total += x] does. *)
Definition sum (l : list Z) : Z := foldl add 0%Z l.
End Int64.

(** ** Go strings (byte strings) *)

Module GoString.
(** [strings.HasPrefix]. *)
Fixpoint has_prefix (s p : string) : bool :=
  match p, s with
  | EmptyString, _ => true
  | String a p', String b s' => bool_decide (a = b) && has_prefix s' p'
  | String _ _, EmptyString => false
  end.

(** [strings.Contains]. *)
Fixpoint contains (s substr : string) : bool :=
  has_prefix s substr ||
  match s with
  | EmptyString => false
  | String _ s' => contains s' substr
  end.

(** [strings.HasSuffix]; the code never calls it, the specification
    speaks of it ("carries the staging suffix"). *)
Fixpoint has_suffix (s suff : string) : bool :=
  bool_decide (s = suff) ||
  match s with
  | EmptyString => false
  | String _ s' => has_suffix s' suff
  end.

(** [s[:n]]. *)
Definition slice_to (s : string) (n : nat) : string := String.substring 0 n s.

(** [strings.TrimPrefix] that also reports whether the prefix was there. *)
Fixpoint strip_prefix (p s : string) : option string :=
  match p, s with
  | EmptyString, _ => Some s
  | String a p', String b s' =>
      if bool_decide (a = b) then strip_prefix p' s' else None
  | String _ _, EmptyString => None
  end.
End GoString.

(** ** Data model *)

(** Go [error] values.  [ErrCRCFileNotFound] is the sentinel the checksum
    helper returns for an absent file; [ErrNotExist] stands for the
    [*os.PathError] values for which [os.IsNotExist] holds; every other
    error, and every error made by [fmt.Errorf], is identified with its
    message. *)
Inductive error :=
| ErrCRCFileNotFound
| ErrNotExist (op path : string)
| ErrOther (msg : string).

Global Instance error_eq_dec : EqDecision error.
Proof. solve_decision. Defined.

(** The [Error() string] method.  The text of the sentinel lives in the
    checksum helper's file; no property below depends on it. *)
Definition Error (e : error) : string :=
  match e with
  | ErrCRCFileNotFound => "file not found"
  | ErrNotExist op path => op +:+ " " +:+ path +:+ ": no such file or directory"
  | ErrOther msg => msg
  end.

(** [os.IsNotExist]. *)
Definition IsNotExist (e : error) : bool :=
  match e with
  | ErrNotExist _ _ => true
  | _ => false
  end.

(** [PatchFile]: one entry of a manifest. *)
Record PatchFile := mkPatchFile {
  Name : string;
  CRC : string;
  LastModified : Z;
  ContentLength : Z
}.

(** [Manifest]. *)
Record Manifest := mkManifest { Files : list PatchFile }.

(** Modelled from the spec: [storage.Game], the configured install
    (the spec's GameInstall), declared in package [storage], which is not
    among the sources; the fields are those [service.go] reads. *)
Record Game := mkGame {
  ID : string;
  Location : string;
  Flags : list string;
  Instances : Z;
  Maphack : bool;
  HD : bool;
  OverrideBHCfg : bool
}.

(** Modelled from the spec: [storage.Config], as far as [service.go]
    reads it: the list of configured installs. *)
Record Config := mkConfig { Games : list Game }.

(** [game]: one tracked running instance. *)
Record game := mkgame { PID : Z; GameID : string }.

Global Instance game_eq_dec : EqDecision game.
Proof. solve_decision. Defined.

(** [execState]: a process-exit notification; both fields are optional. *)
Record execState := mkExecState { pid : option Z; err : option error }.

(** Everything the service does that is visible from outside, in the
    order it happens. *)
Inductive event :=
| EvFetch (remotePath : string)            (* slashdiabloClient.GetFile *)
| EvCreate (path : string)                 (* os.Create *)
| EvWrite (path : string)                  (* io.Copy into the created file *)
| EvRename (oldpath newpath : string)      (* os.Rename *)
| EvRemove (path : string)                 (* os.Remove *)
| EvMessage (msg : string)                 (* state <- PatchState{Message: msg} *)
| EvProgressReset                          (* progress <- 0.00 *)
| EvSleep                                  (* time.Sleep(1500 * time.Millisecond) *)
| EvLaunch (location : string) (flags : list string) (p : Z)   (* launch *)
| EvLog (msg : string)                     (* s.logger.Error *)
| EvLock                                   (* s.mux.Lock() *)
| EvUnlock                                 (* s.mux.Unlock() *)
| EvReadGames                              (* a read of s.runningGames *)
| EvWriteGames.                            (* an assignment to s.runningGames *)

Global Instance event_eq_dec : EqDecision event.
Proof. solve_decision. Defined.

(** The mutable state: the file system (path to contents), the slice of
    running games, and the trace of events so far, oldest first.  Paths
    are compared as byte strings, as the Go code compares names; what the
    operating system makes of two spellings of one path is not modelled. *)
Record world := mkWorld {
  disk : gmap string string;
  runningGames : list game;
  trace : list event
}.

(** Results of fallible calls: Go's [(value, error)] pairs.  Where the Go
    function returns an error, its other results are zero values that no
    caller reads. *)
Inductive result (A : Type) :=
| Ok (a : A)
| Err (e : error).
Arguments Ok {A} a.
Arguments Err {A} e.

(** The calls that leave the package. *)
Inductive syscall :=
| SysOpen (path : string)
| SysStat (path : string)
| SysRemove (path : string)
| SysCreate (path : string)
| SysRename (oldpath newpath : string)
| SysReadDir (dir : string)
| SysCopy (path : string)
| SysGetFile (remotePath : string)
| SysReadAll (remotePath : string).

(** The collaborators: [fault] makes a system call fail with the given
    message, [remote] is the patch repository, [crc32_hex] the checksum of
    a file's contents as the checksum helper prints it, [unmarshal] is
    [json.Unmarshal] into a [Manifest], [config_read] is
    [configService.Read]. *)
Record env := mkEnv {
  fault : syscall → option string;
  remote : gmap string string;
  crc32_hex : string → string;
  unmarshal : string → option Manifest;
  config_read : result Config
}.

(** The per-platform functions whose bodies only wrap the operating
    system: [validate113cVersion] inspects the install directory,
    [launch] starts a process and returns its identifier, which may
    depend on everything that happened before. *)
Record platform := mkPlatform {
  validate113cVersion : gmap string string → string → result bool;
  launch : world → string → list string → result Z
}.

(** The platform file of the repository (build tag [darwin]). *)
Definition darwin : platform :=
  {| validate113cVersion := λ _ _, Ok true;
     launch := λ _ _ _, Ok 1%Z |}.

(** [localizePath]. *)
Definition localizePath (path : string) : string := path.

(** ** The monad *)

Definition M (A : Type) : Type := world → result A * world.

Definition ret {A} (a : A) : M A := λ w, (Ok a, w).

Definition bind {A B} (c : M A) (k : A → M B) : M B :=
  λ w, match c w with
       | (Ok a, w') => k a w'
       | (Err e, w') => (Err e, w')
       end.

Definition fail {A} (e : error) : M A := λ w, (Err e, w).

Notation "x <- c ;; k" := (bind c (λ x, k))
  (at level 100, c at next level, right associativity).
Notation "c ;; k" := (bind c (λ _, k))
  (at level 100, right associativity).

Definition emit (ev : event) : M unit :=
  λ w, (Ok tt, mkWorld (disk w) (runningGames w) (trace w ++ [ev])).

Definition lift {A} (r : result A) : M A := λ w, (r, w).

(** ** The operating system and the transport

    Each call first consults [fault]; a call that is not made to fail
    behaves as on a file system that is a map from paths to contents. *)

Section Service.
Context (E : env) (P : platform).

Definition faulty {A} (c : syscall) (k : M A) : M A :=
  match fault E c with
  | Some msg => fail (ErrOther msg)
  | None => k
  end.

(** Modelled from the spec: [hashCRC32(path, polynomial)], the checksum
    helper of the package, whose file and whose constant [polynomial] are
    not among the sources.  It signals [ErrCRCFileNotFound] when the file
    is absent, any other error when the file cannot be read, and else
    returns the checksum of the contents. *)
Definition hashCRC32 (path : string) : M string :=
  faulty (SysOpen path) (λ w,
    match disk w !! path with
    | None => (Err ErrCRCFileNotFound, w)
    | Some contents => (Ok (crc32_hex E contents), w)
    end).

(** [os.Stat], for its error only. *)
Definition os_Stat (path : string) : M unit :=
  faulty (SysStat path) (λ w,
    match disk w !! path with
    | None => (Err (ErrNotExist "stat" path), w)
    | Some _ => (Ok tt, w)
    end).

(** [os.Remove]. *)
Definition os_Remove (path : string) : M unit :=
  faulty (SysRemove path) (λ w,
    match disk w !! path with
    | None => (Err (ErrNotExist "remove" path), w)
    | Some _ =>
        (Ok tt, mkWorld (delete path (disk w)) (runningGames w)
                        (trace w ++ [EvRemove path]))
    end).

(** [os.Create]: the file exists and is empty afterwards. *)
Definition os_Create (path : string) : M unit :=
  faulty (SysCreate path) (λ w,
    (Ok tt, mkWorld (<[path := ""]> (disk w)) (runningGames w)
                    (trace w ++ [EvCreate path]))).

(** [os.Rename]: the new path takes the contents, the old path is gone. *)
Definition os_Rename (oldpath newpath : string) : M unit :=
  faulty (SysRename oldpath newpath) (λ w,
    match disk w !! oldpath with
    | None => (Err (ErrNotExist "rename" oldpath), w)
    | Some contents =>
        (Ok tt, mkWorld (<[newpath := contents]> (delete oldpath (disk w)))
                        (runningGames w)
                        (trace w ++ [EvRename oldpath newpath]))
    end).

(** The name of a top-level regular file of [dir] stored under [key]. *)
Definition top_level_name (dir key : string) : option string :=
  match GoString.strip_prefix (dir +:+ "/") key with
  | Some n =>
      if bool_decide (n = "") || GoString.contains n "/" then None else Some n
  | None => None
  end.

(** [ioutil.ReadDir]: the names of the directory's entries, sorted by
    name.  Only regular files are modelled. *)
Definition ioutil_ReadDir (dir : string) : M (list string) :=
  faulty (SysReadDir dir) (λ w,
    (Ok (merge_sort String.le (omap (top_level_name dir) (map_to_list (disk w)).*1)), w)).

(** [slashdiabloClient.GetFile]. *)
Definition GetFile (f : string) : M string :=
  emit (EvFetch f) ;;
  faulty (SysGetFile f)
    (match remote E !! f with
     | None => fail (ErrOther ("remote file not found: " +:+ f))
     | Some body => ret body
     end).

(** [io.Copy(out, io.TeeReader(contents, counter))] into the file created
    at [path].  The progress values the counter sends are not modelled. *)
Definition io_Copy (path contents : string) : M unit :=
  faulty (SysCopy path) (λ w,
    (Ok tt, mkWorld (<[path := contents]> (disk w)) (runningGames w)
                    (trace w ++ [EvWrite path]))).

(** ** Manifests and the diff *)

(** [getManifest]. *)
Definition getManifest (path : string) : M Manifest :=
  contents <- GetFile path ;;
  bytes <- faulty (SysReadAll path) (ret contents) ;;
  match unmarshal E bytes with
  | Some manifest => ret manifest
  | None => fail (ErrOther "json: cannot unmarshal manifest")
  end.

(** The inner loop over [filesToIgnore], guarded as in the code by
    [filesToIgnore != nil && len(filesToIgnore) > 0]. *)
Definition ignored (name : string) (filesToIgnore : list string) : bool :=
  match filesToIgnore with
  | [] => false
  | _ => existsb (λ ign, bool_decide (name = ign)) filesToIgnore
  end.

(** The loop of [getFilesToPatch], with its two accumulators. *)
Fixpoint getFilesToPatch_loop (files : list PatchFile) (d2path : string)
    (filesToIgnore : list string) (shouldPatch : list string)
    (totalContentLength : Z) : M (list string * Z) :=
  match files with
  | [] => ret (shouldPatch, totalContentLength)
  | f :: rest =>
      if ignored (Name f) filesToIgnore then
        getFilesToPatch_loop rest d2path filesToIgnore shouldPatch totalContentLength
      else
        let path := localizePath (d2path +:+ "/" +:+ Name f) in
        λ w,
          match hashCRC32 path w with
          | (Err e, w') =>
              if bool_decide (e = ErrCRCFileNotFound) then
                getFilesToPatch_loop rest d2path filesToIgnore
                  (shouldPatch ++ [Name f])
                  (Int64.add totalContentLength (ContentLength f)) w'
              else (Err e, w')
          | (Ok hashed, w') =>
              if bool_decide (hashed ≠ CRC f) then
                getFilesToPatch_loop rest d2path filesToIgnore
                  (shouldPatch ++ [Name f])
                  (Int64.add totalContentLength (ContentLength f)) w'
              else
                getFilesToPatch_loop rest d2path filesToIgnore
                  shouldPatch totalContentLength w'
          end
  end.

(** [getFilesToPatch]. *)
Definition getFilesToPatch (files : list PatchFile) (d2path : string)
    (filesToIgnore : list string) : M (list string * Z) :=
  getFilesToPatch_loop files d2path filesToIgnore [] 0%Z.

(** ** Reset *)

(** The loop of [resetPatch] over the manifest files. *)
Fixpoint resetPatch_loop (path : string) (files : list PatchFile)
    (filesToIgnore : list string) : M unit :=
  match files with
  | [] => ret tt
  | file :: rest =>
      let filePath := localizePath (path +:+ "/" +:+ Name file) in
      λ w,
        match os_Stat filePath w with
        | (Err e, w') =>
            if IsNotExist e then resetPatch_loop path rest filesToIgnore w'
            else (Err e, w')
        | (Ok _, w') =>
            if existsb (λ ign, bool_decide (Name file = ign)) filesToIgnore then
              resetPatch_loop path rest filesToIgnore w'
            else
              (os_Remove filePath ;; resetPatch_loop path rest filesToIgnore) w'
        end
  end.

(** [resetPatch]. *)
Definition resetPatch (path : string) (files : list PatchFile)
    (filesToIgnore : list string) : M unit :=
  missmatched <- getFilesToPatch files path filesToIgnore ;;
  if bool_decide (length missmatched.1 ≠ length files) then
    resetPatch_loop path files filesToIgnore
  else ret tt.

(** ** Download, promote, clean up *)

(** [downloadFile].  [out.Close()] is deferred and has no effect here. *)
Definition downloadFile (fileName remoteDir path : string) : M unit :=
  os_Create path ;;
  contents <- GetFile (remoteDir +:+ "/" +:+ fileName) ;;
  io_Copy path contents.

(** The staged path of a planned file: the final path with [.tmp]. *)
Definition tmpPath (path fileName : string) : string :=
  localizePath (path +:+ "/" +:+ fileName +:+ ".tmp").

(** The first loop of [doPatch]: download every file to its staged path. *)
Fixpoint doPatch_download (patchFiles : list string) (remoteDir path : string)
    (tmpFiles : list string) : M (list string) :=
  match patchFiles with
  | [] => ret tmpFiles
  | fileName :: rest =>
      downloadFile fileName remoteDir (tmpPath path fileName) ;;
      doPatch_download rest remoteDir path (tmpFiles ++ [tmpPath path fileName])
  end.

(** The second loop of [doPatch]: [os.Rename(tmpFile,
    tmpFile[:len(tmpFile)-4])].  Every element of [tmpFiles] ends in
    [.tmp], so the slice bound is in range. *)
Fixpoint doPatch_rename (tmpFiles : list string) : M unit :=
  match tmpFiles with
  | [] => ret tt
  | tmpFile :: rest =>
      os_Rename tmpFile (GoString.slice_to tmpFile (String.length tmpFile - 4)) ;;
      doPatch_rename rest
  end.

(** [doPatch].  [patchLength] only feeds the progress counter. *)
Definition doPatch (patchFiles : list string) (patchLength : Z)
    (remoteDir path : string) : M unit :=
  emit EvProgressReset ;;
  tmpFiles <- doPatch_download patchFiles remoteDir path [] ;;
  doPatch_rename tmpFiles.

(** The loop of [cleanUpFailedPatch]. *)
Fixpoint cleanUpFailedPatch_loop (dir : string) (files : list string) : M unit :=
  match files with
  | [] => ret tt
  | fileName :: rest =>
      if GoString.contains fileName ".tmp" then
        os_Remove (localizePath (dir +:+ "/" +:+ fileName)) ;;
        cleanUpFailedPatch_loop dir rest
      else cleanUpFailedPatch_loop dir rest
  end.

(** [cleanUpFailedPatch]. *)
Definition cleanUpFailedPatch (dir : string) : M unit :=
  files <- ioutil_ReadDir (localizePath dir) ;;
  cleanUpFailedPatch_loop dir files.

(** ** Applying a layer *)

(** The error of [fmt.Errorf("Clean up error: %s : %s", patchErr, err)]. *)
Definition cleanUpError (patchErr e : error) : error :=
  ErrOther ("Clean up error: " +:+ Error patchErr +:+ " : " +:+ Error e).

(** The block that ends each of the four apply functions: patch, and on
    failure clean up and decide which error to return. *)
Definition patchThenCleanUp (patchFiles : list string) (patchLength : Z)
    (remoteDir path : string) : M unit :=
  λ w,
    match doPatch patchFiles patchLength remoteDir path w with
    | (Err patchErr, w1) =>
        match cleanUpFailedPatch path w1 with
        | (Err e, w2) =>
            (Err (cleanUpError patchErr e), w2)
        | (Ok _, w2) => (Err patchErr, w2)
        end
    | (Ok _, w1) => (Ok tt, w1)
    end.

(** The part the apply functions share after the manifest is known. *)
Definition applyFiles (manifestFiles : list PatchFile) (ignoredFiles : list string)
    (updating remoteDir path : string) : M unit :=
  plan <- getFilesToPatch manifestFiles path ignoredFiles ;;
  if bool_decide (0 < length plan.1) then
    emit (EvMessage updating) ;;
    patchThenCleanUp plan.1 plan.2 remoteDir path
  else ret tt.

(** [apply113c]. *)
Definition apply113c (path : string) : M unit :=
  emit (EvMessage "Checking game version...") ;;
  manifest <- getManifest "1.13c/manifest.json" ;;
  applyFiles (Files manifest) [] ("Updating " +:+ path +:+ " to 1.13c") "1.13c" path.

(** [applySlashPatch]. *)
Definition applySlashPatch (path : string) : M unit :=
  emit (EvMessage "Checking Slashdiablo patch...") ;;
  manifest <- getManifest "current/manifest.json" ;;
  applyFiles (Files manifest) []
    ("Updating " +:+ path +:+ " to current Slashdiablo patch") "current" path.

(** [applyMaphack]. *)
Definition applyMaphack (path : string) (manifestFiles : list PatchFile)
    (ignoredFiles : list string) : M unit :=
  emit (EvMessage "Checking maphack...") ;;
  applyFiles manifestFiles ignoredFiles
    ("Updating " +:+ path +:+ " to latest maphack version") "maphack" path.

(** [applyHDMod]. *)
Definition applyHDMod (path : string) (manifestFiles : list PatchFile) : M unit :=
  emit (EvMessage "Checking HD mod...") ;;
  applyFiles manifestFiles []
    ("Updating " +:+ path +:+ " to latest HD mod version") "hd" path.

(** ** Validation *)

(** The marker-file test shared by [isHDInstalled] and
    [isMaphackInstalled]. *)
Definition isInstalled (path marker : string) : M bool :=
  λ w,
    match os_Stat (localizePath (path +:+ "/" +:+ marker)) w with
    | (Err e, w') => if IsNotExist e then (Ok false, w') else (Err e, w')
    | (Ok _, w') => (Ok true, w')
    end.

(** [isHDInstalled]. *)
Definition isHDInstalled (path : string) : M bool := isInstalled path "D2HD.dll".

(** [isMaphackInstalled]. *)
Definition isMaphackInstalled (path : string) : M bool := isInstalled path "BH.dll".

(** [ignoredMaphackFiles], as [ValidateGameVersions] and [Patch] build it. *)
Definition ignoredMaphackFiles (g : Game) : list string :=
  if OverrideBHCfg g then ["BH.cfg"] else [].

(** One iteration of the loop of [ValidateGameVersions] over the installs:
    [Ok false] is the iteration's [return false, nil], [Ok true] lets the
    loop go on. *)
Definition validateGame (slashManifest maphackManifest HDManifest : Manifest)
    (g : Game) : M bool :=
  valid <- (λ w, (validate113cVersion P (disk w) (Location g), w)) ;;
  if negb valid then ret false else
  slashFiles <- getFilesToPatch (Files slashManifest) (Location g) [] ;;
  if bool_decide (0 < length slashFiles.1) then ret false else
  missingMaphackFiles <-
    getFilesToPatch (Files maphackManifest) (Location g) (ignoredMaphackFiles g) ;;
  maphackOk <-
    (if Maphack g then ret (negb (bool_decide (0 < length missingMaphackFiles.1)))
     else installed <- isMaphackInstalled (Location g) ;; ret (negb installed)) ;;
  if negb maphackOk then ret false else
  missingHDFiles <- getFilesToPatch (Files HDManifest) (Location g) [] ;;
  (if HD g then ret (negb (bool_decide (0 < length missingHDFiles.1)))
   else installed <- isHDInstalled (Location g) ;; ret (negb installed)).

(** The loop of [ValidateGameVersions] over [conf.Games]. *)
Fixpoint ValidateGameVersions_loop (slashManifest maphackManifest HDManifest : Manifest)
    (games : list Game) : M bool :=
  match games with
  | [] => ret true
  | g :: rest =>
      ok <- validateGame slashManifest maphackManifest HDManifest g ;;
      if ok then ValidateGameVersions_loop slashManifest maphackManifest HDManifest rest
      else ret false
  end.

(** [ValidateGameVersions]. *)
Definition ValidateGameVersions : M bool :=
  conf <- lift (config_read E) ;;
  slashManifest <- getManifest "current/manifest.json" ;;
  maphackManifest <- getManifest "maphack/manifest.json" ;;
  HDManifest <- getManifest "hd/manifest.json" ;;
  ValidateGameVersions_loop slashManifest maphackManifest HDManifest (Games conf).

(** ** Launching *)

(** A read of [s.runningGames]. *)
Definition readGames : M (list game) :=
  emit EvReadGames ;; (λ w, (Ok (runningGames w), w)).

(** An assignment to [s.runningGames]. *)
Definition writeGames (games : list game) : M unit :=
  emit EvWriteGames ;; (λ w, (Ok tt, mkWorld (disk w) games (trace w))).

(** The inner loop of [mutateInstancesToLaunch]: [runningCount]. *)
Definition runningCount (id : string) (running : list game) : Z :=
  foldl (λ n r, if bool_decide (id = GameID r) then Int64.add n 1 else n) 0%Z running.

(** [mutateInstancesToLaunch]; the mutated slice is returned.  The slice
    is the one [configService.Read] has just produced for this call. *)
Fixpoint mutateInstancesToLaunch (games : list Game) : M (list Game) :=
  match games with
  | [] => ret []
  | g :: rest =>
      running <- readGames ;;
      rest' <- mutateInstancesToLaunch rest ;;
      ret (mkGame (ID g) (Location g) (Flags g)
             (Int64.sub (Instances g) (runningCount (ID g) running))
             (Maphack g) (HD g) (OverrideBHCfg g) :: rest')
  end.

(** The call of [launch]; the channel argument is left out. *)
Definition do_launch (location : string) (flags : list string) : M Z :=
  λ w,
    match launch P w location flags with
    | Ok p => (Ok p, mkWorld (disk w) (runningGames w)
                       (trace w ++ [EvLaunch location flags p]))
    | Err e => (Err e, w)
    end.

(** The inner loop of [Exec], [for i := 0; i < g.Instances; i++], with
    [n] iterations to go. *)
Fixpoint Exec_instances (g : Game) (n : nat) : M unit :=
  match n with
  | O => ret tt
  | S n' =>
      emit EvSleep ;;
      p <- do_launch (Location g) (Flags g) ;;
      running <- readGames ;;
      writeGames (running ++ [mkgame p (ID g)]) ;;
      Exec_instances g n'
  end.

(** The outer loop of [Exec]. *)
Fixpoint Exec_games (games : list Game) : M unit :=
  match games with
  | [] => ret tt
  | g :: rest => Exec_instances g (Z.to_nat (Instances g)) ;; Exec_games rest
  end.

(** [Exec]. *)
Definition Exec : M unit :=
  conf <- lift (config_read E) ;;
  games <- mutateInstancesToLaunch (Games conf) ;;
  Exec_games games.

End Service.

(** ** The exit listener *)

(** [state.pid != nil && g.PID == *state.pid]. *)
Definition pid_matches (statePid : option Z) (g : game) : bool :=
  match statePid with
  | Some p => bool_decide (PID g = p)
  | None => false
  end.

(** [s.runningGames = append(s.runningGames[:index],
    s.runningGames[index+1:]...)] on a slice of length [len] whose backing
    array holds [arr] in its first cells.  The slice expression
    [s.runningGames[index+1:]] panics unless [index+1 <= len]; the append
    fits the capacity, so it moves the tail down in place and leaves the
    cells from [len-1] on as they were. *)
Definition remove_at (arr : list game) (len index : nat) : option (list game * nat) :=
  if decide (index + 1 ≤ len) then
    Some (take index arr ++ take (len - (index + 1)) (drop (index + 1) arr)
            ++ drop (len - 1) arr,
          len - 1)
  else None.

(** The [range] loop of [listenForGameStates].  [range] fixes the number
    of iterations and the backing array when the loop starts and reads
    cell [index] of that array at each iteration, while the body
    assigns to [s.runningGames] a shorter slice of the same array.  [k]
    is the number of iterations to go; [None] is a run-time panic.  [evs]
    collects the accesses to [s.runningGames] that the body makes: each of
    the two slice expressions reads the field, the assignment writes it. *)
Fixpoint remove_loop (statePid : option Z) (k index : nat) (arr : list game)
    (len : nat) (evs : list event) : option (list game * nat * list event) :=
  match k with
  | O => Some (arr, len, evs)
  | S k' =>
      match arr !! index with
      | None => Some (arr, len, evs)
      | Some g =>
          if pid_matches statePid g then
            match remove_at arr len index with
            | None => None
            | Some (arr', len') =>
                remove_loop statePid k' (S index) arr' len'
                  (evs ++ [EvReadGames; EvReadGames; EvWriteGames])
            end
          else remove_loop statePid k' (S index) arr len evs
      end
  end.

(** The value of [s.runningGames] after the loop, and the accesses to it:
    the range expression reads the field once, then come the accesses of
    the body. *)
Definition removeExited (statePid : option Z) (games : list game)
    : option (list game * list event) :=
  match remove_loop statePid (length games) 0 games (length games) [EvReadGames] with
  | Some (arr, len, evs) => Some (take len arr, evs)
  | None => None
  end.

Definition append_trace (evs : list event) (w : world) : world :=
  mkWorld (disk w) (runningGames w) (trace w ++ evs).

(** One iteration of the endless loop of [listenForGameStates]: the
    handling of one notification received from [s.gameStates].  [None] is
    a panic, which ends the program. *)
Definition handleGameState (state : execState) (w : world) : option world :=
  let w1 :=
    match err state with
    | Some e => append_trace [EvLog ("Diablo II exec with code: " +:+ Error e)] w
    | None => w
    end in
  match removeExited (pid state) (runningGames w1) with
  | None => None
  | Some (games, accesses) =>
      Some (mkWorld (disk w1) games (trace w1 ++ [EvLock] ++ accesses ++ [EvUnlock]))
  end.

(** [listenForGameStates] on the notifications received so far. *)
Fixpoint listenForGameStates (states : list execState) (w : world) : option world :=
  match states with
  | [] => Some w
  | state :: rest =>
      match handleGameState state w with
      | None => None
      | Some w' => listenForGameStates rest w'
      end
  end.

(** ** The specification's vocabulary *)

(** The path of a manifest file under an install directory. *)
Definition final_path (dir name : string) : string :=
  localizePath (dir +:+ "/" +:+ name).

(** The outcome of the checksum lookup for a manifest file. *)
Definition local_checksum (E : env) (w : world) (dir : string) (f : PatchFile)
    : result string :=
  (hashCRC32 E (final_path dir (Name f)) w).1.

(** The file exists locally with the manifest's checksum. *)
Definition up_to_date (E : env) (w : world) (dir : string) (f : PatchFile) : Prop :=
  local_checksum E w dir f = Ok (CRC f).

(** The file is not named in the ignore list, and the lookup signals
    [ErrCRCFileNotFound] or returns another checksum than the manifest's. *)
Definition needs_patch (E : env) (w : world) (dir : string) (ignore : list string)
    (f : PatchFile) : bool :=
  negb (bool_decide (Name f ∈ ignore)) &&
  match local_checksum E w dir f with
  | Err e => bool_decide (e = ErrCRCFileNotFound)
  | Ok hashed => bool_decide (hashed ≠ CRC f)
  end.

(** The lookup of a file that is not ignored fails with another error. *)
Definition read_error (E : env) (w : world) (dir : string) (ignore : list string)
    (f : PatchFile) : option error :=
  if bool_decide (Name f ∈ ignore) then None
  else match local_checksum E w dir f with
       | Err e => if bool_decide (e = ErrCRCFileNotFound) then None else Some e
       | Ok _ => None
       end.

(** The sum of a list of integers, without wrap-around. *)
Definition Zsum (l : list Z) : Z := foldr Z.add 0%Z l.

(** The diff plan in the specification's words: the first read error if
    there is one, and else the names of the files that need patching, in
    manifest order, with the total of their declared lengths. *)
Definition plan_spec (E : env) (w : world) (files : list PatchFile) (dir : string)
    (ignore : list string) : result (list string * Z) :=
  match head (omap (read_error E w dir ignore) files) with
  | Some e => Err e
  | None =>
      let stale := List.filter (needs_patch E w dir ignore) files in
      Ok (Name <$> stale, Int64.wrap (Zsum (ContentLength <$> stale)))
  end.

(** The disk after a reset that went through: every manifest file that
    is not ignored is gone. *)
Definition reset_spec (dir : string) (files : list PatchFile) (ignore : list string)
    (d : gmap string string) : gmap string string :=
  foldl (λ d f, if bool_decide (Name f ∈ ignore) then d
                else delete (final_path dir (Name f)) d) d files.

(** The world after the files at [removed] have been removed, in that
    order. *)
Definition after_removals (removed : list string) (w : world) : world :=
  mkWorld (foldl (λ d p, delete p d) (disk w) removed) (runningGames w)
          (trace w ++ (EvRemove <$> removed)).

(** A file [resetPatch] may remove: a manifest file that is not ignored
    and is on disk. *)
Definition removable (dir : string) (files : list PatchFile) (ignore : list string)
    (w : world) (p : string) : Prop :=
  ∃ f, f ∈ files ∧ p = final_path dir (Name f) ∧ (Name f ∉ ignore) ∧
       is_Some (disk w !! p).

(** No system call on a manifest file is made to fail during a reset. *)
Definition reset_unhindered (E : env) (dir : string) (files : list PatchFile) : Prop :=
  ∀ f, f ∈ files →
    fault E (SysStat (final_path dir (Name f))) = None ∧
    fault E (SysRemove (final_path dir (Name f))) = None.

Definition is_rename (ev : event) : bool :=
  match ev with
  | EvRename _ _ => true
  | _ => false
  end.

(** From [w] to [w'] nothing was renamed, no path outside [paths] was
    touched, and the running games are the same. *)
Definition staged_only (paths : list string) (w w' : world) : Prop :=
  runningGames w' = runningGames w ∧
  (∃ evs, trace w' = trace w ++ evs ∧ Forall (λ ev, is_rename ev = false) evs) ∧
  (∀ q, q ∉ paths → disk w' !! q = disk w !! q).

(** A layer application in which [doPatch] fails: the diff of [files] in
    the world [w] is a non-empty plan, and patching it fails with
    [patchErr], leaving the world [w2]. *)
Definition patch_fails (E : env) (files : list PatchFile) (ignoredFiles : list string)
    (updating remoteDir dir : string) (w : world) (patchErr : error) (w2 : world)
    : Prop :=
  ∃ names total,
    getFilesToPatch E files dir ignoredFiles w = (Ok (names, total), w) ∧
    0 < length names ∧
    doPatch E names total remoteDir dir (emit (EvMessage updating) w).2
      = (Err patchErr, w2).

(** What [run], started in [w], returns after the patch failed with
    [patchErr] in [w2]: both errors in one if the clean-up fails too, and
    else the patch error itself. *)
Definition cleanup_error_policy (E : env) (dir : string) (run : M unit) (w : world)
    (patchErr : error) (w2 : world) : Prop :=
  (∀ e w3,
     cleanUpFailedPatch E dir w2 = (Err e, w3) →
     run w = (Err (cleanUpError patchErr e), w3) ∧
     GoString.contains (Error (cleanUpError patchErr e)) (Error patchErr) = true ∧
     GoString.contains (Error (cleanUpError patchErr e)) (Error e) = true) ∧
  (∀ w3,
     cleanUpFailedPatch E dir w2 = (Ok tt, w3) →
     run w = (Err patchErr, w3)).

(** The disk after a clean-up that went through the listing [names]. *)
Definition cleanup_spec (dir : string) (names : list string)
    (d : gmap string string) : gmap string string :=
  foldl (λ d n, if GoString.contains n ".tmp" then delete (final_path dir n) d else d)
    d names.

(** The fetch of one of the three manifests [ValidateGameVersions]
    reads; every other event changes an install directory, fetches
    something else, launches or logs. *)
Definition manifest_fetch (ev : event) : bool :=
  match ev with
  | EvFetch f =>
      bool_decide (f ∈ ["current/manifest.json"; "maphack/manifest.json";
                        "hd/manifest.json"])
  | _ => false
  end.

(** The promotions of the planned files, in plan order. *)
Definition promotions (dir : string) (patchFiles : list string) : list event :=
  (λ n, EvRename (tmpPath dir n) (final_path dir n)) <$> patchFiles.

(** The launches in a trace. *)
Definition launches (evs : list event) : list (string * list string) :=
  omap (λ ev, match ev with
              | EvLaunch location flags _ => Some (location, flags)
              | _ => None
              end) evs.

(** The number of tracked instances of an install. *)
Definition tracked (id : string) (running : list game) : nat :=
  length (List.filter (λ r, bool_decide (GameID r = id)) running).

(** Instances to launch: desired count minus tracked count. *)
Definition to_launch (running : list game) (g : Game) : nat :=
  Z.to_nat (Instances g - Z.of_nat (tracked (ID g) running)).

(** An install as [mutateInstancesToLaunch] leaves it. *)
Definition mutated (running : list game) (g : Game) : Game :=
  mkGame (ID g) (Location g) (Flags g)
    (Int64.sub (Instances g) (runningCount (ID g) running))
    (Maphack g) (HD g) (OverrideBHCfg g).

(** [launch] always succeeds. *)
Definition launch_succeeds (P : platform) : Prop :=
  ∀ w location flags, ∃ p, launch P w location flags = Ok p.

(** Lock discipline of a trace: every access to [s.runningGames] happens
    while the mutex is held.  [held] is the state of the mutex at the
    start. *)
Fixpoint lock_disciplined (held : bool) (evs : list event) : bool :=
  match evs with
  | [] => true
  | EvLock :: rest => lock_disciplined true rest
  | EvUnlock :: rest => lock_disciplined false rest
  | EvReadGames :: rest | EvWriteGames :: rest => held && lock_disciplined held rest
  | _ :: rest => lock_disciplined held rest
  end.

(** What one install must satisfy for [ValidateGameVersions] to go on to
    the next one. *)
Definition game_valid (E : env) (P : platform) (w : world)
    (slashManifest maphackManifest HDManifest : Manifest) (g : Game) : Prop :=
  validate113cVersion P (disk w) (Location g) = Ok true ∧
  Forall (up_to_date E w (Location g)) (Files slashManifest) ∧
  (if Maphack g
   then Forall (λ f, Name f ∈ ignoredMaphackFiles g ∨ up_to_date E w (Location g) f)
          (Files maphackManifest)
   else disk w !! final_path (Location g) "BH.dll" = None) ∧
  (if HD g
   then Forall (up_to_date E w (Location g)) (Files HDManifest)
   else disk w !! final_path (Location g) "D2HD.dll" = None).

(** The manifest that [getManifest] obtains from a remote path. *)
Definition manifest_at (E : env) (path : string) (m : Manifest) : Prop :=
  fault E (SysGetFile path) = None ∧ fault E (SysReadAll path) = None ∧
  ∃ body, remote E !! path = Some body ∧ unmarshal E body = Some m.

(** The world after the three manifests have been fetched. *)
Definition manifests_fetched (w : world) : world :=
  mkWorld (disk w) (runningGames w)
    (trace w ++ [EvFetch "current/manifest.json"; EvFetch "maphack/manifest.json";
                 EvFetch "hd/manifest.json"]).

(** No system call of a patch is made to fail, and every planned file is
    in the repository. *)
Definition patch_unhindered (E : env) (patchFiles : list string)
    (remoteDir : string) : Prop :=
  (∀ p, fault E (SysCreate p) = None) ∧
  (∀ f, fault E (SysGetFile f) = None) ∧
  (∀ p, fault E (SysCopy p) = None) ∧
  (∀ a b, fault E (SysRename a b) = None) ∧
  (∀ n, n ∈ patchFiles → is_Some (remote E !! (remoteDir +:+ "/" +:+ n))).

(** No check of a local file is made to fail. *)
Definition checks_unhindered (E : env) (P : platform) (w : world)
    (games : list Game) : Prop :=
  (∀ p, fault E (SysOpen p) = None) ∧
  (∀ p, fault E (SysStat p) = None) ∧
  (∀ g, g ∈ games → ∃ b, validate113cVersion P (disk w) (Location g) = Ok b).

(** ** Concrete installs, used to run the code *)

Module Sample.
(** A manifest decoder for the samples: the body of a manifest is its
    name. *)
Definition decode (table : list (string * Manifest)) (body : string) : option Manifest :=
  (list_to_map table : gmap string Manifest) !! body.

Definition no_fault : syscall → option string := λ _, None.

Definition a_mpq : PatchFile := mkPatchFile "a.mpq" "AABBCCDD" 0 1000.
Definition game_exe : PatchFile := mkPatchFile "Game.exe" "0BADF00D" 0 52.
Definition bh_cfg : PatchFile := mkPatchFile "BH.cfg" "11112222" 0 7.
Definition bh_dll : PatchFile := mkPatchFile "BH.dll" "33334444" 0 9.

(** One install at [/d2], three instances wanted, no optional layer. *)
Definition install : Game := mkGame "X" "/d2" ["-w"] 3 false false false.

(** The repository: the base layer lists [Game.exe], the core layer
    [a.mpq], the optional layers nothing. *)
Definition E : env :=
  mkEnv no_fault
    (list_to_map [("1.13c/manifest.json", "base"); ("current/manifest.json", "core");
                  ("maphack/manifest.json", "none"); ("hd/manifest.json", "none");
                  ("current/a.mpq", "contents of a.mpq")])
    (λ contents,
       default "00000000"
         ((list_to_map [("contents of a.mpq", "AABBCCDD");
                        ("contents of BH.dll", "33334444");
                        ("contents of BH.cfg", "11112222")] : gmap string string)
            !! contents))
    (decode [("base", mkManifest [game_exe]); ("core", mkManifest [a_mpq]);
             ("none", mkManifest [])])
    (Ok (mkConfig [install])).

(** An install directory without [a.mpq]. *)
Definition w_missing : world :=
  mkWorld (list_to_map [("/d2/Game.exe", "some other build")]) [] [].

(** An install directory whose [a.mpq] is current. *)
Definition w_current : world :=
  mkWorld (list_to_map [("/d2/Game.exe", "some other build");
                        ("/d2/a.mpq", "contents of a.mpq")]) [] [].

(** An install directory with the optional maphack layer in place, its
    configuration file edited by the user. *)
Definition w_maphack : world :=
  mkWorld (list_to_map [("/d2/Game.exe", "some other build");
                        ("/d2/BH.dll", "contents of BH.dll");
                        ("/d2/BH.cfg", "my own settings")]) [] [].

(** An install directory after an interrupted patch: [a.mpq] is staged
    but not promoted, next to a file of the user's whose name has
    [.tmp] in the middle. *)
Definition w_interrupted : world :=
  mkWorld (list_to_map [("/d2/Game.exe", "some other build");
                        ("/d2/a.mpq.tmp", "contents of a.mpq");
                        ("/d2/settings.tmpl", "my template")]) [] [].

(** Two instances of the install are tracked already. *)
Definition w_two_running : world :=
  mkWorld (disk w_current) [mkgame 4711 "X"; mkgame 4712 "X"] [].

(** The same collaborators, with a directory that cannot be listed. *)
Definition E_unlistable : env :=
  mkEnv (λ c, match c with
              | SysReadDir _ => Some "open /d2: permission denied"
              | _ => None
              end)
    (remote E) (crc32_hex E) (unmarshal E) (config_read E).
End Sample.

(** ** Further vocabulary *)

(** The process identifiers of the launches in a trace, in order. *)
Definition launched_pids (evs : list event) : list Z :=
  omap (λ ev, match ev with
              | EvLaunch _ _ p => Some p
              | _ => None
              end) evs.

(** The accesses to [s.runningGames] of a loop that removes [removed]
    entries: the read of the range expression, then for each removal the
    reads of the two slice expressions and the assignment. *)
Definition removal_accesses (removed : nat) : list event :=
  EvReadGames :: concat (replicate removed [EvReadGames; EvReadGames; EvWriteGames]).

(** No planned name is another planned name followed by [.tmp], so that
    no final path of the plan is a staged path of the plan. *)
Definition plan_separate (names : list string) : Prop :=
  ∀ a b, a ∈ names → b ∈ names → a ≠ b +:+ ".tmp".

(** A path that the application of a layer leaves alone: neither the
    final nor the staged path of a manifest file that is not ignored, nor
    a file of the directory whose name contains [.tmp]. *)
Definition layer_untouched (dir : string) (files : list PatchFile)
    (ignore : list string) (q : string) : Prop :=
  (∀ f, f ∈ files → Name f ∉ ignore →
        q ≠ final_path dir (Name f) ∧ q ≠ tmpPath dir (Name f)) ∧
  (∀ n, GoString.contains n ".tmp" = true → q ≠ final_path dir n).

(** The repository holds, for every manifest file that is not ignored,
    contents with the checksum the manifest declares. *)
Definition repository_consistent (E : env) (remoteDir : string)
    (files : list PatchFile) (ignore : list string) : Prop :=
  ∀ f, f ∈ files → Name f ∉ ignore →
    ∃ contents, remote E !! (remoteDir +:+ "/" +:+ Name f) = Some contents ∧
                crc32_hex E contents = CRC f.

(** No system call is made to fail. *)
Definition unhindered (E : env) : Prop := ∀ c, fault E c = None.

(** ** [Patch] *)

(** [configureForOS], as the platform file among the sources has it. *)
Definition configureForOS (path : string) : M unit := ret tt.

(** The treatment of an optional layer that is disabled, in the loop of
    [Patch]: when its marker file is there, the layer is reset. *)
Definition resetDisabled (enabled : bool) (isInstalled : M bool) (reset : M unit)
    : M unit :=
  if enabled then ret tt
  else installed <- isInstalled ;;
       if (installed : bool) then reset else ret tt.

(** The body of the loop of [Patch] over the installs. *)
Definition patchGame (E : env) (maphackManifest hdManifest : Manifest) (g : Game)
    : M unit :=
  resetDisabled (Maphack g) (isMaphackInstalled E (Location g))
    (resetPatch E (Location g) (Files maphackManifest) (ignoredMaphackFiles g)) ;;
  resetDisabled (HD g) (isHDInstalled E (Location g))
    (resetPatch E (Location g) (Files hdManifest) []) ;;
  apply113c E (Location g) ;;
  applySlashPatch E (Location g) ;;
  (if Maphack g
   then applyMaphack E (Location g) (Files maphackManifest) (ignoredMaphackFiles g)
   else ret tt) ;;
  (if HD g then applyHDMod E (Location g) (Files hdManifest) else ret tt) ;;
  configureForOS (Location g).

Fixpoint Patch_loop (E : env) (maphackManifest hdManifest : Manifest)
    (games : list Game) : M unit :=
  match games with
  | [] => ret tt
  | g :: rest =>
      patchGame E maphackManifest hdManifest g ;;
      Patch_loop E maphackManifest hdManifest rest
  end.

(** [Patch]: the goroutine it starts, run to its end.  [Ok tt] is the
    [true] sent on [done]; [Err e] is the [PatchState{Error: e}] sent on
    [state], after which the goroutine returns. *)
Definition Patch (E : env) : M unit :=
  conf <- lift (config_read E) ;;
  maphackManifest <- getManifest E "maphack/manifest.json" ;;
  hdManifest <- getManifest E "hd/manifest.json" ;;
  Patch_loop E maphackManifest hdManifest (Games conf).

(** An event that reports to the user interface or fetches a manifest. *)
Definition is_notice (ev : event) : bool :=
  match ev with
  | EvMessage _ | EvFetch _ => true
  | _ => false
  end.

(** Every file of the four layers that the install enables is in place,
    and no marker file of a disabled layer is. *)
Definition game_in_place (E : env) (w : world)
    (baseManifest slashManifest maphackManifest hdManifest : Manifest) (g : Game)
    : Prop :=
  Forall (up_to_date E w (Location g)) (Files baseManifest) ∧
  game_valid E darwin w slashManifest maphackManifest hdManifest g.

(** The events of [patchGame] on an install that is in place. *)
Definition idle_events (g : Game) : list event :=
  [EvMessage "Checking game version..."; EvFetch "1.13c/manifest.json";
   EvMessage "Checking Slashdiablo patch..."; EvFetch "current/manifest.json"] ++
  (if Maphack g then [EvMessage "Checking maphack..."] else []) ++
  (if HD g then [EvMessage "Checking HD mod..."] else []).

(** ** An install that is in place *)

Module SampleInPlace.
(** The collaborators of [Sample.E], with a checksum for the base layer's
    [Game.exe]. *)
Definition E : env :=
  mkEnv Sample.no_fault (remote Sample.E)
    (λ contents, if bool_decide (contents = "contents of Game.exe") then "0BADF00D"
                 else crc32_hex Sample.E contents)
    (unmarshal Sample.E) (config_read Sample.E).

(** The install directory of [Sample.install] with both layers current. *)
Definition w : world :=
  mkWorld (list_to_map [("/d2/Game.exe", "contents of Game.exe");
                        ("/d2/a.mpq", "contents of a.mpq")]) [] [].
End SampleInPlace.

(** The collaborators of [Sample.E], with a repository that lacks the
    manifest of the HD layer. *)
Definition E_without_hd_manifest : env :=
  mkEnv (fault Sample.E) (delete "hd/manifest.json" (remote Sample.E))
    (crc32_hex Sample.E) (unmarshal Sample.E) (config_read Sample.E).

(** The collaborators [E], with other system calls made to fail. *)
Definition with_fault (E : env) (fault' : syscall → option string) : env :=
  mkEnv fault' (remote E) (crc32_hex E) (unmarshal E) (config_read E).

(** The install directory of [Sample.w_maphack] while [BH.dll] cannot be
    examined. *)
Definition fault_BH_dll (c : syscall) : option string :=
  match c with
  | SysStat p => if bool_decide (p = "/d2/BH.dll") then Some "stat /d2/BH.dll: busy"
                 else None
  | _ => None
  end.

(** * Properties *)

(** ** Arithmetic of [int64] *)

Lemma Int64_wrap_in_range z : Int64.in_range z → Int64.wrap z = z.
Proof.
  unfold Int64.in_range, Int64.wrap. intros Hz.
  rewrite Z.mod_small; lia.
Qed.

Lemma Int64_wrap_add_l a b : Int64.wrap (Int64.wrap a + b) = Int64.wrap (a + b).
Proof.
  unfold Int64.wrap.
  replace ((a + 2 ^ 63) `mod` 2 ^ 64 - 2 ^ 63 + b + 2 ^ 63)%Z
    with ((a + 2 ^ 63) `mod` 2 ^ 64 + b)%Z by lia.
  rewrite Zplus_mod_idemp_l. do 2 f_equal. lia.
Qed.

Lemma Int64_foldl_add a l :
  foldl Int64.add (Int64.wrap a) l = Int64.wrap (a + Zsum l).
Proof.
  revert a. induction l as [|x l IH]; intros a; simpl.
  - f_equal. lia.
  - unfold Int64.add at 2. rewrite Int64_wrap_add_l, IH. f_equal. lia.
Qed.

Lemma Int64_sum_wrap l : Int64.sum l = Int64.wrap (Zsum l).
Proof.
  unfold Int64.sum. change 0%Z with (Int64.wrap 0) at 1.
  apply Int64_foldl_add.
Qed.

Lemma Zsum_filter_bounds {A} (len : A → Z) (keep : A → bool) (l : list A) :
  Forall (λ x, 0 ≤ len x)%Z l →
  (0 ≤ Zsum (len <$> List.filter keep l) ≤ Zsum (len <$> l))%Z.
Proof.
  induction 1 as [|x l Hx _ IH]; cbn [List.filter]; [done|].
  destruct (keep x); rewrite ?fmap_cons; unfold Zsum in *;
    cbn [foldr]; lia.
Qed.

(** ** The diff plan *)

Lemma existsb_elem_of (name : string) (ignore : list string) :
  existsb (λ ign, bool_decide (name = ign)) ignore = bool_decide (name ∈ ignore).
Proof.
  induction ignore as [|x l IH]; cbn [existsb].
  - symmetry. apply bool_decide_eq_false. by intros ?%elem_of_nil.
  - rewrite IH. destruct (decide (name = x)) as [->|Hne].
    + rewrite (bool_decide_eq_true_2 (x = x)) by done. cbn [orb].
      symmetry. apply bool_decide_eq_true_2. apply list_elem_of_here.
    + rewrite (bool_decide_eq_false_2 (name = x)) by done. cbn [orb].
      apply bool_decide_ext. rewrite elem_of_cons.
      split; [by right|by intros [?|?]].
Qed.

Lemma ignored_elem_of (name : string) (ignore : list string) : ignored name ignore = bool_decide (name ∈ ignore).
Proof.
  destruct ignore as [|x l]; [|apply existsb_elem_of].
  cbn [ignored]. symmetry. apply bool_decide_eq_false. by intros ?%elem_of_nil.
Qed.

Lemma hashCRC32_world E path w : (hashCRC32 E path w).2 = w.
Proof.
  unfold hashCRC32, faulty, fail.
  destruct (fault E (SysOpen path)); [done|].
  by destruct (disk w !! path).
Qed.

Lemma hashCRC32_eq E path w : hashCRC32 E path w = ((hashCRC32 E path w).1, w).
Proof. rewrite <- (hashCRC32_world E path w) at 3. by destruct (hashCRC32 E path w). Qed.

Lemma diff_step_ignored E w dir ignore f :
  ignored (Name f) ignore = true →
  read_error E w dir ignore f = None ∧ needs_patch E w dir ignore f = false.
Proof.
  rewrite ignored_elem_of. unfold read_error, needs_patch. by intros ->.
Qed.

Lemma diff_step_hashed E w dir ignore f hashed :
  ignored (Name f) ignore = false →
  local_checksum E w dir f = Ok hashed →
  read_error E w dir ignore f = None ∧
  needs_patch E w dir ignore f = bool_decide (hashed ≠ CRC f).
Proof.
  rewrite ignored_elem_of. unfold read_error, needs_patch. by intros -> ->.
Qed.

Lemma diff_step_error E w dir ignore f e :
  ignored (Name f) ignore = false →
  local_checksum E w dir f = Err e →
  read_error E w dir ignore f
    = (if bool_decide (e = ErrCRCFileNotFound) then None else Some e) ∧
  needs_patch E w dir ignore f = bool_decide (e = ErrCRCFileNotFound).
Proof.
  rewrite ignored_elem_of. unfold read_error, needs_patch. by intros -> ->.
Qed.

(** The loop, started from any accumulators, computes what the
    specification says. *)
Lemma getFilesToPatch_loop_spec E files dir ignore acc total w :
  getFilesToPatch_loop E files dir ignore acc total w =
  (match head (omap (read_error E w dir ignore) files) with
   | Some e => Err e
   | None =>
       let stale := List.filter (needs_patch E w dir ignore) files in
       Ok (acc ++ (Name <$> stale), foldl Int64.add total (ContentLength <$> stale))
   end, w).
Proof.
  revert acc total. induction files as [|f files IH]; intros acc total.
  - simpl. by rewrite app_nil_r.
  - cbn [getFilesToPatch_loop].
    remember (read_error E w dir ignore) as re eqn:Hre.
    remember (needs_patch E w dir ignore) as np eqn:Hnp.
    cbn [omap list_omap List.filter].
    destruct (ignored (Name f) ignore) eqn:Hign.
    { destruct (diff_step_ignored E w dir ignore f Hign) as [H1 H2].
      rewrite <- Hre in H1. rewrite <- Hnp in H2. rewrite H1, H2. apply IH. }
    fold (final_path dir (Name f)).
    rewrite hashCRC32_eq. fold (local_checksum E w dir f).
    destruct (local_checksum E w dir f) as [hashed|e] eqn:Hsum.
    + destruct (diff_step_hashed E w dir ignore f hashed Hign Hsum) as [H1 H2].
      rewrite <- Hre in H1. rewrite <- Hnp in H2. rewrite H1, H2.
      case_bool_decide.
      * rewrite IH. destruct (head _); [done|]. cbn zeta.
        rewrite !fmap_cons, <- (assoc_L (++)). done.
      * apply IH.
    + destruct (diff_step_error E w dir ignore f e Hign Hsum) as [H1 H2].
      rewrite <- Hre in H1. rewrite <- Hnp in H2. rewrite H1, H2.
      case_bool_decide; [|done].
      rewrite IH. destruct (head _); [done|]. cbn zeta.
      rewrite !fmap_cons, <- (assoc_L (++)). done.
Qed.

Lemma getFilesToPatch_spec E files dir ignore w :
  getFilesToPatch E files dir ignore w = (plan_spec E w files dir ignore, w).
Proof.
  unfold getFilesToPatch, plan_spec. rewrite getFilesToPatch_loop_spec.
  destruct (head _); [done|]. simpl.
  by rewrite <- Int64_sum_wrap.
Qed.

Lemma read_error_none_Forall E w dir ignore files :
  head (omap (read_error E w dir ignore) files) = None ↔
  Forall (λ f, read_error E w dir ignore f = None) files.
Proof.
  induction files as [|f files IH]; simpl; [by split; [constructor|]|].
  destruct (read_error E w dir ignore f) eqn:Hf; simpl.
  - split; [done|]. inversion 1; congruence.
  - rewrite IH. split; [by constructor|]. by inversion 1.
Qed.

Lemma filter_nil_Forall {A} (keep : A → bool) (l : list A) :
  List.filter keep l = [] ↔ Forall (λ x, keep x = false) l.
Proof.
  induction l as [|x l IH]; simpl; [by split; [constructor|]|].
  destruct (keep x) eqn:Hx.
  - split; [done|]. inversion 1; congruence.
  - rewrite IH. split; [by constructor|]. by inversion 1.
Qed.

Lemma up_to_date_iff E w dir f :
  up_to_date E w dir f ↔
  read_error E w dir [] f = None ∧ needs_patch E w dir [] f = false.
Proof.
  unfold up_to_date, read_error, needs_patch.
  rewrite (bool_decide_eq_false_2 (Name f ∈ [])) by (by intros ?%elem_of_nil).
  cbn [negb andb]. destruct (local_checksum E w dir f) as [h|e].
  - destruct (decide (h = CRC f)) as [->|Hne].
    + rewrite bool_decide_eq_false_2 by (intros Hne; by apply Hne). done.
    + rewrite bool_decide_eq_true_2 by done.
      split; [by intros [= ->]|by intros [_ ?]].
  - case_bool_decide; (split; [done|by intros [? ?]]).
Qed.

(** C1.  For every manifest file list, install directory and ignore
    list, [getFilesToPatch] leaves the world alone and returns the diff
    plan: unless a checksum lookup fails with an error other than
    NotFound (then that error is returned), the names are exactly those of
    the manifest files that are not in the ignore list and whose lookup
    signals NotFound or gives a checksum different from the manifest's, in
    manifest order, and the total is the [int64] sum of their declared
    content lengths, which is their sum whenever the manifest's lengths
    are non-negative and add up to less than 2^63.  With an empty ignore
    list the plan is empty iff every file of the manifest exists locally
    with matching checksum. *)
Theorem getFilesToPatch_plan E (files : list PatchFile) (dir : string)
    (ignore : list string) (w : world) :
  getFilesToPatch E files dir ignore w = (plan_spec E w files dir ignore, w) ∧
  (∀ names total,
     (getFilesToPatch E files dir ignore w).1 = Ok (names, total) →
     let stale := List.filter (needs_patch E w dir ignore) files in
     names = Name <$> stale ∧
     names `sublist_of` (Name <$> files) ∧
     total = Int64.wrap (Zsum (ContentLength <$> stale)) ∧
     (Forall (λ f, 0 ≤ ContentLength f)%Z files →
      (Zsum (ContentLength <$> files) < 2 ^ 63)%Z →
      total = Zsum (ContentLength <$> stale))) ∧
  ((∃ total, (getFilesToPatch E files dir [] w).1 = Ok ([], total)) ↔
   Forall (up_to_date E w dir) files).
Proof.
  split; [apply getFilesToPatch_spec|]. split.
  - intros names total. rewrite getFilesToPatch_spec. unfold plan_spec. simpl.
    destruct (head _); [done|]. intros [= <- <-]. repeat split.
    + apply fmap_sublist. clear. induction files as [|f files IH]; simpl; [done|].
      destruct (needs_patch _ _ _ _ f); by constructor.
    + intros Hpos Hsum. apply Int64_wrap_in_range.
      pose proof (Zsum_filter_bounds ContentLength (needs_patch E w dir ignore) files Hpos).
      unfold Int64.in_range. lia.
  - rewrite getFilesToPatch_spec. unfold plan_spec. simpl.
    rewrite Forall_forall. setoid_rewrite up_to_date_iff. split.
    + intros [total Hplan] f Hf.
      destruct (head _) eqn:Hhead; [done|].
      apply read_error_none_Forall in Hhead. rewrite Forall_forall in Hhead.
      injection Hplan as Hnames _. apply fmap_nil_inv in Hnames.
      apply filter_nil_Forall in Hnames. rewrite Forall_forall in Hnames. auto.
    + intros Hall.
      assert (head (omap (read_error E w dir []) files) = None) as ->.
      { apply read_error_none_Forall, Forall_forall. intros f Hf. apply (Hall f Hf). }
      assert (List.filter (needs_patch E w dir []) files = []) as ->.
      { apply filter_nil_Forall, Forall_forall. intros f Hf. apply (Hall f Hf). }
      by eexists.
Qed.

Lemma getFilesToPatch_plan_witness :
  (getFilesToPatch Sample.E [Sample.a_mpq] "/d2" [] Sample.w_missing).1
    = Ok (["a.mpq"], 1000%Z) ∧
  (getFilesToPatch Sample.E [Sample.a_mpq] "/d2" [] Sample.w_current).1
    = Ok ([], 0%Z).
Proof.
  split.
  - destruct (getFilesToPatch_plan Sample.E [Sample.a_mpq] "/d2" [] Sample.w_missing)
      as [-> _].
    vm_compute. reflexivity.
  - destruct (getFilesToPatch_plan Sample.E [Sample.a_mpq] "/d2" [] Sample.w_current)
      as [-> _].
    vm_compute. reflexivity.
Defined.

(** ** Reset *)

Lemma world_eta w : mkWorld (disk w) (runningGames w) (trace w ++ []) = w.
Proof. destruct w; simpl. by rewrite app_nil_r. Qed.

Lemma after_removals_nil w : after_removals [] w = w.
Proof. apply world_eta. Qed.

Lemma final_path_inj dir a b : final_path dir a = final_path dir b → a = b.
Proof.
  unfold final_path, localizePath. intros H.
  apply (inj (String.app dir)) in H. by apply (inj (String.app "/")) in H.
Qed.

Lemma lookup_foldl_delete (removed : list string) (d : gmap string string) p :
  p ∉ removed → foldl (λ d p, delete p d) d removed !! p = d !! p.
Proof.
  revert d. induction removed as [|q removed IH]; intros d Hp; [done|].
  apply not_elem_of_cons in Hp as [Hne Hp]. simpl.
  rewrite IH by done. by apply lookup_delete_ne.
Qed.

(** One iteration of the loop of [resetPatch], by cases. *)
Lemma resetPatch_loop_cons E dir f rest ignore w :
  resetPatch_loop E dir (f :: rest) ignore w =
  let p := final_path dir (Name f) in
  match fault E (SysStat p) with
  | Some msg => (Err (ErrOther msg), w)
  | None =>
      match disk w !! p with
      | None => resetPatch_loop E dir rest ignore w
      | Some _ =>
          if bool_decide (Name f ∈ ignore) then resetPatch_loop E dir rest ignore w
          else match fault E (SysRemove p) with
               | Some msg => (Err (ErrOther msg), w)
               | None => resetPatch_loop E dir rest ignore (after_removals [p] w)
               end
      end
  end.
Proof.
  cbn [resetPatch_loop]. fold (final_path dir (Name f)). cbn zeta.
  rewrite existsb_elem_of.
  unfold os_Stat, os_Remove, faulty, fail, bind.
  destruct (fault E (SysStat _)); [done|].
  destruct (disk w !! _) eqn:Hp; [|done]. cbn [IsNotExist].
  case_bool_decide; [done|].
  destruct (fault E (SysRemove _)); [done|].
  by rewrite Hp.
Qed.

Lemma after_removals_cons p removed w :
  after_removals removed (after_removals [p] w) = after_removals (p :: removed) w.
Proof.
  unfold after_removals. simpl. f_equal.
  by rewrite <- (assoc_L (++)).
Qed.

(** Whatever the outcome, the loop only removes manifest files that are
    on disk and not ignored, and touches nothing else. *)
Lemma resetPatch_loop_effect E dir files ignore w :
  ∃ removed,
    (resetPatch_loop E dir files ignore w).2 = after_removals removed w ∧
    Forall (removable dir files ignore w) removed.
Proof.
  revert w. induction files as [|f files IH]; intros w.
  { exists []. by rewrite after_removals_nil. }
  rewrite resetPatch_loop_cons. cbn zeta.
  assert (∀ w0, Forall (removable dir files ignore w0) []) as Hnil by (by constructor).
  assert (∀ removed, Forall (removable dir files ignore w) removed →
            Forall (removable dir (f :: files) ignore w) removed) as Hweak.
  { intros removed Hrem. eapply Forall_impl; [exact Hrem|].
    intros p (f' & ? & ? & ? & ?).
    exists f'. split; [by apply elem_of_cons; right|done]. }
  destruct (fault E (SysStat _)).
  { exists []. by rewrite after_removals_nil. }
  destruct (disk w !! _) eqn:Hp.
  2: { destruct (IH w) as (removed & ? & ?). exists removed. auto. }
  case_bool_decide as Hign.
  { destruct (IH w) as (removed & ? & ?). exists removed. auto. }
  destruct (fault E (SysRemove _)).
  { exists []. by rewrite after_removals_nil. }
  destruct (IH (after_removals [final_path dir (Name f)] w)) as (removed & Hw & Hrem).
  exists (final_path dir (Name f) :: removed). split.
  { by rewrite Hw, after_removals_cons. }
  constructor.
  - exists f. split; [apply list_elem_of_here|]. by rewrite Hp.
  - eapply Forall_impl; [exact Hrem|]. intros p (f' & ? & ? & ? & Hsome).
    exists f'. split; [by apply elem_of_cons; right|]. repeat split; try done.
    simpl in Hsome. apply lookup_delete_is_Some in Hsome. tauto.
Qed.

(** If no system call is made to fail, the loop goes through and every
    manifest file that is not ignored is gone; a file that was already
    absent costs nothing. *)
Lemma resetPatch_loop_ok E dir files ignore w :
  reset_unhindered E dir files →
  (resetPatch_loop E dir files ignore w).1 = Ok tt ∧
  disk (resetPatch_loop E dir files ignore w).2 = reset_spec dir files ignore (disk w).
Proof.
  revert w. induction files as [|f files IH]; intros w Hfree; [done|].
  assert (reset_unhindered E dir files) as Hfree'.
  { intros f' Hf'. apply Hfree. by apply elem_of_cons; right. }
  destruct (Hfree f (list_elem_of_here _ _)) as [Hstat Hremove].
  rewrite resetPatch_loop_cons. cbn zeta. rewrite Hstat.
  unfold reset_spec. cbn [foldl]. fold (reset_spec dir files ignore).
  destruct (disk w !! _) eqn:Hp.
  - case_bool_decide; [by apply IH|].
    rewrite Hremove. by apply IH.
  - case_bool_decide; [by apply IH|].
    rewrite delete_id by done. by apply IH.
Qed.

Lemma resetPatch_unfold E dir files ignore w :
  resetPatch E dir files ignore w =
  match plan_spec E w files dir ignore with
  | Err e => (Err e, w)
  | Ok plan =>
      if bool_decide (length plan.1 ≠ length files)
      then resetPatch_loop E dir files ignore w
      else (Ok tt, w)
  end.
Proof.
  unfold resetPatch, bind. rewrite getFilesToPatch_spec.
  destruct (plan_spec E w files dir ignore); [|done].
  by case_bool_decide.
Qed.

Lemma resetPatch_effect E dir files ignore w :
  ∃ removed,
    (resetPatch E dir files ignore w).2 = after_removals removed w ∧
    Forall (removable dir files ignore w) removed.
Proof.
  rewrite resetPatch_unfold.
  destruct (plan_spec E w files dir ignore) as [plan|e].
  - case_bool_decide; [apply resetPatch_loop_effect|].
    exists []. by rewrite after_removals_nil.
  - exists []. by rewrite after_removals_nil.
Qed.

Lemma plan_length E w files dir ignore names total :
  plan_spec E w files dir ignore = Ok (names, total) → length names ≤ length files.
Proof.
  unfold plan_spec. destruct (head _); [done|]. intros [= <- _].
  rewrite length_fmap. apply List.filter_length_le.
Qed.

(** C3.  [resetPatch] deletes only when the diff returned fewer stale
    files than the manifest has files: if the world changed at all, the
    diff succeeded with fewer names than manifest files; if all manifest
    files are stale nothing happens; when fewer are stale and no system
    call is made to fail, the call succeeds and exactly the manifest files
    not named in the ignore list are gone, a file that was already absent
    being a no-op; in every case only manifest files that were on disk and
    are not ignored have been removed; so a directory that holds none of
    the manifest files is left as it was. *)
Theorem resetPatch_guard E (dir : string) (files : list PatchFile)
    (ignore : list string) (w : world) :
  let plan := (getFilesToPatch E files dir ignore w).1 in
  let r := (resetPatch E dir files ignore w).1 in
  let w' := (resetPatch E dir files ignore w).2 in
  (w' ≠ w →
   ∃ names total, plan = Ok (names, total) ∧ length names < length files) ∧
  (∀ names total,
     plan = Ok (names, total) → length names = length files →
     r = Ok tt ∧ w' = w) ∧
  (∀ names total,
     plan = Ok (names, total) → length names < length files →
     reset_unhindered E dir files →
     r = Ok tt ∧ disk w' = reset_spec dir files ignore (disk w)) ∧
  (∃ removed,
     w' = after_removals removed w ∧
     Forall (removable dir files ignore w) removed) ∧
  ((∀ f, f ∈ files → disk w !! final_path dir (Name f) = None) → w' = w).
Proof.
  cbn zeta. rewrite getFilesToPatch_spec. cbn [fst].
  repeat apply conj.
  - intros Hchanged. rewrite resetPatch_unfold in Hchanged.
    destruct (plan_spec E w files dir ignore) as [[names total]|e] eqn:Hplan;
      [|done].
    exists names, total. split; [done|].
    pose proof (plan_length _ _ _ _ _ _ _ Hplan) as Hle.
    cbn [fst] in Hchanged. case_bool_decide as Hne; [lia|done].
  - intros names total Hplan Hlen. rewrite resetPatch_unfold, Hplan. cbn [fst].
    by rewrite bool_decide_eq_false_2 by (intros Hne; by apply Hne).
  - intros names total Hplan Hlen Hfree. rewrite resetPatch_unfold, Hplan. cbn [fst].
    rewrite bool_decide_eq_true_2 by lia.
    by apply resetPatch_loop_ok.
  - apply resetPatch_effect.
  - intros Habsent.
    destruct (resetPatch_effect E dir files ignore w) as ([|p removed] & Hw & Hrem).
    { by rewrite Hw, after_removals_nil. }
    apply Forall_cons in Hrem as [(f & Hf & -> & _ & Hsome) _].
    rewrite (Habsent f Hf) in Hsome. by destruct Hsome.
Qed.

Lemma resetPatch_guard_witness :
  (resetPatch Sample.E "/d2" [Sample.bh_dll; Sample.bh_cfg] ["BH.cfg"]
     Sample.w_maphack).1 = Ok tt ∧
  disk (resetPatch Sample.E "/d2" [Sample.bh_dll; Sample.bh_cfg] ["BH.cfg"]
          Sample.w_maphack).2
    = reset_spec "/d2" [Sample.bh_dll; Sample.bh_cfg] ["BH.cfg"]
        (disk Sample.w_maphack).
Proof.
  destruct (resetPatch_guard Sample.E "/d2" [Sample.bh_dll; Sample.bh_cfg]
              ["BH.cfg"] Sample.w_maphack) as (_ & _ & H & _).
  apply (H [] 0%Z).
  - vm_compute. reflexivity.
  - simpl. lia.
  - intros f _. split; reflexivity.
Defined.

(** ** The ignore list *)

(** C6.  A name in the ignore list is never in the plan that
    [getFilesToPatch] returns, and [resetPatch] never removes the file of
    that name: whatever is on disk and whatever the outcome, the file is
    after the call what it was before, and no removal of it is in the
    trace. *)
Theorem ignore_list_respected E (dir : string) (files : list PatchFile)
    (ignore : list string) (w : world) (n : string) :
  n ∈ ignore →
  (∀ names total,
     (getFilesToPatch E files dir ignore w).1 = Ok (names, total) → n ∉ names) ∧
  disk (resetPatch E dir files ignore w).2 !! final_path dir n
    = disk w !! final_path dir n ∧
  EvRemove (final_path dir n)
    ∉ drop (length (trace w)) (trace (resetPatch E dir files ignore w).2).
Proof.
  intros Hn. split.
  { intros names total. rewrite getFilesToPatch_spec. cbn [fst]. unfold plan_spec.
    destruct (head _); [done|]. intros [= <- _].
    intros (f & -> & Hf)%list_elem_of_fmap.
    apply list_elem_of_In, List.filter_In in Hf as [_ Hstale].
    unfold needs_patch in Hstale.
    by rewrite (bool_decide_eq_true_2 _ Hn) in Hstale. }
  destruct (resetPatch_effect E dir files ignore w) as (removed & -> & Hrem).
  assert (final_path dir n ∉ removed) as Hnot.
  { intros Hin. rewrite Forall_forall in Hrem.
    pose proof (Hrem _ Hin) as (f & _ & Heq & Hign & _).
    apply final_path_inj in Heq. by subst. }
  unfold after_removals. cbn [disk trace]. split.
  - by apply lookup_foldl_delete.
  - rewrite drop_app_length.
    intros (p & [= <-] & Hp)%list_elem_of_fmap. done.
Qed.

Lemma ignore_list_respected_witness :
  disk (resetPatch Sample.E "/d2" [Sample.bh_dll; Sample.bh_cfg] ["BH.cfg"]
          Sample.w_maphack).2 !! "/d2/BH.cfg" = Some "my own settings".
Proof.
  assert ("BH.cfg" ∈ ["BH.cfg"]) as Hn by apply list_elem_of_here.
  destruct (ignore_list_respected Sample.E "/d2" [Sample.bh_dll; Sample.bh_cfg]
              ["BH.cfg"] Sample.w_maphack "BH.cfg" Hn) as (_ & H & _).
  exact H.
Defined.

(** ** Strings *)

Lemma string_app_cons a s t : String a s +:+ t = String a (s +:+ t).
Proof. reflexivity. Qed.

Lemma string_app_assoc s t u : (s +:+ t) +:+ u = s +:+ t +:+ u.
Proof.
  induction s as [|a s IH]; [done|].
  by rewrite !string_app_cons, IH.
Qed.

Lemma string_length_app s t :
  String.length (s +:+ t) = String.length s + String.length t.
Proof.
  induction s as [|a s IH]; [done|].
  rewrite string_app_cons. cbn [String.length]. by rewrite IH.
Qed.

Lemma slice_to_app s t : GoString.slice_to (s +:+ t) (String.length s) = s.
Proof.
  unfold GoString.slice_to. induction s as [|a s IH].
  - by destruct t.
  - rewrite string_app_cons. cbn [String.length String.substring]. by rewrite IH.
Qed.

Lemma tmpPath_final dir n : tmpPath dir n = final_path dir n +:+ ".tmp".
Proof.
  unfold tmpPath, final_path, localizePath. by rewrite !string_app_assoc.
Qed.

(** [tmpFile[:len(tmpFile)-4]] is the final path. *)
Lemma tmpPath_strip dir n :
  GoString.slice_to (tmpPath dir n) (String.length (tmpPath dir n) - 4)
    = final_path dir n.
Proof.
  rewrite tmpPath_final, string_length_app.
  replace (String.length (final_path dir n) + String.length ".tmp" - 4)
    with (String.length (final_path dir n)) by (cbn [String.length]; lia).
  apply slice_to_app.
Qed.

(** ** Download and promote *)

Lemma staged_only_intro paths w w' evs :
  runningGames w' = runningGames w →
  trace w' = trace w ++ evs →
  Forall (λ ev, is_rename ev = false) evs →
  (∀ q, q ∉ paths → disk w' !! q = disk w !! q) →
  staged_only paths w w'.
Proof. intros ????. split; [done|]. split; [by exists evs|done]. Qed.

Lemma staged_only_refl paths w : staged_only paths w w.
Proof. apply (staged_only_intro _ _ _ []); try done. by rewrite app_nil_r. Qed.

Lemma staged_only_trans paths w1 w2 w3 :
  staged_only paths w1 w2 → staged_only paths w2 w3 → staged_only paths w1 w3.
Proof.
  intros (Hg1 & (evs1 & Ht1 & Hr1) & Hd1) (Hg2 & (evs2 & Ht2 & Hr2) & Hd2).
  apply (staged_only_intro _ _ _ (evs1 ++ evs2)).
  - congruence.
  - by rewrite Ht2, Ht1, (assoc_L (++)).
  - by apply Forall_app.
  - intros q Hq. by rewrite Hd2, Hd1.
Qed.

Lemma staged_only_weaken paths paths' w w' :
  paths ⊆ paths' → staged_only paths w w' → staged_only paths' w w'.
Proof.
  intros Hsub (Hg & Ht & Hd). split; [done|]. split; [done|].
  intros q Hq. apply Hd. intros Hin. by apply Hq, Hsub.
Qed.

Lemma staged_only_event paths w ev :
  is_rename ev = false →
  staged_only paths w (mkWorld (disk w) (runningGames w) (trace w ++ [ev])).
Proof.
  intros Hev. apply (staged_only_intro _ _ _ [ev]); try done.
  by repeat constructor.
Qed.

Lemma staged_only_write path contents w ev :
  is_rename ev = false →
  staged_only [path] w
    (mkWorld (<[path := contents]> (disk w)) (runningGames w) (trace w ++ [ev])).
Proof.
  intros Hev. apply (staged_only_intro _ _ _ [ev]); try done.
  - by repeat constructor.
  - intros q Hq. cbn [disk]. apply lookup_insert_ne.
    intros ->. apply Hq, list_elem_of_here.
Qed.

Lemma GetFile_effect E f w :
  staged_only [] w (GetFile E f w).2.
Proof.
  unfold GetFile, bind, emit, faulty, fail, ret.
  destruct (fault E (SysGetFile f)); [by apply staged_only_event|].
  destruct (remote E !! f); by apply staged_only_event.
Qed.

Lemma downloadFile_effect E fileName remoteDir path w :
  staged_only [path] w (downloadFile E fileName remoteDir path w).2.
Proof.
  unfold downloadFile, bind.
  assert (staged_only [path] w (os_Create E path w).2) as Hcreate.
  { unfold os_Create, faulty, fail.
    destruct (fault E (SysCreate path)); [apply staged_only_refl|].
    by apply staged_only_write. }
  destruct (os_Create E path w) as [[[]|e] w1]; [|done].
  eapply staged_only_trans; [exact Hcreate|]. cbn [snd].
  pose proof (GetFile_effect E (remoteDir +:+ "/" +:+ fileName) w1) as Hget.
  apply (staged_only_weaken [] [path]) in Hget; [|by intros ? ?%elem_of_nil].
  destruct (GetFile E _ w1) as [[contents|e] w2]; [|done].
  eapply staged_only_trans; [exact Hget|]. cbn [snd].
  unfold io_Copy, faulty, fail.
  destruct (fault E (SysCopy path)); [apply staged_only_refl|].
  by apply staged_only_write.
Qed.

(** The first loop renames nothing, touches only staged paths, and on
    success returns the staged paths in plan order. *)
Lemma doPatch_download_effect E patchFiles remoteDir dir tmpFiles w :
  staged_only (tmpPath dir <$> patchFiles) w
    (doPatch_download E patchFiles remoteDir dir tmpFiles w).2 ∧
  (∀ staged,
     (doPatch_download E patchFiles remoteDir dir tmpFiles w).1 = Ok staged →
     staged = tmpFiles ++ (tmpPath dir <$> patchFiles)).
Proof.
  revert tmpFiles w. induction patchFiles as [|n patchFiles IH]; intros tmpFiles w.
  { split; [apply staged_only_refl|]. intros staged [= <-]. by rewrite app_nil_r. }
  cbn [doPatch_download]. unfold bind.
  pose proof (downloadFile_effect E n remoteDir (tmpPath dir n) w) as Hone.
  apply (staged_only_weaken _ (tmpPath dir <$> n :: patchFiles)) in Hone.
  2: { intros q ->%list_elem_of_singleton. rewrite fmap_cons. apply list_elem_of_here. }
  destruct (downloadFile E n remoteDir (tmpPath dir n) w) as [[[]|e] w1];
    [|by split].
  destruct (IH (tmpFiles ++ [tmpPath dir n]) w1) as [Hrest Hok]. split.
  - eapply staged_only_trans; [exact Hone|].
    eapply staged_only_weaken; [|exact Hrest].
    intros q Hq. rewrite fmap_cons. by apply elem_of_cons; right.
  - intros staged Hstaged. rewrite (Hok _ Hstaged), fmap_cons.
    by rewrite <- (assoc_L (++)).
Qed.

(** ** A patch that goes through *)

Lemma string_app_inj_r s s' t : s +:+ t = s' +:+ t → s = s'.
Proof.
  assert (∀ b u, t ≠ String b u +:+ t) as Hlonger.
  { intros b u Heq. apply (f_equal String.length) in Heq.
    rewrite string_app_cons in Heq. cbn [String.length] in Heq.
    rewrite string_length_app in Heq. lia. }
  revert s'. induction s as [|a s IH]; intros [|b s'] Heq.
  - done.
  - change ("" +:+ t) with t in Heq. by apply Hlonger in Heq.
  - change ("" +:+ t) with t in Heq. symmetry in Heq. by apply Hlonger in Heq.
  - rewrite !string_app_cons in Heq. injection Heq as -> Heq.
    f_equal. by apply IH.
Qed.

Lemma tmpPath_inj dir a b : tmpPath dir a = tmpPath dir b → a = b.
Proof.
  rewrite !tmpPath_final. intros Heq%string_app_inj_r. by apply final_path_inj in Heq.
Qed.

Lemma downloadFile_ok E fileName remoteDir path w :
  fault E (SysCreate path) = None →
  fault E (SysGetFile (remoteDir +:+ "/" +:+ fileName)) = None →
  fault E (SysCopy path) = None →
  is_Some (remote E !! (remoteDir +:+ "/" +:+ fileName)) →
  ∃ w1, downloadFile E fileName remoteDir path w = (Ok tt, w1) ∧
        is_Some (disk w1 !! path) ∧
        (∀ q, is_Some (disk w !! q) → is_Some (disk w1 !! q)).
Proof.
  intros Hcreate Hget Hcopy [contents Hremote].
  unfold downloadFile, bind, os_Create, GetFile, io_Copy, faulty, emit, bind, ret.
  rewrite Hcreate, Hget, Hremote, Hcopy. eexists. split; [done|].
  cbn [disk]. split.
  - rewrite lookup_insert_eq. by eexists.
  - intros q Hq. rewrite !lookup_insert_is_Some'. auto.
Qed.

Lemma doPatch_download_ok E patchFiles remoteDir dir tmpFiles w :
  patch_unhindered E patchFiles remoteDir →
  ∃ w1, doPatch_download E patchFiles remoteDir dir tmpFiles w
          = (Ok (tmpFiles ++ (tmpPath dir <$> patchFiles)), w1) ∧
        (∀ n, n ∈ patchFiles → is_Some (disk w1 !! tmpPath dir n)) ∧
        (∀ q, is_Some (disk w !! q) → is_Some (disk w1 !! q)).
Proof.
  intros (Hcreate & Hget & Hcopy & Hrename & Hremote).
  revert tmpFiles w. induction patchFiles as [|n patchFiles IH]; intros tmpFiles w.
  { exists w. rewrite app_nil_r. split; [done|]. split; [|done].
    by intros n ?%elem_of_nil. }
  cbn [doPatch_download]. unfold bind at 1.
  destruct (downloadFile_ok E n remoteDir (tmpPath dir n) w) as (w1 & -> & Hn & Hkeep);
    [done..|by apply Hremote, list_elem_of_here|].
  destruct (IH (λ n' Hn', Hremote n' (list_elem_of_further _ _ _ Hn'))
              (tmpFiles ++ [tmpPath dir n]) w1) as (w2 & -> & Hrest & Hkeep').
  exists w2. rewrite fmap_cons, <- (assoc_L (++)). split; [done|]. split; [|by auto].
  intros n' [->|Hn']%elem_of_cons; auto.
Qed.

Lemma doPatch_rename_ok E dir names w :
  (∀ a b, fault E (SysRename a b) = None) →
  NoDup names →
  (∀ n, n ∈ names → is_Some (disk w !! tmpPath dir n)) →
  (doPatch_rename E (tmpPath dir <$> names) w).1 = Ok tt.
Proof.
  intros Hrename Hdup. revert w. induction Hdup as [|n names Hn _ IH]; intros w Hstaged.
  { done. }
  rewrite fmap_cons. cbn [doPatch_rename]. rewrite tmpPath_strip.
  unfold bind, os_Rename, faulty. rewrite Hrename.
  destruct (Hstaged n (list_elem_of_here _ _)) as [contents ->].
  apply IH. intros n' Hn'. cbn [disk].
  apply lookup_insert_is_Some'. right.
  rewrite lookup_delete_ne.
  - apply Hstaged. by apply elem_of_cons; right.
  - intros Heq%tmpPath_inj. by subst.
Qed.

(** When nothing is made to fail, every planned file is in the repository
    and no file is planned twice, [doPatch] succeeds. *)
Lemma doPatch_succeeds E patchFiles patchLength remoteDir dir w :
  patch_unhindered E patchFiles remoteDir →
  NoDup patchFiles →
  (doPatch E patchFiles patchLength remoteDir dir w).1 = Ok tt.
Proof.
  intros Hfree Hdup. unfold doPatch, bind at 1, emit. unfold bind at 1.
  match goal with |- context [doPatch_download E _ _ _ [] ?w0] =>
    destruct (doPatch_download_ok E patchFiles remoteDir dir [] w0 Hfree)
      as (w1 & -> & Hstaged & _) end.
  cbn [app]. apply doPatch_rename_ok; [|done..].
  by destruct Hfree as (_ & _ & _ & ? & _).
Qed.

(** ** Errors of a layer application *)

Lemma has_prefix_app s t : GoString.has_prefix (s +:+ t) s = true.
Proof.
  induction s as [|a s IH]; [by destruct t|].
  rewrite string_app_cons. cbn [GoString.has_prefix].
  by rewrite bool_decide_eq_true_2, IH.
Qed.

Lemma contains_has_prefix s sub :
  GoString.has_prefix s sub = true → GoString.contains s sub = true.
Proof. intros H. destruct s; cbn [GoString.contains]; by rewrite H. Qed.

Lemma contains_app_l a s sub :
  GoString.contains s sub = true → GoString.contains (a +:+ s) sub = true.
Proof.
  intros H. induction a as [|c a IH]; [done|].
  rewrite string_app_cons. cbn [GoString.contains]. rewrite IH.
  apply orb_true_r.
Qed.

Lemma contains_middle a s b : GoString.contains (a +:+ s +:+ b) s = true.
Proof. apply contains_app_l, contains_has_prefix, has_prefix_app. Qed.

Lemma cleanUpError_contains patchErr e :
  GoString.contains (Error (cleanUpError patchErr e)) (Error patchErr) = true ∧
  GoString.contains (Error (cleanUpError patchErr e)) (Error e) = true.
Proof.
  unfold cleanUpError. cbn [Error]. split.
  - apply contains_middle.
  - rewrite <- !string_app_assoc.
    apply contains_app_l, contains_has_prefix.
    induction (Error e) as [|a s IH]; [done|].
    cbn [GoString.has_prefix]. by rewrite bool_decide_eq_true_2, IH.
Qed.

Lemma patchThenCleanUp_policy E names total remoteDir dir w patchErr w2 :
  doPatch E names total remoteDir dir w = (Err patchErr, w2) →
  cleanup_error_policy E dir (patchThenCleanUp E names total remoteDir dir) w
    patchErr w2.
Proof.
  intros Hpatch. unfold cleanup_error_policy, patchThenCleanUp. rewrite Hpatch.
  split.
  - intros e w3 ->. split; [done|]. apply cleanUpError_contains.
  - by intros w3 ->.
Qed.

Lemma applyFiles_policy E files ignoredFiles updating remoteDir dir w patchErr w2 :
  patch_fails E files ignoredFiles updating remoteDir dir w patchErr w2 →
  cleanup_error_policy E dir (applyFiles E files ignoredFiles updating remoteDir dir)
    w patchErr w2.
Proof.
  intros (names & total & Hplan & Hlen & Hpatch).
  apply patchThenCleanUp_policy in Hpatch as [Hboth Hone].
  assert (∀ r, patchThenCleanUp E names total remoteDir dir
                 (emit (EvMessage updating) w).2 = r →
               applyFiles E files ignoredFiles updating remoteDir dir w = r) as Hrun.
  { intros r <-. unfold applyFiles, bind. rewrite Hplan. cbn [fst snd].
    by rewrite bool_decide_eq_true_2 by done. }
  split.
  - intros e w3 Hclean. destruct (Hboth e w3 Hclean) as (? & ? & ?). auto.
  - intros w3 Hclean. auto.
Qed.

Lemma cleanup_error_policy_prefix E dir (run run' : M unit) w w1 patchErr w2 :
  run w = run' w1 →
  cleanup_error_policy E dir run' w1 patchErr w2 →
  cleanup_error_policy E dir run w patchErr w2.
Proof.
  intros Heq [Hboth Hone]. split.
  - intros e w3 Hclean. rewrite Heq. by apply Hboth.
  - intros w3 Hclean. rewrite Heq. by apply Hone.
Qed.

(** C5.  In each of the four layer applications, when [doPatch] fails:
    if the clean-up fails as well, the error returned is the one composed
    of both, whose text contains the text of the patch error and the text
    of the clean-up error; if the clean-up succeeds, the error returned is
    the patch error itself. *)
Theorem layer_cleanup_error E (dir : string) (w : world) (patchErr : error)
    (w2 : world) :
  (∀ manifest w1,
     getManifest E "1.13c/manifest.json"
       (emit (EvMessage "Checking game version...") w).2 = (Ok manifest, w1) →
     patch_fails E (Files manifest) [] ("Updating " +:+ dir +:+ " to 1.13c")
       "1.13c" dir w1 patchErr w2 →
     cleanup_error_policy E dir (apply113c E dir) w patchErr w2) ∧
  (∀ manifest w1,
     getManifest E "current/manifest.json"
       (emit (EvMessage "Checking Slashdiablo patch...") w).2 = (Ok manifest, w1) →
     patch_fails E (Files manifest) []
       ("Updating " +:+ dir +:+ " to current Slashdiablo patch")
       "current" dir w1 patchErr w2 →
     cleanup_error_policy E dir (applySlashPatch E dir) w patchErr w2) ∧
  (∀ manifestFiles ignoredFiles,
     patch_fails E manifestFiles ignoredFiles
       ("Updating " +:+ dir +:+ " to latest maphack version") "maphack" dir
       (emit (EvMessage "Checking maphack...") w).2 patchErr w2 →
     cleanup_error_policy E dir (applyMaphack E dir manifestFiles ignoredFiles)
       w patchErr w2) ∧
  (∀ manifestFiles,
     patch_fails E manifestFiles []
       ("Updating " +:+ dir +:+ " to latest HD mod version") "hd" dir
       (emit (EvMessage "Checking HD mod...") w).2 patchErr w2 →
     cleanup_error_policy E dir (applyHDMod E dir manifestFiles) w patchErr w2).
Proof.
  repeat apply conj.
  - intros manifest w1 Hmanifest Hfails.
    eapply cleanup_error_policy_prefix; [|by apply applyFiles_policy].
    unfold apply113c, bind at 1. cbn [emit].
    cbn [emit snd] in Hmanifest. unfold bind at 1. by rewrite Hmanifest.
  - intros manifest w1 Hmanifest Hfails.
    eapply cleanup_error_policy_prefix; [|by apply applyFiles_policy].
    unfold applySlashPatch, bind at 1. cbn [emit].
    cbn [emit snd] in Hmanifest. unfold bind at 1. by rewrite Hmanifest.
  - intros manifestFiles ignoredFiles Hfails.
    eapply cleanup_error_policy_prefix; [|by apply applyFiles_policy].
    done.
  - intros manifestFiles Hfails.
    eapply cleanup_error_policy_prefix; [|by apply applyFiles_policy].
    done.
Qed.

Lemma layer_cleanup_error_witness :
  (apply113c Sample.E_unlistable "/d2" Sample.w_missing).1
    = Err (ErrOther "Clean up error: remote file not found: 1.13c/Game.exe : open /d2: permission denied") ∧
  (apply113c Sample.E "/d2" Sample.w_missing).1
    = Err (ErrOther "remote file not found: 1.13c/Game.exe").
Proof.
  split.
  - edestruct (layer_cleanup_error Sample.E_unlistable "/d2" Sample.w_missing)
      as [H _].
    edestruct H as [Hboth _].
    + vm_compute. reflexivity.
    + exists ["Game.exe"], 52%Z. split; [vm_compute; reflexivity|].
      split; [simpl; lia|]. vm_compute. reflexivity.
    + edestruct Hboth as (-> & _); [vm_compute; reflexivity|]. reflexivity.
  - edestruct (layer_cleanup_error Sample.E "/d2" Sample.w_missing) as [H _].
    edestruct H as [_ Hone].
    + vm_compute. reflexivity.
    + exists ["Game.exe"], 52%Z. split; [vm_compute; reflexivity|].
      split; [simpl; lia|]. vm_compute. reflexivity.
    + erewrite Hone; [reflexivity|]. vm_compute. reflexivity.
Defined.

(** ** Clean-up of staged files *)

Lemma strip_prefix_Some p s r :
  GoString.strip_prefix p s = Some r ↔ s = p +:+ r.
Proof.
  revert s. induction p as [|a p IH]; intros s.
  - cbn. split; [by intros [= ->]|by intros ->].
  - destruct s as [|b s]; cbn [GoString.strip_prefix].
    + split; [done|]. by rewrite string_app_cons.
    + rewrite string_app_cons. case_bool_decide as Hab.
      * subst b. rewrite IH. split; [by intros ->|by intros [= ->]].
      * split; [done|]. intros [= ? _]. by subst.
Qed.

Lemma top_level_name_Some dir key n :
  top_level_name dir key = Some n ↔
  key = final_path dir n ∧ n ≠ "" ∧ GoString.contains n "/" = false.
Proof.
  unfold top_level_name, final_path, localizePath.
  destruct (GoString.strip_prefix (dir +:+ "/") key) as [r|] eqn:Hr.
  - apply strip_prefix_Some in Hr. rewrite string_app_assoc in Hr. subst key.
    case_bool_decide as Hempty; cbn [orb].
    + split; [done|]. intros (Heq & Hne & _).
      apply (inj (String.app dir)), (inj (String.app "/")) in Heq. by subst.
    + destruct (GoString.contains r "/") eqn:Hslash.
      * split; [done|]. intros (Heq & _ & Hno).
        apply (inj (String.app dir)), (inj (String.app "/")) in Heq. subst.
        congruence.
      * split; [by intros [= <-]|]. intros (Heq & _ & _).
        apply (inj (String.app dir)), (inj (String.app "/")) in Heq. by subst.
  - split; [done|]. intros (-> & _ & _).
    rewrite <- string_app_assoc in Hr.
    assert (GoString.strip_prefix (dir +:+ "/") ((dir +:+ "/") +:+ n) = Some n) as H
      by (by apply strip_prefix_Some).
    congruence.
Qed.

(** The directory listing is the set of top-level files on disk. *)
Lemma ioutil_ReadDir_elem E dir w names n :
  (ioutil_ReadDir E dir w).1 = Ok names →
  n ∈ names ↔
  is_Some (disk w !! final_path dir n) ∧ n ≠ "" ∧ GoString.contains n "/" = false.
Proof.
  unfold ioutil_ReadDir, faulty, fail.
  destruct (fault E (SysReadDir dir)); [done|]. intros [= <-].
  rewrite merge_sort_Permutation, list_elem_of_omap. split.
  - intros (key & Hkey & (-> & ? & ?)%top_level_name_Some).
    apply list_elem_of_fmap in Hkey as ([k v] & Hk & Hkv). cbn in Hk. subst k.
    apply elem_of_map_to_list in Hkv. by rewrite Hkv.
  - intros ([v Hv] & ? & ?). exists (final_path dir n). split.
    + apply list_elem_of_fmap. exists (final_path dir n, v).
      split; [done|]. by apply elem_of_map_to_list.
    + by apply top_level_name_Some.
Qed.

Lemma ioutil_ReadDir_world E dir w : (ioutil_ReadDir E dir w).2 = w.
Proof.
  unfold ioutil_ReadDir, faulty, fail. by destruct (fault E (SysReadDir dir)).
Qed.

Lemma cleanup_spec_cons dir m names (d : gmap string string) :
  cleanup_spec dir (m :: names) d =
  cleanup_spec dir names
    (if GoString.contains m ".tmp" then delete (final_path dir m) d else d).
Proof. reflexivity. Qed.

Lemma cleanUpFailedPatch_loop_ok E dir names w w' :
  cleanUpFailedPatch_loop E dir names w = (Ok tt, w') →
  disk w' = cleanup_spec dir names (disk w).
Proof.
  revert w. induction names as [|n names IH]; intros w.
  { by intros [= <-]. }
  cbn [cleanUpFailedPatch_loop]. rewrite cleanup_spec_cons.
  fold (final_path dir n).
  destruct (GoString.contains n ".tmp"); [|apply IH].
  unfold bind, os_Remove, faulty, fail.
  destruct (fault E (SysRemove _)); [done|].
  destruct (disk w !! final_path dir n); [|done].
  intros Hrest. by apply IH in Hrest.
Qed.

Lemma cleanup_spec_lookup dir names (d : gmap string string) n :
  cleanup_spec dir names d !! final_path dir n =
  if GoString.contains n ".tmp" && bool_decide (n ∈ names) then None
  else d !! final_path dir n.
Proof.
  revert d. induction names as [|m names IH]; intros d.
  { unfold cleanup_spec. cbn [foldl].
    rewrite (bool_decide_eq_false_2 (n ∈ [])) by (by intros ?%elem_of_nil).
    by rewrite andb_false_r. }
  rewrite cleanup_spec_cons, IH.
  destruct (decide (n = m)) as [->|Hne].
  - rewrite (bool_decide_eq_true_2 (m ∈ m :: names)) by apply list_elem_of_here.
    rewrite andb_true_r.
    destruct (GoString.contains m ".tmp"); cbn [andb]; [|done].
    rewrite lookup_delete_eq. by destruct (bool_decide _).
  - assert (bool_decide (n ∈ m :: names) = bool_decide (n ∈ names)) as ->.
    { apply bool_decide_ext. rewrite elem_of_cons. split; [by intros [?|?]|by right]. }
    destruct (GoString.contains n ".tmp" && bool_decide (n ∈ names)); [done|].
    destruct (GoString.contains m ".tmp"); [|done].
    apply lookup_delete_ne. by intros ?%final_path_inj.
Qed.

(** When the clean-up goes through, a top-level file is gone if its name
    contains [.tmp], wherever in the name, and else is left as it was. *)
Lemma cleanUpFailedPatch_on_success E dir w w' n :
  cleanUpFailedPatch E dir w = (Ok tt, w') →
  n ≠ "" → GoString.contains n "/" = false →
  disk w' !! final_path dir n =
  if GoString.contains n ".tmp" then None else disk w !! final_path dir n.
Proof.
  unfold cleanUpFailedPatch, bind, localizePath. intros Hrun Hne Hslash.
  pose proof (ioutil_ReadDir_elem E dir w) as Helem.
  pose proof (ioutil_ReadDir_world E dir w) as Hworld.
  destruct (ioutil_ReadDir E dir w) as [[names|e] w1]; [|done].
  cbn in Hworld. subst w1.
  apply cleanUpFailedPatch_loop_ok in Hrun. rewrite Hrun, cleanup_spec_lookup.
  destruct (GoString.contains n ".tmp"); [|done]. cbn [andb].
  case_bool_decide as Hin; [done|].
  destruct (disk w !! final_path dir n) eqn:Hn; [|done].
  exfalso. apply Hin, (Helem names n eq_refl). by rewrite Hn.
Qed.

(** Every staged file of a plan is removed by a clean-up that goes
    through. *)
Lemma cleanUpFailedPatch_staged E dir w w' n :
  cleanUpFailedPatch E dir w = (Ok tt, w') →
  n ≠ "" → GoString.contains n "/" = false →
  disk w' !! tmpPath dir n = None.
Proof.
  intros Hrun Hne Hslash.
  assert (tmpPath dir n = final_path dir (n +:+ ".tmp")) as ->.
  { unfold tmpPath, final_path, localizePath. done. }
  rewrite (cleanUpFailedPatch_on_success E dir w w' _ Hrun).
  - assert (GoString.contains (n +:+ ".tmp") ".tmp" = true) as ->; [|done].
    by apply contains_app_l.
  - by destruct n.
  - clear Hne. induction n as [|a n IH]; [done|].
    rewrite string_app_cons. cbn [GoString.contains] in *.
    apply orb_false_iff in Hslash as [Hhead Htail].
    rewrite IH by done. rewrite orb_false_r.
    assert (∀ s, GoString.has_prefix s "" = true) as Hempty by (by intros []).
    cbn [GoString.has_prefix] in *. by rewrite Hempty in *.
Qed.

(** C4.  [cleanUpFailedPatch] tests [strings.Contains(fileName, ".tmp")]:
    in an install directory that holds the user's file [settings.tmpl],
    whose name does not end in [.tmp], the clean-up goes through and the
    file is gone. *)
Theorem cleanUpFailedPatch_removes_unstaged :
  GoString.has_suffix "settings.tmpl" ".tmp" = false ∧
  disk Sample.w_interrupted !! "/d2/settings.tmpl" = Some "my template" ∧
  (cleanUpFailedPatch Sample.E "/d2" Sample.w_interrupted).1 = Ok tt ∧
  disk (cleanUpFailedPatch Sample.E "/d2" Sample.w_interrupted).2
    !! "/d2/settings.tmpl" = None ∧
  disk (cleanUpFailedPatch Sample.E "/d2" Sample.w_interrupted).2
    !! "/d2/a.mpq.tmp" = None.
Proof. vm_compute. repeat split. Qed.

(** ** Validation *)

Lemma ignored_or_up_to_date_iff E w dir ignore f :
  Name f ∈ ignore ∨ up_to_date E w dir f ↔
  read_error E w dir ignore f = None ∧ needs_patch E w dir ignore f = false.
Proof.
  unfold up_to_date, read_error, needs_patch.
  case_bool_decide as Hign; cbn [negb andb]; [by split; [|left]|].
  destruct (local_checksum E w dir f) as [h|e].
  - destruct (decide (h = CRC f)) as [->|Hne].
    + rewrite bool_decide_eq_false_2 by (intros Hne; by apply Hne).
      split; [done|by right].
    + rewrite bool_decide_eq_true_2 by done.
      split; [by intros [?|[= ->]]|by intros [_ ?]].
  - case_bool_decide; (split; [by intros [?|?]|by intros [? ?]]).
Qed.

(** The plan is empty exactly when every manifest file is ignored or up
    to date. *)
Lemma plan_empty_iff E w files dir ignore :
  (∃ names total, plan_spec E w files dir ignore = Ok (names, total) ∧
                  ¬ 0 < length names) ↔
  Forall (λ f, Name f ∈ ignore ∨ up_to_date E w dir f) files.
Proof.
  unfold plan_spec. rewrite Forall_forall.
  setoid_rewrite ignored_or_up_to_date_iff. split.
  - intros (names & total & Hplan & Hlen) f Hf.
    destruct (head _) eqn:Hhead; [done|].
    apply read_error_none_Forall in Hhead. rewrite Forall_forall in Hhead.
    injection Hplan as Hnames _.
    assert (names = []) as -> by (destruct names; [done|cbn in Hlen; lia]).
    apply fmap_nil_inv, filter_nil_Forall in Hnames.
    rewrite Forall_forall in Hnames. auto.
  - intros Hall.
    assert (head (omap (read_error E w dir ignore) files) = None) as ->.
    { apply read_error_none_Forall, Forall_forall. intros f Hf. apply (Hall f Hf). }
    assert (List.filter (needs_patch E w dir ignore) files = []) as ->.
    { apply filter_nil_Forall, Forall_forall. intros f Hf. apply (Hall f Hf). }
    eexists _, _. split; [done|]. cbn. lia.
Qed.

Lemma up_to_date_Forall_iff E w dir files :
  Forall (λ f, Name f ∈ [] ∨ up_to_date E w dir f) files ↔
  Forall (up_to_date E w dir) files.
Proof.
  rewrite !Forall_forall. split; intros H f Hf.
  - destruct (H f Hf) as [?%elem_of_nil|?]; done.
  - right. by apply H.
Qed.

(** With no failing system call the plan is never an error. *)
Lemma plan_spec_unhindered E w files dir ignore :
  (∀ p, fault E (SysOpen p) = None) →
  ∃ names total, plan_spec E w files dir ignore = Ok (names, total).
Proof.
  intros Hfree. unfold plan_spec.
  assert (head (omap (read_error E w dir ignore) files) = None) as ->; [|by eexists _, _].
  apply read_error_none_Forall, Forall_forall. intros f _.
  unfold read_error, local_checksum, hashCRC32, faulty. rewrite Hfree.
  case_bool_decide; [done|]. by destruct (disk w !! _).
Qed.

Lemma isInstalled_eq E dir marker w :
  isInstalled E dir marker w =
  (match fault E (SysStat (final_path dir marker)) with
   | Some msg => Err (ErrOther msg)
   | None => Ok (bool_decide (is_Some (disk w !! final_path dir marker)))
   end, w).
Proof.
  unfold isInstalled, os_Stat, faulty, fail. fold (final_path dir marker).
  destruct (fault E (SysStat _)); [done|].
  destruct (disk w !! _) eqn:Hp; cbn [IsNotExist].
  - by rewrite bool_decide_eq_true_2.
  - rewrite bool_decide_eq_false_2; [done|]. by intros [? ?].
Qed.

Lemma getManifest_eq E path w :
  ∃ r, getManifest E path w =
         (r, mkWorld (disk w) (runningGames w) (trace w ++ [EvFetch path])) ∧
       (∀ m, r = Ok m ↔ manifest_at E path m).
Proof.
  unfold getManifest, GetFile, bind, emit, faulty, fail, ret, manifest_at.
  destruct (fault E (SysGetFile path)).
  { eexists. split; [done|]. intros m. split; [done|]. by intros [? _]. }
  destruct (remote E !! path) as [body|].
  2: { eexists. split; [done|]. intros m. split; [done|].
       by intros (_ & _ & ? & ? & _). }
  destruct (fault E (SysReadAll path)).
  { eexists. split; [done|]. intros m. split; [done|]. by intros (_ & ? & _). }
  destruct (unmarshal E body) as [m'|] eqn:Hm.
  - eexists. split; [done|]. intros m. split.
    + intros [= <-]. eauto.
    + intros (_ & _ & ? & [= <-] & ?). congruence.
  - eexists. split; [done|]. intros m. split; [done|].
    intros (_ & _ & ? & [= <-] & ?). congruence.
Qed.

(** The test of an optional layer in [ValidateGameVersions]: no missing
    file when the layer is enabled, no marker file when it is not. *)
Lemma optional_layer_check E dir marker (enabled : bool) (names : list string)
    w r w' :
  (if enabled then ret (negb (bool_decide (0 < length names)))
   else installed <- isInstalled E dir marker ;; ret (negb installed)) w = (r, w') →
  w' = w ∧
  (r = Ok true →
   if enabled then ¬ 0 < length names
   else disk w !! final_path dir marker = None) ∧
  (r = Ok false →
   if enabled then 0 < length names
   else is_Some (disk w !! final_path dir marker)).
Proof.
  destruct enabled.
  - intros [= <- <-]. split; [done|].
    case_bool_decide; cbn [negb]; split; done.
  - unfold bind. rewrite isInstalled_eq.
    destruct (fault E (SysStat _)); [by intros [= <- <-]|].
    intros [= <- <-]. split; [done|].
    case_bool_decide as Hin; cbn [negb]; split; try done.
    intros _. destruct (disk w !! _); [|done]. exfalso. by apply Hin.
Qed.

Lemma validateGame_cases E P sl mh hd g w r w' :
  validateGame E P sl mh hd g w = (r, w') →
  w' = w ∧
  (r = Ok true → game_valid E P w sl mh hd g) ∧
  (r = Ok false → ¬ game_valid E P w sl mh hd g).
Proof.
  unfold validateGame, game_valid, isMaphackInstalled, isHDInstalled. intros Hrun.
  unfold bind at 1 in Hrun. cbn beta in Hrun.
  destruct (validate113cVersion P (disk w) (Location g)) as [[|]|e] eqn:Hv;
    cbn [negb] in Hrun.
  2: { injection Hrun as <- <-. split; [done|]. split; [done|]. by intros _ [? _]. }
  2: { injection Hrun as <- <-. done. }
  unfold bind at 1 in Hrun. rewrite getFilesToPatch_spec in Hrun.
  pose proof (plan_empty_iff E w (Files sl) (Location g) []) as Hsl.
  rewrite up_to_date_Forall_iff in Hsl.
  destruct (plan_spec E w (Files sl) (Location g) []) as [[names total]|e].
  2: { injection Hrun as <- <-. done. }
  cbn [fst] in Hrun. case_bool_decide as Hlen.
  { injection Hrun as <- <-. split; [done|]. split; [done|]. intros _ (_ & Hall & _).
    apply Hsl in Hall as (? & ? & [= <- <-] & ?). done. }
  assert (Forall (up_to_date E w (Location g)) (Files sl)) as Hslash
    by (apply Hsl; eauto).
  clear Hsl.
  unfold bind at 1 in Hrun. rewrite getFilesToPatch_spec in Hrun.
  pose proof (plan_empty_iff E w (Files mh) (Location g) (ignoredMaphackFiles g)) as Hmh.
  destruct (plan_spec E w (Files mh) (Location g) (ignoredMaphackFiles g))
    as [[mnames mtotal]|e].
  2: { injection Hrun as <- <-. done. }
  cbn [fst] in Hrun.
  unfold bind at 1 in Hrun.
  match type of Hrun with
  | (let (_, _) := ?c w in _) = _ =>
      pose proof (optional_layer_check E (Location g) "BH.dll" (Maphack g) mnames w) as Hopt;
      destruct (c w) as [rm wm] eqn:Hc
  end.
  destruct (Hopt _ _ eq_refl) as (-> & Hmtrue & Hmfalse). clear Hopt.
  assert (rm = Ok false →
          ¬ (if Maphack g
             then Forall (λ f, Name f ∈ ignoredMaphackFiles g
                               ∨ up_to_date E w (Location g) f) (Files mh)
             else disk w !! final_path (Location g) "BH.dll" = None)) as Hmfalse'.
  { intros Hrm Hvalid. specialize (Hmfalse Hrm). destruct (Maphack g).
    - apply Hmh in Hvalid as (? & ? & [= <- <-] & ?). done.
    - rewrite Hvalid in Hmfalse. by destruct Hmfalse. }
  assert (rm = Ok true →
          (if Maphack g
           then Forall (λ f, Name f ∈ ignoredMaphackFiles g
                             ∨ up_to_date E w (Location g) f) (Files mh)
           else disk w !! final_path (Location g) "BH.dll" = None)) as Hmtrue'.
  { intros Hrm. specialize (Hmtrue Hrm). destruct (Maphack g); [|done].
    apply Hmh. eauto. }
  clear Hmh Hmtrue Hmfalse.
  destruct rm as [[|]|e]; cbn [negb] in Hrun.
  2: { injection Hrun as <- <-. split; [done|]. split; [done|].
       intros _ (_ & _ & Hvalid & _). by apply Hmfalse'. }
  2: { injection Hrun as <- <-. done. }
  specialize (Hmtrue' eq_refl). clear Hmfalse'.
  unfold bind at 1 in Hrun. rewrite getFilesToPatch_spec in Hrun.
  pose proof (plan_empty_iff E w (Files hd) (Location g) []) as Hhd.
  rewrite up_to_date_Forall_iff in Hhd.
  destruct (plan_spec E w (Files hd) (Location g) []) as [[hnames htotal]|e].
  2: { injection Hrun as <- <-. done. }
  cbn [fst] in Hrun.
  destruct (optional_layer_check E (Location g) "D2HD.dll" (HD g) hnames w _ _ Hrun)
    as (-> & Hhtrue & Hhfalse).
  split; [done|]. split.
  - intros Hr. specialize (Hhtrue Hr). repeat (split; [done|]).
    destruct (HD g); [|done]. apply Hhd. eauto.
  - intros Hr (_ & _ & _ & Hvalid). specialize (Hhfalse Hr). destruct (HD g).
    + apply Hhd in Hvalid as (? & ? & [= <- <-] & ?). done.
    + rewrite Hvalid in Hhfalse. by destruct Hhfalse.
Qed.

Lemma validateGame_unhindered E P sl mh hd g w :
  (∀ p, fault E (SysOpen p) = None) →
  (∀ p, fault E (SysStat p) = None) →
  (∃ b, validate113cVersion P (disk w) (Location g) = Ok b) →
  ∃ b, validateGame E P sl mh hd g w = (Ok b, w).
Proof.
  intros Hopen Hstat [b Hv].
  unfold validateGame, isMaphackInstalled, isHDInstalled.
  unfold bind at 1. rewrite Hv. destruct b; cbn [negb]; [|by eexists].
  unfold bind at 1. rewrite getFilesToPatch_spec.
  destruct (plan_spec_unhindered E w (Files sl) (Location g) [] Hopen)
    as (names & total & ->).
  cbn [fst]. case_bool_decide; [by eexists|].
  unfold bind at 1. rewrite getFilesToPatch_spec.
  destruct (plan_spec_unhindered E w (Files mh) (Location g) (ignoredMaphackFiles g) Hopen)
    as (mnames & mtotal & ->).
  cbn [fst]. unfold bind at 1.
  assert (∃ bm, (if Maphack g then ret (negb (bool_decide (0 < length mnames)))
                 else installed <- isInstalled E (Location g) "BH.dll" ;;
                      ret (negb installed)) w = (Ok bm, w)) as [bm ->].
  { destruct (Maphack g); [by eexists|].
    unfold bind. rewrite isInstalled_eq, Hstat. by eexists. }
  destruct bm; cbn [negb]; [|by eexists].
  unfold bind at 1. rewrite getFilesToPatch_spec.
  destruct (plan_spec_unhindered E w (Files hd) (Location g) [] Hopen)
    as (hnames & htotal & ->).
  cbn [fst]. destruct (HD g); [by eexists|].
  unfold bind. rewrite isInstalled_eq, Hstat. by eexists.
Qed.

(** The loop over the installs: it changes nothing; it ends in [true]
    only if every install is valid, and in [false] at the first install
    whose check says so. *)
Lemma ValidateGameVersions_loop_cases E P sl mh hd games w r w' :
  ValidateGameVersions_loop E P sl mh hd games w = (r, w') →
  w' = w ∧
  (r = Ok true → Forall (game_valid E P w sl mh hd) games) ∧
  (r = Ok false → ¬ Forall (game_valid E P w sl mh hd) games).
Proof.
  revert r w'. induction games as [|g games IH]; intros r w'.
  { intros [= <- <-]. split; [done|]. split; [by constructor|done]. }
  cbn [ValidateGameVersions_loop]. unfold bind at 1.
  destruct (validateGame E P sl mh hd g w) as [rg wg] eqn:Hg.
  apply validateGame_cases in Hg as (-> & Htrue & Hfalse).
  destruct rg as [[|]|e].
  - intros Hrest. apply IH in Hrest as (-> & Hrt & Hrf).
    split; [done|]. split.
    + intros Hr. constructor; auto.
    + intros Hr Hall. apply Forall_cons in Hall as [_ Hall]. by apply Hrf.
  - intros [= <- <-]. split; [done|]. split; [done|].
    intros _ Hall. apply Forall_cons in Hall as [Hvalid _]. by apply Hfalse.
  - intros [= <- <-]. done.
Qed.

Lemma ValidateGameVersions_loop_first E P sl mh hd pre g post w :
  Forall (λ g', (validateGame E P sl mh hd g' w).1 = Ok true) pre →
  (validateGame E P sl mh hd g w).1 = Ok false →
  ValidateGameVersions_loop E P sl mh hd (pre ++ g :: post) w = (Ok false, w).
Proof.
  intros Hpre Hg. induction Hpre as [|g' pre Hg' _ IH].
  - cbn [app ValidateGameVersions_loop]. unfold bind at 1.
    destruct (validateGame E P sl mh hd g w) as [rg wg] eqn:Hrun.
    pose proof (validateGame_cases _ _ _ _ _ _ _ _ _ Hrun) as (-> & _).
    cbn in Hg. by subst rg.
  - cbn [app ValidateGameVersions_loop]. unfold bind at 1.
    destruct (validateGame E P sl mh hd g' w) as [rg wg] eqn:Hrun.
    pose proof (validateGame_cases _ _ _ _ _ _ _ _ _ Hrun) as (-> & _).
    cbn in Hg'. by subst rg.
Qed.

Lemma ValidateGameVersions_loop_unhindered E P sl mh hd games w :
  checks_unhindered E P w games →
  ∃ b, ValidateGameVersions_loop E P sl mh hd games w = (Ok b, w).
Proof.
  intros (Hopen & Hstat & Hv). induction games as [|g games IH]; [by eexists|].
  cbn [ValidateGameVersions_loop]. unfold bind at 1.
  destruct (validateGame_unhindered E P sl mh hd g w Hopen Hstat) as [b ->].
  { apply Hv, list_elem_of_here. }
  destruct b; [|by eexists].
  apply IH. intros g' Hg'. apply Hv. by apply elem_of_cons; right.
Qed.

Lemma local_checksum_disk E w w2 dir f :
  disk w = disk w2 → local_checksum E w dir f = local_checksum E w2 dir f.
Proof.
  intros Hdisk. unfold local_checksum, hashCRC32, faulty, fail.
  destruct (fault E (SysOpen _)); [done|]. rewrite Hdisk.
  by destruct (disk w2 !! _).
Qed.

Lemma game_valid_disk E P w w2 sl mh hd g :
  disk w = disk w2 → game_valid E P w sl mh hd g → game_valid E P w2 sl mh hd g.
Proof.
  intros Hdisk (Hv & Hsl & Hmh & Hhd).
  assert (∀ f, up_to_date E w (Location g) f → up_to_date E w2 (Location g) f) as Hup.
  { intros f. unfold up_to_date. by rewrite (local_checksum_disk E w w2). }
  unfold game_valid. rewrite <- Hdisk. split; [done|]. split; [|split].
  - eapply Forall_impl; [exact Hsl|]. auto.
  - destruct (Maphack g); [|done].
    eapply Forall_impl; [exact Hmh|]. intros f [?|?]; auto.
  - destruct (HD g); [|done]. eapply Forall_impl; [exact Hhd|]. auto.
Qed.

Lemma manifest_at_functional E path m m' :
  manifest_at E path m → manifest_at E path m' → m = m'.
Proof. intros (_ & _ & ? & ? & ?) (_ & _ & ? & ? & ?). congruence. Qed.

Lemma append_trace_app evs1 evs2 w :
  append_trace evs2 (append_trace evs1 w) = append_trace (evs1 ++ evs2) w.
Proof. unfold append_trace. cbn. by rewrite (assoc_L (++)). Qed.

(** [ValidateGameVersions] either stops with an error while it gathers
    the configuration and the three manifests, or runs the loop on
    them. *)
Lemma ValidateGameVersions_unfold E P w :
  (∃ e evs,
     ValidateGameVersions E P w = (Err e, append_trace evs w) ∧
     Forall (λ ev, manifest_fetch ev = true) evs ∧
     ¬ (∃ conf sl mh hd,
          config_read E = Ok conf ∧
          manifest_at E "current/manifest.json" sl ∧
          manifest_at E "maphack/manifest.json" mh ∧
          manifest_at E "hd/manifest.json" hd)) ∨
  (∃ conf sl mh hd,
     config_read E = Ok conf ∧
     manifest_at E "current/manifest.json" sl ∧
     manifest_at E "maphack/manifest.json" mh ∧
     manifest_at E "hd/manifest.json" hd ∧
     ValidateGameVersions E P w =
       ValidateGameVersions_loop E P sl mh hd (Games conf) (manifests_fetched w)).
Proof.
  destruct (ValidateGameVersions E P w) as [r0 w0] eqn:Hrun.
  unfold ValidateGameVersions, lift in Hrun. unfold bind at 1 in Hrun.
  destruct (config_read E) as [conf|e] eqn:Hconf.
  2: { left. exists e, []. unfold append_trace. rewrite world_eta.
       split; [done|]. split; [by constructor|]. by intros (? & ? & ? & ? & ? & _). }
  unfold bind at 1 in Hrun.
  destruct (getManifest_eq E "current/manifest.json" w) as (r1 & Hr1 & H1).
  rewrite Hr1 in Hrun. clear Hr1.
  destruct r1 as [sl|e].
  2: { left. exists e, [EvFetch "current/manifest.json"]. split; [done|].
       split; [by repeat constructor|]. intros (? & sl & ? & ? & _ & Hm & _).
       by apply H1 in Hm. }
  unfold bind at 1 in Hrun.
  match type of Hrun with context [getManifest E "maphack/manifest.json" ?w1] =>
    destruct (getManifest_eq E "maphack/manifest.json" w1) as (r2 & Hr2 & H2) end.
  rewrite Hr2 in Hrun. clear Hr2.
  cbn [disk runningGames trace] in Hrun. rewrite <- (assoc_L (++)) in Hrun.
  cbn [app] in Hrun.
  destruct r2 as [mh|e].
  2: { left. exists e, [EvFetch "current/manifest.json"; EvFetch "maphack/manifest.json"].
       split; [done|]. split; [by repeat constructor|].
       intros (? & ? & mh & ? & _ & _ & Hm & _). by apply H2 in Hm. }
  unfold bind at 1 in Hrun.
  match type of Hrun with context [getManifest E "hd/manifest.json" ?w1] =>
    destruct (getManifest_eq E "hd/manifest.json" w1) as (r3 & Hr3 & H3) end.
  rewrite Hr3 in Hrun. clear Hr3.
  cbn [disk runningGames trace] in Hrun. rewrite <- (assoc_L (++)) in Hrun.
  cbn [app] in Hrun.
  destruct r3 as [hd|e].
  2: { left. exists e, [EvFetch "current/manifest.json"; EvFetch "maphack/manifest.json";
                        EvFetch "hd/manifest.json"].
       split; [done|]. split; [by repeat constructor|].
       intros (? & ? & ? & hd & _ & _ & _ & Hm). by apply H3 in Hm. }
  right. exists conf, sl, mh, hd.
  split; [done|]. split; [by apply H1|]. split; [by apply H2|]. split; [by apply H3|].
  by rewrite <- Hrun.
Qed.

(** C7, as the code has it.  [ValidateGameVersions] changes no install
    directory and fetches nothing but the three manifests.  It returns
    [true] only if every configured install passes [validate113cVersion],
    matches the core manifest exactly, matches the manifest of each enabled
    optional layer (a [BH.cfg] the user overrides excepted) and lacks the
    marker file of each disabled one; the manifest of the base layer is not
    consulted.  It returns [false] at the first install whose check says
    so, and, when no check is made to fail, returns [false] as soon as one
    install is not valid in this sense. *)
Theorem ValidateGameVersions_sound E P (w : world) :
  let r := (ValidateGameVersions E P w).1 in
  let w' := (ValidateGameVersions E P w).2 in
  (∃ evs, w' = append_trace evs w ∧ Forall (λ ev, manifest_fetch ev = true) evs) ∧
  (r = Ok true →
   ∃ conf sl mh hd,
     config_read E = Ok conf ∧
     manifest_at E "current/manifest.json" sl ∧
     manifest_at E "maphack/manifest.json" mh ∧
     manifest_at E "hd/manifest.json" hd ∧
     Forall (game_valid E P w sl mh hd) (Games conf)) ∧
  (∀ conf sl mh hd,
     config_read E = Ok conf →
     manifest_at E "current/manifest.json" sl →
     manifest_at E "maphack/manifest.json" mh →
     manifest_at E "hd/manifest.json" hd →
     (∀ pre g post,
        Games conf = pre ++ g :: post →
        Forall (λ g', (validateGame E P sl mh hd g' (manifests_fetched w)).1 = Ok true)
          pre →
        (validateGame E P sl mh hd g (manifests_fetched w)).1 = Ok false →
        r = Ok false ∧ ¬ game_valid E P w sl mh hd g) ∧
     (checks_unhindered E P w (Games conf) →
      (Forall (game_valid E P w sl mh hd) (Games conf) → r = Ok true) ∧
      (¬ Forall (game_valid E P w sl mh hd) (Games conf) → r = Ok false))).
Proof.
  cbn zeta.
  assert (manifests_fetched w = append_trace
            [EvFetch "current/manifest.json"; EvFetch "maphack/manifest.json";
             EvFetch "hd/manifest.json"] w) as Hfetched by done.
  assert (disk w = disk (manifests_fetched w)) as Hdisk by done.
  destruct (ValidateGameVersions_unfold E P w)
    as [(e & evs & Hrun & Hevs & Hnot)|(conf & sl & mh & hd & Hconf & Hsl & Hmh & Hhd & Hrun)].
  { rewrite Hrun. cbn [fst snd]. split; [by exists evs|]. split; [done|].
    intros conf sl mh hd ? ? ? ?. exfalso. apply Hnot. by exists conf, sl, mh, hd. }
  rewrite Hrun.
  destruct (ValidateGameVersions_loop E P sl mh hd (Games conf) (manifests_fetched w))
    as [r w'] eqn:Hloop.
  pose proof (ValidateGameVersions_loop_cases _ _ _ _ _ _ _ _ _ Hloop)
    as (-> & Htrue & Hfalse).
  cbn [fst snd]. split; [|split].
  - eexists. split; [exact Hfetched|]. by repeat constructor.
  - intros Hr. exists conf, sl, mh, hd. repeat (split; [done|]).
    eapply Forall_impl; [exact (Htrue Hr)|].
    intros g. by apply game_valid_disk.
  - intros conf' sl' mh' hd' Hconf' Hsl' Hmh' Hhd'.
    assert (conf' = conf) as -> by congruence.
    rewrite (manifest_at_functional _ _ _ _ Hsl' Hsl),
            (manifest_at_functional _ _ _ _ Hmh' Hmh),
            (manifest_at_functional _ _ _ _ Hhd' Hhd).
    split.
    + intros pre g post Hgames Hpre Hg.
      rewrite Hgames, (ValidateGameVersions_loop_first _ _ _ _ _ _ _ _ _ Hpre Hg) in Hloop.
      injection Hloop as <-. split; [done|].
      destruct (validateGame E P sl mh hd g (manifests_fetched w)) as [rg wg] eqn:Hrun'.
      apply validateGame_cases in Hrun' as (_ & _ & Hno). cbn in Hg.
      intros Hvalid. apply (Hno Hg). by apply (game_valid_disk E P w).
    + intros Hfree.
      destruct (ValidateGameVersions_loop_unhindered E P sl mh hd (Games conf)
                  (manifests_fetched w)) as [b Hb].
      { destruct Hfree as (? & ? & ?). by repeat split. }
      rewrite Hb in Hloop. injection Hloop as <-.
      assert (∀ g, game_valid E P (manifests_fetched w) sl mh hd g →
                   game_valid E P w sl mh hd g) as Hback.
      { intros g. by apply game_valid_disk. }
      assert (∀ g, game_valid E P w sl mh hd g →
                   game_valid E P (manifests_fetched w) sl mh hd g) as Hforth.
      { intros g. by apply game_valid_disk. }
      destruct b.
      * split; [done|]. intros Hno. exfalso. apply Hno.
        eapply Forall_impl; [exact (Htrue eq_refl)|]. exact Hback.
      * split; [|done]. intros Hall. exfalso. apply (Hfalse eq_refl).
        eapply Forall_impl; [exact Hall|]. exact Hforth.
Qed.

Lemma ValidateGameVersions_sound_witness :
  ∃ conf sl mh hd,
    config_read Sample.E = Ok conf ∧
    manifest_at Sample.E "current/manifest.json" sl ∧
    manifest_at Sample.E "maphack/manifest.json" mh ∧
    manifest_at Sample.E "hd/manifest.json" hd ∧
    Forall (game_valid Sample.E darwin Sample.w_current sl mh hd) (Games conf).
Proof.
  destruct (ValidateGameVersions_sound Sample.E darwin Sample.w_current)
    as (_ & H & _).
  apply H. vm_compute. reflexivity.
Defined.

(** The code returns [true] for an install whose base layer does not
    match the base manifest. *)
Lemma ValidateGameVersions_base_counterexample :
  (ValidateGameVersions Sample.E darwin Sample.w_current).1 = Ok true ∧
  manifest_at Sample.E "1.13c/manifest.json" (mkManifest [Sample.game_exe]) ∧
  ¬ Forall (up_to_date Sample.E Sample.w_current "/d2") [Sample.game_exe].
Proof.
  split; [vm_compute; reflexivity|]. split.
  - split; [done|]. split; [done|]. exists "base". split; vm_compute; reflexivity.
  - intros Hall. apply Forall_cons in Hall as [Hup _].
    vm_compute in Hup. discriminate Hup.
Qed.

(** ** Launching *)

Lemma runningCount_foldl id running a :
  foldl (λ n r, if bool_decide (id = GameID r) then Int64.add n 1 else n)
    (Int64.wrap a) running
  = Int64.wrap (a + Z.of_nat (tracked id running)).
Proof.
  revert a. induction running as [|r running IH]; intros a.
  { cbn. f_equal. lia. }
  unfold tracked. cbn [foldl List.filter].
  destruct (decide (id = GameID r)) as [Heq|Hne].
  - rewrite (bool_decide_eq_true_2 (id = GameID r)) by done.
    rewrite (bool_decide_eq_true_2 (GameID r = id)) by done.
    unfold Int64.add. rewrite Int64_wrap_add_l, IH. cbn [length].
    f_equal. unfold tracked. lia.
  - rewrite (bool_decide_eq_false_2 (id = GameID r)) by done.
    rewrite (bool_decide_eq_false_2 (GameID r = id)) by (intros ?; by apply Hne).
    apply IH.
Qed.

Lemma tracked_le id running : tracked id running ≤ length running.
Proof. apply List.filter_length_le. Qed.

(** The count is the number of tracked instances of the install. *)
Lemma runningCount_tracked id running :
  (Z.of_nat (length running) < 2 ^ 63)%Z →
  runningCount id running = Z.of_nat (tracked id running).
Proof.
  intros Hlen. unfold runningCount. change 0%Z with (Int64.wrap 0) at 1.
  rewrite runningCount_foldl. apply Int64_wrap_in_range.
  pose proof (tracked_le id running). unfold Int64.in_range. lia.
Qed.

Lemma mutated_to_launch running g :
  (0 ≤ Instances g < 2 ^ 63)%Z →
  (Z.of_nat (length running) < 2 ^ 63)%Z →
  Z.to_nat (Instances (mutated running g)) = to_launch running g.
Proof.
  intros Hg Hlen. unfold mutated, to_launch. cbn [Instances].
  rewrite runningCount_tracked by done. unfold Int64.sub.
  rewrite Int64_wrap_in_range; [done|].
  pose proof (tracked_le (ID g) running). unfold Int64.in_range. lia.
Qed.

Lemma mutateInstancesToLaunch_eq games w :
  mutateInstancesToLaunch games w =
  (Ok (mutated (runningGames w) <$> games),
   append_trace (replicate (length games) EvReadGames) w).
Proof.
  revert w. induction games as [|g games IH]; intros w.
  { unfold append_trace. cbn. by rewrite world_eta. }
  cbn [mutateInstancesToLaunch]. unfold bind at 1, readGames, bind at 1, emit.
  unfold bind at 1. rewrite IH. unfold ret, append_trace. cbn.
  by rewrite <- (assoc_L (++)).
Qed.

Lemma launches_app evs1 evs2 : launches (evs1 ++ evs2) = launches evs1 ++ launches evs2.
Proof. apply omap_app. Qed.

(** The inner loop starts [n] processes and tracks each of them. *)
Lemma Exec_instances_ok P g n w :
  launch_succeeds P →
  ∃ evs started,
    Exec_instances P g n w =
      (Ok tt, mkWorld (disk w) (runningGames w ++ started) (trace w ++ evs)) ∧
    launches evs = replicate n (Location g, Flags g) ∧
    GameID <$> started = replicate n (ID g).
Proof.
  intros Hlaunch. revert w. induction n as [|n IH]; intros w.
  { exists [], []. rewrite !app_nil_r. by destruct w. }
  cbn [Exec_instances]. unfold bind at 1, emit. unfold bind at 1, do_launch.
  match goal with |- context [launch P ?w1 _ _] =>
    destruct (Hlaunch w1 (Location g) (Flags g)) as [p ->] end.
  cbn [disk runningGames trace].
  unfold bind at 1, readGames, bind at 1, emit. cbn [disk runningGames trace].
  unfold bind at 1, writeGames, bind at 1, emit. cbn [disk runningGames trace].
  match goal with |- context [Exec_instances P g n ?w1] =>
    destruct (IH w1) as (evs & started & -> & Hevs & Hstarted) end.
  cbn [disk runningGames trace].
  exists ([EvSleep; EvLaunch (Location g) (Flags g) p; EvReadGames; EvWriteGames] ++ evs),
         (mkgame p (ID g) :: started).
  split; [|split].
  - f_equal. f_equal.
    + by rewrite <- (assoc_L (++)).
    + by rewrite <- !(assoc_L (++)).
  - rewrite launches_app, Hevs. done.
  - rewrite fmap_cons, Hstarted. done.
Qed.

(** The outer loop does so for every install, in configuration order. *)
Lemma Exec_games_ok P games w :
  launch_succeeds P →
  ∃ evs started,
    Exec_games P games w =
      (Ok tt, mkWorld (disk w) (runningGames w ++ started) (trace w ++ evs)) ∧
    launches evs
      = flat_map (λ g, replicate (Z.to_nat (Instances g)) (Location g, Flags g)) games ∧
    GameID <$> started
      = flat_map (λ g, replicate (Z.to_nat (Instances g)) (ID g)) games.
Proof.
  intros Hlaunch. revert w. induction games as [|g games IH]; intros w.
  { exists [], []. rewrite !app_nil_r. by destruct w. }
  cbn [Exec_games flat_map]. unfold bind at 1.
  destruct (Exec_instances_ok P g (Z.to_nat (Instances g)) w Hlaunch)
    as (evs1 & started1 & -> & Hevs1 & Hstarted1).
  match goal with |- context [Exec_games P games ?w1] =>
    destruct (IH w1) as (evs2 & started2 & -> & Hevs2 & Hstarted2) end.
  cbn [disk runningGames trace].
  exists (evs1 ++ evs2), (started1 ++ started2). split; [|split].
  - by rewrite !(assoc_L (++)).
  - by rewrite launches_app, Hevs1, Hevs2.
  - by rewrite fmap_app, Hstarted1, Hstarted2.
Qed.

Lemma launches_reads n : launches (replicate n EvReadGames) = [].
Proof. induction n as [|n IH]; [done|]. cbn [replicate]. exact IH. Qed.

Lemma flat_map_mutated {A} (running : list game) (games : list Game) (f : Game → A) :
  (∀ g, f (mutated running g) = f g) →
  Forall (λ g, 0 ≤ Instances g < 2 ^ 63)%Z games →
  (Z.of_nat (length running) < 2 ^ 63)%Z →
  flat_map (λ g, replicate (Z.to_nat (Instances g)) (f g)) (mutated running <$> games)
  = flat_map (λ g, replicate (to_launch running g) (f g)) games.
Proof.
  intros Hf Hgames Hlen. induction Hgames as [|g games Hg _ IH]; [done|].
  rewrite fmap_cons. cbn [flat_map].
  by rewrite IH, Hf, mutated_to_launch.
Qed.

Lemma Exec_eq E P w conf :
  config_read E = Ok conf →
  launch_succeeds P →
  ∃ evs started,
    Exec E P w = (Ok tt, mkWorld (disk w) (runningGames w ++ started) (trace w ++ evs)) ∧
    launches evs
      = flat_map (λ g, replicate (Z.to_nat (Instances g)) (Location g, Flags g))
          (mutated (runningGames w) <$> Games conf) ∧
    GameID <$> started
      = flat_map (λ g, replicate (Z.to_nat (Instances g)) (ID g))
          (mutated (runningGames w) <$> Games conf).
Proof.
  intros Hconf Hlaunch.
  unfold Exec, lift. unfold bind at 1. rewrite Hconf.
  unfold bind at 1. rewrite mutateInstancesToLaunch_eq.
  match goal with |- context [Exec_games P ?gs ?w1] =>
    destruct (Exec_games_ok P gs w1 Hlaunch) as (evs & started & -> & Hevs & Hstarted)
  end.
  cbn [disk runningGames trace append_trace].
  exists (replicate (length (Games conf)) EvReadGames ++ evs), started.
  split; [by rewrite (assoc_L (++))|]. split; [|done].
  by rewrite launches_app, launches_reads, Hevs.
Qed.

(** C8.  When the configuration lists the installs [Games conf], each
    with a desired count that is a non-negative [int], and [launch] does
    not fail, [Exec] succeeds and starts, for each install in turn,
    exactly as many processes as its desired count exceeds the number of
    tracked instances with its id (none if it does not), and tracks each
    of them under that id. *)
Theorem Exec_launches E P (w : world) (conf : Config) :
  config_read E = Ok conf →
  Forall (λ g, 0 ≤ Instances g < 2 ^ 63)%Z (Games conf) →
  (Z.of_nat (length (runningGames w)) < 2 ^ 63)%Z →
  launch_succeeds P →
  (Exec E P w).1 = Ok tt ∧
  ∃ evs started,
    trace (Exec E P w).2 = trace w ++ evs ∧
    runningGames (Exec E P w).2 = runningGames w ++ started ∧
    launches evs
      = flat_map (λ g, replicate (to_launch (runningGames w) g) (Location g, Flags g))
          (Games conf) ∧
    GameID <$> started
      = flat_map (λ g, replicate (to_launch (runningGames w) g) (ID g)) (Games conf).
Proof.
  intros Hconf Hgames Hlen Hlaunch.
  destruct (Exec_eq E P w conf Hconf Hlaunch) as (evs & started & -> & Hevs & Hstarted).
  cbn [fst snd disk runningGames trace]. split; [done|].
  exists evs, started. split; [done|]. split; [done|]. split.
  - rewrite Hevs. by apply (flat_map_mutated _ _ (λ g, (Location g, Flags g))).
  - rewrite Hstarted. by apply (flat_map_mutated _ _ ID).
Qed.

Lemma Exec_launches_witness :
  (Exec Sample.E darwin Sample.w_two_running).1 = Ok tt ∧
  launches (trace (Exec Sample.E darwin Sample.w_two_running).2) = [("/d2", ["-w"])] ∧
  length (runningGames (Exec Sample.E darwin Sample.w_two_running).2) = 3.
Proof.
  destruct (Exec_launches Sample.E darwin Sample.w_two_running
              (mkConfig [Sample.install]))
    as (Hr & evs & started & Htrace & Hrunning & Hevs & Hstarted).
  - reflexivity.
  - repeat constructor; cbn; lia.
  - cbn. lia.
  - intros w location flags. by exists 1%Z.
  - split; [exact Hr|]. rewrite Htrace, Hrunning. cbn [trace Sample.w_two_running app].
    rewrite Hevs. split; [vm_compute; reflexivity|].
    rewrite length_app, <- (length_fmap GameID started), Hstarted.
    vm_compute. reflexivity.
Defined.

(** ** The exit listener *)

(** Iterations over cells that do not match leave everything as it is. *)
Lemma remove_loop_skip p m k index arr len evs :
  (∀ i g, index ≤ i < index + m → arr !! i = Some g → pid_matches p g = false) →
  index + m ≤ length arr →
  remove_loop p (m + k) index arr len evs = remove_loop p k (index + m) arr len evs.
Proof.
  revert index. induction m as [|m IH]; intros index Hno Hlen.
  { by rewrite Nat.add_0_r. }
  cbn [Nat.add remove_loop].
  destruct (arr !! index) as [g|] eqn:Hg.
  2: { apply lookup_ge_None in Hg. lia. }
  rewrite (Hno index g) by (done || lia).
  rewrite IH.
  - f_equal. lia.
  - intros i g' Hi. apply Hno. lia.
  - lia.
Qed.

Lemma pid_matches_false p g : PID g ≠ p → pid_matches (Some p) g = false.
Proof. intros Hne. cbn. by apply bool_decide_eq_false_2. Qed.

(** A notification without process identifier removes nothing. *)
Lemma removeExited_nil_pid games :
  removeExited None games = Some (games, removal_accesses 0).
Proof.
  unfold removeExited.
  rewrite <- (Nat.add_0_r (length games)) at 1.
  rewrite remove_loop_skip; [|done|lia].
  cbn [remove_loop]. by rewrite firstn_all.
Qed.

(** A process identifier that is not tracked removes nothing. *)
Lemma removeExited_no_match p games :
  Forall (λ g, PID g ≠ p) games →
  removeExited (Some p) games = Some (games, removal_accesses 0).
Proof.
  intros Hno. unfold removeExited.
  rewrite <- (Nat.add_0_r (length games)) at 1.
  rewrite remove_loop_skip; [| |lia].
  - cbn [remove_loop]. by rewrite firstn_all.
  - intros i g _ Hg. apply pid_matches_false.
    rewrite Forall_forall in Hno. apply Hno. by eapply list_elem_of_lookup_2.
Qed.

(** When exactly one tracked instance has the process identifier, that
    entry is removed and the others stay, in their order. *)
Lemma removeExited_unique p l1 g l2 :
  PID g = p →
  Forall (λ g', PID g' ≠ p) l1 →
  Forall (λ g', PID g' ≠ p) l2 →
  removeExited (Some p) (l1 ++ g :: l2) = Some (l1 ++ l2, removal_accesses 1).
Proof.
  intros Hg Hl1 Hl2. unfold removeExited.
  rewrite length_app. cbn [length].
  rewrite (remove_loop_skip (Some p) (length l1) (S (length l2)) 0).
  2: { intros i g' [_ Hi] Hlook. rewrite lookup_app_l in Hlook by done.
       apply pid_matches_false. rewrite Forall_forall in Hl1.
       apply Hl1. by eapply list_elem_of_lookup_2. }
  2: { rewrite length_app. lia. }
  cbn [Nat.add remove_loop].
  rewrite list_lookup_middle by done.
  assert (pid_matches (Some p) g = true) as -> by (by apply bool_decide_eq_true_2).
  unfold remove_at. rewrite decide_True by lia.
  rewrite take_app_length.
  replace (length l1 + S (length l2) - (length l1 + 1)) with (length l2) by lia.
  replace (length l1 + 1) with (length (l1 ++ [g])) by (rewrite length_app; cbn; lia).
  replace (l1 ++ g :: l2) with ((l1 ++ [g]) ++ l2)
    by (by rewrite <- (assoc_L (++))).
  rewrite drop_app_length, firstn_all.
  replace (length l1 + S (length l2) - 1) with (length l1 + length l2) by lia.
  set (arr' := l1 ++ l2 ++ drop (length l1 + length l2) ((l1 ++ [g]) ++ l2)).
  assert (length arr' = length l1 + S (length l2)) as Hlen'.
  { unfold arr'. rewrite !length_app, length_drop, !length_app. cbn. lia. }
  assert (take (length l1 + length l2) arr' = l1 ++ l2) as Htake.
  { unfold arr'. rewrite (assoc_L (++)).
    rewrite <- (length_app l1 l2). apply take_app_length. }
  assert (∀ evs, remove_loop (Some p) (length l2) (S (length l1)) arr'
                   (length l1 + length l2) evs
                 = Some (arr', length l1 + length l2, evs)) as ->;
    [|by rewrite Htake].
  intros evs.
  clear Htake. destruct l2 as [|y l2 _] using rev_ind; [done|].
  rewrite <- (Nat.add_0_r (length (l2 ++ [y]))) at 1.
  rewrite remove_loop_skip; [done| |rewrite Hlen'; lia].
  intros i g' [Hlo Hhi] Hlook. apply pid_matches_false.
  rewrite Forall_forall in Hl2. apply Hl2.
  unfold arr' in Hlook.
  rewrite lookup_app_r in Hlook by lia.
  assert (drop (length l1 + length (l2 ++ [y])) ((l1 ++ [g]) ++ l2 ++ [y]) = [y])
    as Hdrop.
  { rewrite (assoc_L (++) _ l2 [y]).
    replace (length l1 + length (l2 ++ [y])) with (length ((l1 ++ [g]) ++ l2))
      by (rewrite !length_app; cbn; lia).
    by rewrite drop_app_length. }
  rewrite Hdrop in Hlook.
  apply list_elem_of_lookup_2 in Hlook.
  apply elem_of_app in Hlook as [?|Hy]; [done|].
  apply list_elem_of_singleton in Hy as ->.
  apply elem_of_app. right. apply list_elem_of_here.
Qed.

(** The loop never lengthens the slice, and it makes the three accesses
    of a removal once for each entry by which the slice gets shorter. *)
Lemma remove_loop_accesses p k index arr len evs arr' len' evs' :
  len ≤ length arr →
  remove_loop p k index arr len evs = Some (arr', len', evs') →
  length arr' = length arr ∧ len' ≤ len ∧
  evs' = evs ++ concat (replicate (len - len') [EvReadGames; EvReadGames; EvWriteGames]).
Proof.
  revert index arr len evs. induction k as [|k IH]; intros index arr len evs Hbound.
  { intros [= <- <- <-]. rewrite Nat.sub_diag. cbn. by rewrite app_nil_r. }
  cbn [remove_loop]. destruct (arr !! index) as [g|] eqn:Hg.
  2: { intros [= <- <- <-]. rewrite Nat.sub_diag. cbn. by rewrite app_nil_r. }
  destruct (pid_matches p g); [|by apply IH].
  unfold remove_at. destruct (decide (index + 1 ≤ len)) as [Hle|]; [|done].
  apply lookup_lt_Some in Hg.
  assert (length (take index arr ++ take (len - (index + 1)) (drop (index + 1) arr)
                    ++ drop (len - 1) arr) = length arr) as Hlen.
  { rewrite !length_app, !length_take, !length_drop. lia. }
  intros Hrest. apply IH in Hrest as (Hlen' & Hle' & ->); [|rewrite Hlen; lia].
  split; [congruence|]. split; [lia|].
  replace (len - len') with (S (len - 1 - len')) by lia.
  cbn [replicate concat]. by rewrite <- (assoc_L (++)).
Qed.

Lemma removeExited_accesses p games games' evs :
  removeExited p games = Some (games', evs) →
  length games' ≤ length games ∧
  evs = removal_accesses (length games - length games').
Proof.
  unfold removeExited.
  destruct (remove_loop p (length games) 0 games (length games) [EvReadGames])
    as [[[arr len] evs']|] eqn:Hloop; [|done].
  intros [= <- <-]. apply remove_loop_accesses in Hloop as (Hlen & Hle & ->); [|done].
  rewrite length_take, Hlen.
  replace (len `min` length games) with len by lia. done.
Qed.

Lemma lock_disciplined_accesses n rest :
  lock_disciplined true (removal_accesses n ++ rest) = lock_disciplined true rest.
Proof.
  unfold removal_accesses. cbn [app lock_disciplined andb].
  induction n as [|n IH]; [done|].
  cbn [replicate concat]. rewrite <- !(assoc_L (++)). cbn [app lock_disciplined andb].
  exact IH.
Qed.

(** The handling of one notification: the disk is untouched, the running
    games become what the loop leaves, and the trace grows by the log
    entry of the notification's error, if it has one, and by the accesses
    of the loop between [Lock] and [Unlock]. *)
Lemma handleGameState_frame state w w' :
  handleGameState state w = Some w' →
  disk w' = disk w ∧
  (∃ evs, removeExited (pid state) (runningGames w) = Some (runningGames w', evs)) ∧
  trace w' = trace w
    ++ match err state with
       | Some e => [EvLog ("Diablo II exec with code: " +:+ Error e)]
       | None => []
       end
    ++ [EvLock]
    ++ removal_accesses (length (runningGames w) - length (runningGames w'))
    ++ [EvUnlock].
Proof.
  unfold handleGameState.
  set (w1 := match err state with
             | Some e => append_trace [EvLog ("Diablo II exec with code: " +:+ Error e)] w
             | None => w
             end).
  assert (disk w1 = disk w ∧ runningGames w1 = runningGames w ∧
          trace w1 = trace w ++ match err state with
                                | Some e => [EvLog ("Diablo II exec with code: " +:+ Error e)]
                                | None => []
                                end) as (Hd & Hg & Ht).
  { unfold w1. destruct (err state); [done|]. by rewrite app_nil_r. }
  rewrite Hg.
  destruct (removeExited (pid state) (runningGames w)) as [[games evs]|] eqn:Hrem; [|done].
  apply removeExited_accesses in Hrem as [_ ->].
  intros [= <-]. cbn [disk runningGames trace]. split; [done|]. split; [by eexists|].
  by rewrite Ht, <- !(assoc_L (++)).
Qed.

Lemma handleGameState_error_logged p e w :
  handleGameState (mkExecState p (Some e)) w =
  handleGameState (mkExecState p None)
    (append_trace [EvLog ("Diablo II exec with code: " +:+ Error e)] w).
Proof. reflexivity. Qed.

(** Whatever happens afterwards, [Exec] starts by reading
    [s.runningGames] for the first configured install, and it has not
    taken the lock. *)
Lemma Exec_instances_trace P g n w :
  ∃ evs, trace (Exec_instances P g n w).2 = trace w ++ evs.
Proof.
  revert w. induction n as [|n IH]; intros w.
  { exists []. by rewrite app_nil_r. }
  cbn [Exec_instances]. unfold bind at 1, emit. unfold bind at 1, do_launch.
  destruct (launch P _ _ _); [|by eexists].
  unfold bind at 1, readGames, bind at 1, emit. cbn [disk runningGames trace].
  unfold bind at 1, writeGames, bind at 1, emit. cbn [disk runningGames trace].
  match goal with |- context [Exec_instances P g n ?w1] =>
    destruct (IH w1) as [evs ->] end.
  cbn [trace]. rewrite <- !(assoc_L (++)). by eexists.
Qed.

Lemma Exec_games_trace P games w :
  ∃ evs, trace (Exec_games P games w).2 = trace w ++ evs.
Proof.
  revert w. induction games as [|g games IH]; intros w.
  { exists []. by rewrite app_nil_r. }
  cbn [Exec_games]. unfold bind at 1.
  destruct (Exec_instances_trace P g (Z.to_nat (Instances g)) w) as [evs1 H1].
  destruct (Exec_instances P g (Z.to_nat (Instances g)) w) as [[[]|e] w1];
    [|by eexists].
  destruct (IH w1) as [evs2 ->]. cbn [snd] in H1. rewrite H1, <- (assoc_L (++)).
  by eexists.
Qed.

Lemma Exec_reads_unlocked E P w conf :
  config_read E = Ok conf → Games conf ≠ [] →
  ∃ evs, trace (Exec E P w).2 = trace w ++ evs ∧ lock_disciplined false evs = false.
Proof.
  intros Hconf Hgames.
  unfold Exec, lift. unfold bind at 1. rewrite Hconf.
  unfold bind at 1. rewrite mutateInstancesToLaunch_eq.
  match goal with |- context [Exec_games P ?gs ?w1] =>
    destruct (Exec_games_trace P gs w1) as [evs ->] end.
  destruct (Games conf) as [|g games]; [done|].
  cbn [length replicate append_trace trace]. rewrite <- (assoc_L (++)).
  by eexists.
Qed.

(** C9.  [Exec] never takes the mutex: on the sample install with two
    tracked instances its trace reads and assigns [s.runningGames] and
    holds no [Lock], so it fails the lock discipline that the listener
    keeps. *)
Theorem Exec_accesses_unlocked :
  trace (Exec Sample.E darwin Sample.w_two_running).2
    = [EvReadGames; EvSleep; EvLaunch "/d2" ["-w"] 1; EvReadGames; EvWriteGames] ∧
  lock_disciplined false (trace (Exec Sample.E darwin Sample.w_two_running).2) = false.
Proof. vm_compute. split; reflexivity. Qed.

(** C10.  With two tracked instances under one process identifier the
    loop of the listener goes wrong: it leaves one of them in place when
    another entry follows, and panics on the slice expression when none
    does; so it does after [Exec] has started the three instances of the
    sample install, which the platform file gives the same identifier. *)
Theorem handleGameState_duplicate_pid :
  runningGames <$>
    handleGameState (mkExecState (Some 1%Z) None)
      (mkWorld ∅ [mkgame 1 "X"; mkgame 1 "X"; mkgame 2 "Y"] [])
    = Some [mkgame 1 "X"; mkgame 2 "Y"] ∧
  handleGameState (mkExecState (Some 1%Z) None)
    (mkWorld ∅ [mkgame 1 "X"; mkgame 1 "X"] []) = None ∧
  runningGames (Exec Sample.E darwin Sample.w_current).2
    = [mkgame 1 "X"; mkgame 1 "X"; mkgame 1 "X"] ∧
  listenForGameStates [mkExecState (Some 1%Z) None]
    (Exec Sample.E darwin Sample.w_current).2 = None.
Proof. vm_compute. repeat split. Qed.

(** * Further properties of the code *)

(** ** The exit listener, instance by instance *)

Lemma filter_all {A} (P : A → Prop) `{∀ x, Decision (P x)} (l : list A) :
  Forall P l → filter P l = l.
Proof.
  induction 1 as [|x l Hx _ IH]; [done|].
  by rewrite filter_cons_True, IH.
Qed.

Lemma filter_none {A} (P : A → Prop) `{∀ x, Decision (P x)} (l : list A) :
  Forall (λ x, ¬ P x) l → filter P l = [].
Proof.
  induction 1 as [|x l Hx _ IH]; [done|].
  by rewrite filter_cons_False.
Qed.

(** With distinct process identifiers the loop is a filter. *)
Lemma removeExited_filter statePid games :
  NoDup (PID <$> games) →
  ∃ evs, removeExited statePid games
         = Some (filter (λ g, Some (PID g) ≠ statePid) games, evs).
Proof.
  intros Hdup. destruct statePid as [p|].
  2: { rewrite removeExited_nil_pid, filter_all; [by eexists|].
       by apply Forall_forall. }
  destruct (decide (p ∈ PID <$> games)) as [Hin|Hnot].
  - apply list_elem_of_fmap in Hin as (g & -> & Hg).
    apply list_elem_of_split in Hg as (l1 & l2 & ->).
    rewrite fmap_app, fmap_cons in Hdup.
    apply NoDup_app in Hdup as (_ & Hl1 & Hl2%NoDup_cons).
    destruct Hl2 as [Hl2 _].
    assert (Forall (λ g', PID g' ≠ PID g) l1) as H1.
    { apply Forall_forall. intros g' Hg' Heq.
      apply (Hl1 (PID g')); [by apply list_elem_of_fmap_2|].
      rewrite Heq. apply list_elem_of_here. }
    assert (Forall (λ g', PID g' ≠ PID g) l2) as H2.
    { apply Forall_forall. intros g' Hg' Heq. apply Hl2.
      rewrite <- Heq. by apply list_elem_of_fmap_2. }
    rewrite removeExited_unique by done.
    rewrite filter_app, filter_cons_False by (intros Hne; by apply Hne).
    rewrite !filter_all; [by eexists|..].
    + eapply Forall_impl; [exact H2|]. intros g' Hne [= Heq]. by apply Hne.
    + eapply Forall_impl; [exact H1|]. intros g' Hne [= Heq]. by apply Hne.
  - assert (Forall (λ g, PID g ≠ p) games) as Hno.
    { apply Forall_forall. intros g Hg Heq. apply Hnot.
      rewrite <- Heq. by apply list_elem_of_fmap_2. }
    rewrite removeExited_no_match by done.
    rewrite filter_all; [by eexists|].
    eapply Forall_impl; [exact Hno|]. intros g Hne [= Heq]. by apply Hne.
Qed.

Lemma handleGameState_running state w games evs :
  removeExited (pid state) (runningGames w) = Some (games, evs) →
  ∃ w', handleGameState state w = Some w' ∧
        runningGames w' = games ∧ disk w' = disk w.
Proof.
  intros Hrem. unfold handleGameState.
  set (w1 := match err state with
             | Some e => append_trace [EvLog ("Diablo II exec with code: " +:+ Error e)] w
             | None => w
             end).
  assert (disk w1 = disk w ∧ runningGames w1 = runningGames w) as [Hd Hg].
  { unfold w1. by destruct (err state). }
  rewrite Hg, Hrem. by eexists.
Qed.

(** X1.  When exactly one tracked instance has the process identifier of
    the notification, handling it does not panic, removes that instance
    and keeps the others in their order; the disk is not touched. *)
Theorem handleGameState_single_match (state : execState) (w : world) (p : Z)
    (l1 l2 : list game) (g : game) :
  pid state = Some p →
  runningGames w = l1 ++ g :: l2 →
  PID g = p →
  Forall (λ g', PID g' ≠ p) l1 →
  Forall (λ g', PID g' ≠ p) l2 →
  ∃ w', handleGameState state w = Some w' ∧
        runningGames w' = l1 ++ l2 ∧ disk w' = disk w.
Proof.
  intros Hpid Hrun Hg Hl1 Hl2.
  apply (handleGameState_running _ _ _ (removal_accesses 1)).
  rewrite Hpid, Hrun. by apply removeExited_unique.
Qed.

Lemma handleGameState_single_match_witness :
  ∃ w', handleGameState (mkExecState (Some 4711%Z) None) Sample.w_two_running = Some w' ∧
        runningGames w' = [] ++ [mkgame 4712 "X"] ∧
        disk w' = disk Sample.w_two_running.
Proof.
  apply (handleGameState_single_match _ _ 4711%Z [] [mkgame 4712 "X"] (mkgame 4711 "X")).
  - reflexivity.
  - reflexivity.
  - reflexivity.
  - constructor.
  - repeat constructor. cbn. lia.
Defined.

(** X2.  A notification without process identifier, or with one that no
    tracked instance has, is handled without panic and leaves the tracked
    instances and the disk as they were. *)
Theorem handleGameState_untracked (state : execState) (w : world) :
  (∀ p, pid state = Some p → Forall (λ g, PID g ≠ p) (runningGames w)) →
  ∃ w', handleGameState state w = Some w' ∧
        runningGames w' = runningGames w ∧ disk w' = disk w.
Proof.
  intros Hno. apply (handleGameState_running _ _ _ (removal_accesses 0)).
  destruct (pid state) as [p|].
  - apply removeExited_no_match. by apply Hno.
  - apply removeExited_nil_pid.
Qed.

Lemma handleGameState_untracked_witness :
  ∃ w', handleGameState (mkExecState (Some 9%Z) (Some (ErrOther "exit status 1")))
          Sample.w_two_running = Some w' ∧
        runningGames w' = runningGames Sample.w_two_running ∧
        disk w' = disk Sample.w_two_running.
Proof.
  apply handleGameState_untracked.
  intros p [= <-]. repeat constructor; cbn; lia.
Defined.

(** X3.  Every handled notification reaches [s.runningGames] only while
    it holds the mutex, and assigns it once for each entry it removes: what
    the handling adds to the trace is the log entry of the notification's
    error, if it has one, then [Lock], the read of the range expression,
    for each entry by which the tracked instances get fewer the two reads
    and the assignment of a removal, and [Unlock]; this keeps the lock
    discipline, and the disk is not touched. *)
Theorem handleGameState_under_lock (state : execState) (w w' : world) :
  handleGameState state w = Some w' →
  trace w' = trace w
    ++ match err state with
       | Some e => [EvLog ("Diablo II exec with code: " +:+ Error e)]
       | None => []
       end
    ++ [EvLock]
    ++ removal_accesses (length (runningGames w) - length (runningGames w'))
    ++ [EvUnlock] ∧
  length (runningGames w') ≤ length (runningGames w) ∧
  lock_disciplined false (drop (length (trace w)) (trace w')) = true ∧
  disk w' = disk w.
Proof.
  intros Hrun.
  destruct (handleGameState_frame _ _ _ Hrun) as (Hdisk & [evs Hrem] & Htrace).
  apply removeExited_accesses in Hrem as [Hle _].
  split; [done|]. split; [done|]. split; [|done].
  rewrite Htrace, drop_app_length.
  destruct (err state); cbn [app lock_disciplined];
    by rewrite lock_disciplined_accesses.
Qed.

Lemma handleGameState_under_lock_witness :
  trace <$>
    handleGameState (mkExecState (Some 1%Z) (Some (ErrOther "exit status 1")))
      (mkWorld ∅ [mkgame 1 "X"; mkgame 2 "Y"; mkgame 1 "X"; mkgame 3 "Z"] [])
  = Some ([EvLog "Diablo II exec with code: exit status 1"; EvLock; EvReadGames;
           EvReadGames; EvReadGames; EvWriteGames;
           EvReadGames; EvReadGames; EvWriteGames; EvUnlock]).
Proof.
  destruct (handleGameState (mkExecState (Some 1%Z) (Some (ErrOther "exit status 1")))
              (mkWorld ∅ [mkgame 1 "X"; mkgame 2 "Y"; mkgame 1 "X"; mkgame 3 "Z"] []))
    as [w'|] eqn:Hrun.
  - destruct (handleGameState_under_lock _ _ _ Hrun) as (Htrace & _).
    cbn [fmap option_fmap option_map]. rewrite Htrace. f_equal.
    vm_compute in Hrun. injection Hrun as <-. reflexivity.
  - vm_compute in Hrun. discriminate Hrun.
Defined.

(** X4.  As long as the tracked instances have distinct process
    identifiers, the listener never panics, whatever notifications it
    receives, and what is left are exactly the instances whose identifier
    was not notified, in their order; the disk is not touched. *)
Theorem listenForGameStates_distinct_pids (states : list execState) (w : world) :
  NoDup (PID <$> runningGames w) →
  ∃ w', listenForGameStates states w = Some w' ∧
        runningGames w'
          = filter (λ g, Some (PID g) ∉ pid <$> states) (runningGames w) ∧
        disk w' = disk w.
Proof.
  revert w. induction states as [|state states IH]; intros w Hdup.
  { exists w. split; [done|]. split; [|done].
    rewrite filter_all; [done|]. apply Forall_forall. intros g _ Hin.
    by apply elem_of_nil in Hin. }
  cbn [listenForGameStates].
  destruct (removeExited_filter (pid state) _ Hdup) as [evs Hrem].
  destruct (handleGameState_running state w _ _ Hrem) as (w1 & -> & Hrun1 & Hdisk1).
  destruct (IH w1) as (w2 & -> & Hrun2 & Hdisk2).
  { rewrite Hrun1. eapply sublist_NoDup; [exact Hdup|].
    apply fmap_sublist. apply sublist_filter. }
  exists w2. split; [done|]. split; [|congruence].
  rewrite Hrun2, Hrun1, list_filter_filter. apply list_filter_iff.
  intros g. rewrite fmap_cons, not_elem_of_cons. split.
  - intros [? ?]. split; [done|done].
  - intros [? ?]. split; [done|done].
Qed.

Lemma listenForGameStates_distinct_pids_witness :
  ∃ w', listenForGameStates
          [mkExecState (Some 4712%Z) None; mkExecState None (Some (ErrOther "lost"));
           mkExecState (Some 4712%Z) None] Sample.w_two_running = Some w' ∧
        runningGames w'
          = filter (λ g, Some (PID g) ∉ [Some 4712%Z; None; Some 4712%Z])
              (runningGames Sample.w_two_running) ∧
        disk w' = disk Sample.w_two_running.
Proof.
  apply (listenForGameStates_distinct_pids
           [mkExecState (Some 4712%Z) None; mkExecState None (Some (ErrOther "lost"));
            mkExecState (Some 4712%Z) None] Sample.w_two_running).
  apply (bool_decide_unpack _). vm_compute. exact I.
Defined.

(** ** Launching, whatever the outcome *)

Lemma launched_pids_app evs1 evs2 :
  launched_pids (evs1 ++ evs2) = launched_pids evs1 ++ launched_pids evs2.
Proof. apply omap_app. Qed.

Lemma Exec_instances_tracks P g n w r w' :
  Exec_instances P g n w = (r, w') →
  ∃ evs started,
    w' = mkWorld (disk w) (runningGames w ++ started) (trace w ++ evs) ∧
    PID <$> started = launched_pids evs ∧
    Forall (λ r, GameID r = ID g) started ∧
    (∀ e, r = Err e → ∃ w0, launch P w0 (Location g) (Flags g) = Err e).
Proof.
  revert w. induction n as [|n IH]; intros w.
  { intros [= <- <-]. exists [], []. rewrite !app_nil_r.
    split; [by destruct w|]. by repeat split. }
  cbn [Exec_instances]. unfold bind at 1, emit. unfold bind at 1, do_launch.
  cbn [disk runningGames trace].
  destruct (launch P _ (Location g) (Flags g)) as [p|e0] eqn:Hlaunch.
  2: { intros [= <- <-]. exists [EvSleep], []. rewrite app_nil_r.
       split; [done|]. split; [done|]. split; [done|]. intros e [= <-]. eauto. }
  unfold bind at 1, readGames, bind at 1, emit. cbn [disk runningGames trace].
  unfold bind at 1, writeGames, bind at 1, emit. cbn [disk runningGames trace].
  intros Hrest. apply IH in Hrest as (evs & started & -> & Hpids & Hids & Herr).
  cbn [disk runningGames trace].
  exists ([EvSleep; EvLaunch (Location g) (Flags g) p; EvReadGames; EvWriteGames] ++ evs),
         (mkgame p (ID g) :: started).
  split; [|split; [|split]].
  - f_equal; by rewrite <- !(assoc_L (++)).
  - rewrite launched_pids_app, fmap_cons, Hpids. done.
  - by constructor.
  - exact Herr.
Qed.

Lemma Exec_games_tracks P games w r w' :
  Exec_games P games w = (r, w') →
  ∃ evs started,
    w' = mkWorld (disk w) (runningGames w ++ started) (trace w ++ evs) ∧
    PID <$> started = launched_pids evs ∧
    Forall (λ r, ∃ g, g ∈ games ∧ GameID r = ID g) started ∧
    (∀ e, r = Err e → ∃ w0 location flags, launch P w0 location flags = Err e).
Proof.
  revert w. induction games as [|g games IH]; intros w.
  { intros [= <- <-]. exists [], []. rewrite !app_nil_r.
    split; [by destruct w|]. by repeat split. }
  cbn [Exec_games]. unfold bind.
  destruct (Exec_instances P g (Z.to_nat (Instances g)) w) as [r1 w1] eqn:Hrun1.
  apply Exec_instances_tracks in Hrun1
    as (evs1 & started1 & -> & Hpids1 & Hids1 & Herr1).
  assert (Forall (λ r, ∃ g', g' ∈ g :: games ∧ GameID r = ID g') started1) as Hids1'.
  { eapply Forall_impl; [exact Hids1|]. intros r0 Hr. exists g.
    split; [apply list_elem_of_here|done]. }
  destruct r1 as [[]|e1].
  2: { intros [= <- <-]. exists evs1, started1. split; [done|]. split; [done|].
       split; [done|]. intros e He. destruct (Herr1 e He) as [w0 ?]. eauto. }
  intros Hrest. apply IH in Hrest as (evs2 & started2 & -> & Hpids2 & Hids2 & Herr2).
  cbn [disk runningGames trace].
  exists (evs1 ++ evs2), (started1 ++ started2). split; [|split; [|split]].
  - by rewrite !(assoc_L (++)).
  - by rewrite fmap_app, launched_pids_app, Hpids1, Hpids2.
  - apply Forall_app. split; [done|].
    eapply Forall_impl; [exact Hids2|]. intros r0 (g' & ? & ?). exists g'.
    split; [by apply elem_of_cons; right|done].
  - exact Herr2.
Qed.

Lemma launched_pids_reads n : launched_pids (replicate n EvReadGames) = [].
Proof. induction n as [|n IH]; [done|]. cbn [replicate]. exact IH. Qed.

(** X5.  Whatever the outcome of [Exec], every process it started is
    tracked: the instances it appended to [s.runningGames] carry, in
    order, the process identifiers of its launches and the id of a
    configured install; nothing tracked before is dropped and the disk is
    not touched.  It returns an error only if reading the configuration or
    a launch returned that error. *)
Theorem Exec_tracks_every_launch E P (w : world) :
  ∃ evs started,
    (Exec E P w).2 = mkWorld (disk w) (runningGames w ++ started) (trace w ++ evs) ∧
    PID <$> started = launched_pids evs ∧
    (∀ r, r ∈ started →
          ∃ conf g, config_read E = Ok conf ∧ g ∈ Games conf ∧ GameID r = ID g) ∧
    (∀ e, (Exec E P w).1 = Err e →
          config_read E = Err e ∨
          ∃ w0 location flags, launch P w0 location flags = Err e).
Proof.
  destruct (Exec E P w) as [r w'] eqn:Hrun. cbn [fst snd].
  unfold Exec, lift in Hrun. unfold bind at 1 in Hrun.
  destruct (config_read E) as [conf|e0] eqn:Hconf.
  2: { injection Hrun as <- <-. exists [], []. rewrite !app_nil_r.
       split; [by destruct w|]. split; [done|].
       split; [by intros r ?%elem_of_nil|]. intros e [= <-]. by left. }
  unfold bind at 1 in Hrun. rewrite mutateInstancesToLaunch_eq in Hrun.
  apply Exec_games_tracks in Hrun as (evs & started & -> & Hpids & Hids & Herr).
  cbn [disk runningGames trace append_trace].
  exists (replicate (length (Games conf)) EvReadGames ++ evs), started.
  split; [by rewrite (assoc_L (++))|]. split.
  { by rewrite launched_pids_app, launched_pids_reads. }
  split.
  - intros r0 Hr. rewrite Forall_forall in Hids.
    destruct (Hids r0 Hr) as (g' & (g & -> & Hg)%list_elem_of_fmap & Hid).
    exists conf, g. split; [done|]. split; [done|]. by rewrite Hid.
  - intros e He. right. by apply Herr.
Qed.

(** ** Clean-up and download, whatever the outcome *)

Lemma cleanUpFailedPatch_loop_effect E dir names w :
  ∃ removed,
    (cleanUpFailedPatch_loop E dir names w).2
      = after_removals (final_path dir <$> removed) w ∧
    Forall (λ n, GoString.contains n ".tmp" = true ∧ n ∈ names) removed.
Proof.
  revert w. induction names as [|n names IH]; intros w.
  { exists []. by rewrite after_removals_nil. }
  assert (∀ removed,
            Forall (λ m, GoString.contains m ".tmp" = true ∧ m ∈ names) removed →
            Forall (λ m, GoString.contains m ".tmp" = true ∧ m ∈ n :: names) removed)
    as Hweak.
  { intros removed Hrem. eapply Forall_impl; [exact Hrem|].
    intros m [? ?]. split; [done|]. by apply elem_of_cons; right. }
  cbn [cleanUpFailedPatch_loop]. fold (final_path dir n).
  destruct (GoString.contains n ".tmp") eqn:Htmp.
  2: { destruct (IH w) as (removed & ? & ?). exists removed. auto. }
  unfold bind, os_Remove, faulty, fail.
  destruct (fault E (SysRemove _)).
  { exists []. by rewrite after_removals_nil. }
  destruct (disk w !! final_path dir n).
  2: { exists []. by rewrite after_removals_nil. }
  match goal with |- context [cleanUpFailedPatch_loop E dir names ?w1] =>
    destruct (IH w1) as (removed & Hw & Hrem) end.
  exists (n :: removed). split.
  - rewrite Hw, fmap_cons. apply after_removals_cons.
  - constructor; [|by auto]. split; [done|]. apply list_elem_of_here.
Qed.

Lemma cleanUpFailedPatch_effect E (dir : string) (w : world) :
  ∃ removed,
    (cleanUpFailedPatch E dir w).2 = after_removals (final_path dir <$> removed) w ∧
    Forall (λ n, GoString.contains n ".tmp" = true ∧
                 GoString.contains n "/" = false ∧
                 is_Some (disk w !! final_path dir n)) removed ∧
    (∀ q, (∀ n, GoString.contains n ".tmp" = true → q ≠ final_path dir n) →
          disk (cleanUpFailedPatch E dir w).2 !! q = disk w !! q).
Proof.
  assert (∃ removed,
    (cleanUpFailedPatch E dir w).2 = after_removals (final_path dir <$> removed) w ∧
    Forall (λ n, GoString.contains n ".tmp" = true ∧
                 GoString.contains n "/" = false ∧
                 is_Some (disk w !! final_path dir n)) removed)
    as (removed & Hw & Hrem).
  { unfold cleanUpFailedPatch, bind, localizePath.
    pose proof (ioutil_ReadDir_elem E dir w) as Helem.
    pose proof (ioutil_ReadDir_world E dir w) as Hworld.
    destruct (ioutil_ReadDir E dir w) as [[names|e] w1]; cbn in Hworld; subst w1.
    2: { exists []. by rewrite after_removals_nil. }
    destruct (cleanUpFailedPatch_loop_effect E dir names w) as (removed & Hw & Hrem).
    exists removed. split; [done|].
    eapply Forall_impl; [exact Hrem|]. intros n [Htmp Hn].
    apply (Helem names n eq_refl) in Hn as (? & ? & ?). done. }
  exists removed. split; [done|]. split; [done|].
  intros q Hq. rewrite Hw. unfold after_removals. cbn [disk].
  apply lookup_foldl_delete. intros (n & -> & Hn)%list_elem_of_fmap.
  rewrite Forall_forall in Hrem. destruct (Hrem n Hn) as (Htmp & _).
  by apply (Hq n Htmp).
Qed.

(** X6.  [cleanUpFailedPatch] only ever removes top-level files of the
    directory that are on disk and whose name contains [.tmp]: whatever
    the outcome, the world afterwards is the one before with some such
    files removed, in the order of the trace; every other path, and so
    every final file of a plan whose name has no [.tmp] in it, is what it
    was. *)
Theorem cleanUpFailedPatch_frame E (dir : string) (w : world) :
  ∃ removed,
    (cleanUpFailedPatch E dir w).2 = after_removals (final_path dir <$> removed) w ∧
    Forall (λ n, GoString.contains n ".tmp" = true ∧
                 GoString.contains n "/" = false ∧
                 is_Some (disk w !! final_path dir n)) removed ∧
    (∀ q, (∀ n, GoString.contains n ".tmp" = true → q ≠ final_path dir n) →
          disk (cleanUpFailedPatch E dir w).2 !! q = disk w !! q).
Proof. apply cleanUpFailedPatch_effect. Qed.

(** X7.  When [cleanUpFailedPatch] returns without error, a top-level
    file of the directory is gone if its name contains [.tmp] anywhere,
    and is what it was if it does not; in particular the staged file of
    every top-level name is gone. *)
Theorem cleanUpFailedPatch_removes_by_substring E (dir : string) (w w' : world)
    (n : string) :
  cleanUpFailedPatch E dir w = (Ok tt, w') →
  n ≠ "" → GoString.contains n "/" = false →
  disk w' !! final_path dir n
    = (if GoString.contains n ".tmp" then None else disk w !! final_path dir n) ∧
  disk w' !! tmpPath dir n = None.
Proof.
  intros Hrun Hne Hslash. split.
  - by apply (cleanUpFailedPatch_on_success E).
  - by apply (cleanUpFailedPatch_staged E dir w).
Qed.

Lemma cleanUpFailedPatch_removes_by_substring_witness :
  disk (cleanUpFailedPatch Sample.E "/d2" Sample.w_interrupted).2
    !! final_path "/d2" "Game.exe"
    = (if GoString.contains "Game.exe" ".tmp" then None
       else disk Sample.w_interrupted !! final_path "/d2" "Game.exe") ∧
  disk (cleanUpFailedPatch Sample.E "/d2" Sample.w_interrupted).2
    !! tmpPath "/d2" "Game.exe" = None.
Proof.
  apply (cleanUpFailedPatch_removes_by_substring Sample.E "/d2" Sample.w_interrupted).
  - vm_compute. reflexivity.
  - discriminate.
  - vm_compute. reflexivity.
Defined.

(** X8.  [downloadFile] creates the local file before it asks for the
    remote one: when the fetch fails, the call returns the error and
    leaves an empty file at the path, whatever was there before. *)
Theorem downloadFile_fetch_failure E (fileName remoteDir path : string) (w : world) :
  fault E (SysCreate path) = None →
  fault E (SysGetFile (remoteDir +:+ "/" +:+ fileName)) ≠ None ∨
  remote E !! (remoteDir +:+ "/" +:+ fileName) = None →
  (∃ e, (downloadFile E fileName remoteDir path w).1 = Err e) ∧
  disk (downloadFile E fileName remoteDir path w).2 = <[path := ""]> (disk w).
Proof.
  intros Hcreate Hfetch.
  unfold downloadFile, bind, os_Create, GetFile, faulty, fail, emit, bind, ret.
  rewrite Hcreate.
  destruct (fault E (SysGetFile _)) as [msg|]; [by eauto|].
  destruct Hfetch as [?|Hnone]; [done|]. rewrite Hnone. by eauto.
Qed.

Lemma downloadFile_fetch_failure_witness :
  (∃ e, (downloadFile Sample.E "b.mpq" "current" "/d2/a.mpq.tmp"
           Sample.w_interrupted).1 = Err e) ∧
  disk (downloadFile Sample.E "b.mpq" "current" "/d2/a.mpq.tmp"
          Sample.w_interrupted).2
    = <["/d2/a.mpq.tmp" := ""]> (disk Sample.w_interrupted).
Proof.
  apply downloadFile_fetch_failure.
  - reflexivity.
  - right. vm_compute. reflexivity.
Defined.

(** ** A patch that goes through, file by file *)

Lemma tmpPath_as_final dir n : tmpPath dir n = final_path dir (n +:+ ".tmp").
Proof. reflexivity. Qed.

Lemma downloadFile_disk E fileName remoteDir path contents w :
  fault E (SysCreate path) = None →
  fault E (SysGetFile (remoteDir +:+ "/" +:+ fileName)) = None →
  fault E (SysCopy path) = None →
  remote E !! (remoteDir +:+ "/" +:+ fileName) = Some contents →
  ∃ w1, downloadFile E fileName remoteDir path w = (Ok tt, w1) ∧
        disk w1 !! path = Some contents.
Proof.
  intros Hcreate Hget Hcopy Hremote.
  unfold downloadFile, bind, os_Create, GetFile, io_Copy, faulty, emit, bind, ret.
  rewrite Hcreate, Hget, Hremote, Hcopy. eexists. split; [done|].
  cbn [disk]. apply lookup_insert_eq.
Qed.

(** After the first loop every staged file holds the remote contents. *)
Lemma doPatch_download_disk E patchFiles remoteDir dir tmpFiles w :
  patch_unhindered E patchFiles remoteDir →
  ∃ w1, doPatch_download E patchFiles remoteDir dir tmpFiles w
          = (Ok (tmpFiles ++ (tmpPath dir <$> patchFiles)), w1) ∧
        (∀ n, n ∈ patchFiles →
              disk w1 !! tmpPath dir n = remote E !! (remoteDir +:+ "/" +:+ n)) ∧
        (∀ q, q ∉ tmpPath dir <$> patchFiles → disk w1 !! q = disk w !! q).
Proof.
  intros (Hcreate & Hget & Hcopy & Hrename & Hremote).
  revert tmpFiles w. induction patchFiles as [|n patchFiles IH]; intros tmpFiles w.
  { exists w. rewrite app_nil_r. split; [done|]. split; [|done].
    by intros n ?%elem_of_nil. }
  pose proof (doPatch_download_effect E (n :: patchFiles) remoteDir dir tmpFiles w)
    as [(_ & _ & Hframe) _].
  cbn [doPatch_download] in *. unfold bind at 1 in Hframe. unfold bind at 1.
  destruct (Hremote n (list_elem_of_here _ _)) as [contents Hn].
  destruct (downloadFile_disk E n remoteDir (tmpPath dir n) contents w)
    as (w1 & Hrun & Hcontents); [done..|].
  rewrite Hrun in *.
  destruct (IH (λ n' Hn', Hremote n' (list_elem_of_further _ _ _ Hn'))
              (tmpFiles ++ [tmpPath dir n]) w1) as (w2 & Hrest & Hstaged & Hother).
  rewrite Hrest in *. cbn [snd] in Hframe.
  exists w2. rewrite fmap_cons, <- (assoc_L (++)). split; [done|]. split; [|done].
  intros n' [->|Hn']%elem_of_cons; [|by apply Hstaged].
  destruct (decide (n ∈ patchFiles)) as [Hin|Hnot]; [by apply Hstaged|].
  rewrite Hother, Hcontents; [done|].
  intros (m & Heq%tmpPath_inj & Hm)%list_elem_of_fmap. by subst.
Qed.

(** The second loop, for distinct and separate names whose staged files
    are on disk: every staged file becomes the final file. *)
Lemma doPatch_rename_disk E dir names w r w' :
  (∀ a b, fault E (SysRename a b) = None) →
  NoDup names → plan_separate names →
  (∀ n, n ∈ names → is_Some (disk w !! tmpPath dir n)) →
  doPatch_rename E (tmpPath dir <$> names) w = (r, w') →
  r = Ok tt ∧
  (∀ n, n ∈ names →
        disk w' !! final_path dir n = disk w !! tmpPath dir n ∧
        disk w' !! tmpPath dir n = None) ∧
  (∀ q, q ∉ tmpPath dir <$> names → q ∉ final_path dir <$> names →
        disk w' !! q = disk w !! q).
Proof.
  intros Hrename Hdup. revert w.
  induction Hdup as [|n names Hn Hdup IH]; intros w Hsep Hstaged.
  { intros [= <- <-]. split; [done|]. split; [|done]. by intros n ?%elem_of_nil. }
  rewrite fmap_cons. cbn [doPatch_rename]. rewrite tmpPath_strip.
  unfold bind, os_Rename, faulty. rewrite Hrename.
  destruct (Hstaged n (list_elem_of_here _ _)) as [contents Hcontents].
  rewrite Hcontents.
  set (w1 := mkWorld _ _ _).
  assert (plan_separate names) as Hsep'.
  { intros a b Ha Hb. apply Hsep; by apply elem_of_cons; right. }
  assert (final_path dir n ≠ tmpPath dir n) as Hself.
  { rewrite tmpPath_as_final. intros Heq%final_path_inj.
    by apply (Hsep n n); [apply list_elem_of_here..|]. }
  assert (∀ n', n' ∈ names →
            tmpPath dir n' ≠ tmpPath dir n ∧ tmpPath dir n' ≠ final_path dir n ∧
            final_path dir n' ≠ final_path dir n ∧ final_path dir n' ≠ tmpPath dir n)
    as Hapart.
  { intros n' Hn'. repeat split.
    - intros Heq%tmpPath_inj. by subst.
    - rewrite tmpPath_as_final. intros Heq%final_path_inj.
      apply (Hsep n n'); [apply list_elem_of_here|by apply elem_of_cons; right|done].
    - intros Heq%final_path_inj. by subst.
    - rewrite tmpPath_as_final. intros Heq%final_path_inj.
      apply (Hsep n' n); [by apply elem_of_cons; right|apply list_elem_of_here|done]. }
  assert (∀ q, q ≠ final_path dir n → q ≠ tmpPath dir n → disk w1 !! q = disk w !! q)
    as Hstep.
  { intros q Hq1 Hq2. unfold w1. cbn [disk].
    rewrite lookup_insert_ne by done. by apply lookup_delete_ne. }
  intros Hrest. apply IH in Hrest as (-> & Hnames & Hother); [|done|].
  2: { intros n' Hn'. destruct (Hapart n' Hn') as (? & ? & _).
       rewrite Hstep by done. apply Hstaged. by apply elem_of_cons; right. }
  split; [done|]. split.
  - intros n' [->|Hn']%elem_of_cons.
    + rewrite !Hother.
      * unfold w1. cbn [disk]. rewrite lookup_insert_eq, Hcontents.
        split; [done|]. rewrite lookup_insert_ne by done. apply lookup_delete_eq.
      * intros (m & Heq & Hm)%list_elem_of_fmap. by destruct (Hapart m Hm) as (? & _).
      * intros (m & Heq & Hm)%list_elem_of_fmap.
        by destruct (Hapart m Hm) as (_ & _ & _ & ?).
      * intros (m & Heq & Hm)%list_elem_of_fmap.
        by destruct (Hapart m Hm) as (_ & ? & _).
      * intros (m & Heq & Hm)%list_elem_of_fmap.
        by destruct (Hapart m Hm) as (_ & _ & ? & _).
    + destruct (Hnames n' Hn') as [-> ->]. destruct (Hapart n' Hn') as (? & ? & _).
      by rewrite Hstep.
  - intros q Hq1 Hq2. rewrite ?fmap_cons in Hq1. rewrite ?fmap_cons in Hq2.
    apply not_elem_of_cons in Hq1 as [? ?]. apply not_elem_of_cons in Hq2 as [? ?].
    rewrite Hother by done. by apply Hstep.
Qed.

Lemma doPatch_outcome E (patchFiles : list string) (patchLength : Z)
    (remoteDir dir : string) (w : world) :
  patch_unhindered E patchFiles remoteDir →
  NoDup patchFiles →
  plan_separate patchFiles →
  (doPatch E patchFiles patchLength remoteDir dir w).1 = Ok tt ∧
  (∀ n, n ∈ patchFiles →
        disk (doPatch E patchFiles patchLength remoteDir dir w).2 !! final_path dir n
          = remote E !! (remoteDir +:+ "/" +:+ n) ∧
        disk (doPatch E patchFiles patchLength remoteDir dir w).2 !! tmpPath dir n
          = None) ∧
  (∀ q, q ∉ tmpPath dir <$> patchFiles → q ∉ final_path dir <$> patchFiles →
        disk (doPatch E patchFiles patchLength remoteDir dir w).2 !! q = disk w !! q).
Proof.
  intros Hfree Hdup Hsep.
  destruct (doPatch E patchFiles patchLength remoteDir dir w) as [r w'] eqn:Hrun.
  cbn [fst snd]. unfold doPatch, bind at 1, emit in Hrun. unfold bind at 1 in Hrun.
  match type of Hrun with context [doPatch_download E _ _ _ [] ?w0] =>
    destruct (doPatch_download_disk E patchFiles remoteDir dir [] w0 Hfree)
      as (w1 & Hdown & Hstaged & Hother) end.
  rewrite Hdown in Hrun. cbn [app] in Hrun.
  apply doPatch_rename_disk in Hrun as (-> & Hnames & Hrest); [|by apply Hfree|done..|].
  2: { intros n Hn. rewrite (Hstaged n Hn).
       destruct Hfree as (_ & _ & _ & _ & Hremote). by apply Hremote. }
  split; [done|]. split.
  - intros n Hn. destruct (Hnames n Hn) as [-> ->]. by rewrite Hstaged.
  - intros q Hq1 Hq2. rewrite Hrest by done. by rewrite Hother.
Qed.

(** X9.  When no system call is made to fail, every planned file is in
    the repository, no file is planned twice and no planned name is
    another one followed by [.tmp], [doPatch] succeeds; afterwards every
    planned file holds the contents of its remote file under its final
    name, none of its staged files is left, and no other path has
    changed. *)
Theorem doPatch_installs E (patchFiles : list string) (patchLength : Z)
    (remoteDir dir : string) (w : world) :
  patch_unhindered E patchFiles remoteDir →
  NoDup patchFiles →
  plan_separate patchFiles →
  (doPatch E patchFiles patchLength remoteDir dir w).1 = Ok tt ∧
  (∀ n, n ∈ patchFiles →
        disk (doPatch E patchFiles patchLength remoteDir dir w).2 !! final_path dir n
          = remote E !! (remoteDir +:+ "/" +:+ n) ∧
        disk (doPatch E patchFiles patchLength remoteDir dir w).2 !! tmpPath dir n
          = None) ∧
  (∀ q, q ∉ tmpPath dir <$> patchFiles → q ∉ final_path dir <$> patchFiles →
        disk (doPatch E patchFiles patchLength remoteDir dir w).2 !! q = disk w !! q).
Proof. apply doPatch_outcome. Qed.

Lemma doPatch_installs_witness :
  (doPatch Sample.E ["a.mpq"] 1000 "current" "/d2" Sample.w_missing).1 = Ok tt ∧
  disk (doPatch Sample.E ["a.mpq"] 1000 "current" "/d2" Sample.w_missing).2
    !! "/d2/a.mpq" = Some "contents of a.mpq" ∧
  disk (doPatch Sample.E ["a.mpq"] 1000 "current" "/d2" Sample.w_missing).2
    !! "/d2/a.mpq.tmp" = None.
Proof.
  destruct (doPatch_installs Sample.E ["a.mpq"] 1000 "current" "/d2" Sample.w_missing)
    as (Hr & Hnames & _).
  - repeat split; try done.
    intros n ->%list_elem_of_singleton. vm_compute. by eexists.
  - apply NoDup_singleton.
  - intros a b ->%list_elem_of_singleton ->%list_elem_of_singleton. discriminate.
  - split; [exact Hr|].
    destruct (Hnames "a.mpq") as [H1 H2]; [apply list_elem_of_here|].
    split; [|exact H2].
    change ("/d2/a.mpq") with (final_path "/d2" "a.mpq").
    rewrite H1. vm_compute. reflexivity.
Defined.

(** ** The two phases *)

Lemma downloadFile_present E fileName remoteDir path w :
  (downloadFile E fileName remoteDir path w).1 = Ok tt →
  is_Some (disk (downloadFile E fileName remoteDir path w).2 !! path) ∧
  (∀ q, is_Some (disk w !! q) →
        is_Some (disk (downloadFile E fileName remoteDir path w).2 !! q)).
Proof.
  unfold downloadFile, bind, os_Create, GetFile, io_Copy, faulty, emit, bind, fail, ret.
  destruct (fault E (SysCreate path)); [done|].
  destruct (fault E (SysGetFile _)); [done|].
  destruct (remote E !! _); [|done].
  destruct (fault E (SysCopy path)); [done|].
  intros _. cbn [snd disk]. split.
  - rewrite lookup_insert_eq. by eexists.
  - intros q Hq. rewrite !lookup_insert_is_Some'. auto.
Qed.

(** When the first loop has gone through, every planned file is staged. *)
Lemma doPatch_download_present E patchFiles remoteDir dir tmpFiles w staged :
  (doPatch_download E patchFiles remoteDir dir tmpFiles w).1 = Ok staged →
  (∀ n, n ∈ patchFiles →
        is_Some (disk (doPatch_download E patchFiles remoteDir dir tmpFiles w).2
                   !! tmpPath dir n)) ∧
  (∀ q, is_Some (disk w !! q) →
        is_Some (disk (doPatch_download E patchFiles remoteDir dir tmpFiles w).2 !! q)).
Proof.
  revert tmpFiles w. induction patchFiles as [|n patchFiles IH]; intros tmpFiles w.
  { intros _. split; [|done]. by intros n ?%elem_of_nil. }
  cbn [doPatch_download]. unfold bind at 1 2 3.
  pose proof (downloadFile_present E n remoteDir (tmpPath dir n) w) as Hone.
  destruct (downloadFile E n remoteDir (tmpPath dir n) w) as [[[]|e] w1]; [|done].
  destruct (Hone eq_refl) as [Hn Hkeep]. cbn [snd] in Hn, Hkeep.
  intros Hrest. destruct (IH _ _ Hrest) as [Hstaged Hkeep'].
  split; [|by auto].
  intros n' [->|Hn']%elem_of_cons; auto.
Qed.

(** The second loop promotes the staged files in order.  It stops at the
    first file whose rename is made to fail or whose staged file is gone,
    which only happens to a name that was promoted before. *)
Lemma doPatch_rename_stops E dir names promotedBefore w :
  (∀ n, n ∈ names → n ∉ promotedBefore → is_Some (disk w !! tmpPath dir n)) →
  ∃ promoted,
    promoted `prefix_of` names ∧
    trace (doPatch_rename E (tmpPath dir <$> names) w).2
      = trace w ++ promotions dir promoted ∧
    ((doPatch_rename E (tmpPath dir <$> names) w).1 = Ok tt ↔ promoted = names) ∧
    (∀ n rest, names = promoted ++ n :: rest →
       fault E (SysRename (tmpPath dir n) (final_path dir n)) ≠ None ∨
       n ∈ promotedBefore ++ promoted).
Proof.
  revert promotedBefore w.
  induction names as [|n names IH]; intros promotedBefore w Hstaged.
  { exists []. split; [done|]. split; [cbn; by rewrite app_nil_r|]. split; [done|].
    intros n rest Heq. discriminate Heq. }
  rewrite fmap_cons. cbn [doPatch_rename]. rewrite tmpPath_strip.
  unfold bind, os_Rename, faulty, fail.
  destruct (fault E (SysRename (tmpPath dir n) (final_path dir n))) as [msg|] eqn:Hfault.
  { exists []. split; [apply prefix_nil|]. cbn [snd fst app].
    split; [cbn; by rewrite app_nil_r|]. split; [done|].
    intros n' rest [= -> _]. left. by rewrite Hfault. }
  destruct (disk w !! tmpPath dir n) as [contents|] eqn:Hn.
  2: { exists []. split; [apply prefix_nil|]. cbn [snd fst app].
       split; [cbn; by rewrite app_nil_r|]. split; [done|].
       intros n' rest [= -> _]. right. rewrite app_nil_r.
       destruct (decide (n' ∈ promotedBefore)) as [|Hnot]; [done|].
       destruct (Hstaged n' (list_elem_of_here _ _) Hnot) as [? Hsome]. congruence. }
  match goal with |- context [doPatch_rename E _ ?w1] =>
    destruct (IH (promotedBefore ++ [n]) w1) as (promoted & Hpre & Htrace & Hok & Hstop) end.
  { intros m Hm Hnot. apply not_elem_of_app in Hnot as [Hnot Hmn].
    cbn [disk]. apply lookup_insert_is_Some'. right.
    rewrite lookup_delete_ne.
    - apply Hstaged; [by apply elem_of_cons; right|done].
    - intros Heq%tmpPath_inj. subst m. apply Hmn, list_elem_of_here. }
  exists (n :: promoted). split; [by apply prefix_cons|]. split; [|split].
  - rewrite Htrace. cbn [trace]. unfold promotions. rewrite fmap_cons.
    by rewrite <- (assoc_L (++)).
  - rewrite Hok. split; [by intros ->|by intros [= ->]].
  - intros m rest [= Heq]. destruct (Hstop m rest Heq) as [?|Hin]; [by left|right].
    by rewrite <- (assoc_L (++)) in Hin.
Qed.

(** C2.  [doPatch] is two-phase.  The first phase downloads every planned
    file to its staged name; it renames nothing and touches no path but
    the staged ones.  If a download fails, the call returns that error in
    the world the first phase left, so no staged file has been renamed to
    its final name.  Only when every download has succeeded are staged
    files renamed, each to its final name, in the order of the downloads.
    The call succeeds exactly when every one of them has been; the
    renaming stops before a file only if its rename is made to fail or its
    name was promoted already, so that it promotes every staged file when no
    rename is made to fail and no name is planned twice; when moreover no
    planned name is another one followed by [.tmp], every final name then
    holds what was staged for it and no staged file is left. *)
Theorem doPatch_two_phase E (patchFiles : list string) (patchLength : Z)
    (remoteDir dir : string) (w : world) :
  let staged := doPatch_download E patchFiles remoteDir dir [] (emit EvProgressReset w).2 in
  let r := (doPatch E patchFiles patchLength remoteDir dir w).1 in
  let w' := (doPatch E patchFiles patchLength remoteDir dir w).2 in
  staged_only (tmpPath dir <$> patchFiles) w staged.2 ∧
  (∀ e, staged.1 = Err e → r = Err e ∧ w' = staged.2) ∧
  (∀ tmpFiles,
     staged.1 = Ok tmpFiles →
     tmpFiles = tmpPath dir <$> patchFiles ∧
     ∃ promoted,
       promoted `prefix_of` patchFiles ∧
       trace w' = trace staged.2 ++ promotions dir promoted ∧
       (r = Ok tt ↔ promoted = patchFiles) ∧
       (∀ n rest, patchFiles = promoted ++ n :: rest →
          fault E (SysRename (tmpPath dir n) (final_path dir n)) ≠ None ∨
          n ∈ promoted) ∧
       ((∀ n, n ∈ patchFiles →
              fault E (SysRename (tmpPath dir n) (final_path dir n)) = None) →
        NoDup patchFiles →
        r = Ok tt ∧ promoted = patchFiles) ∧
       ((∀ a b, fault E (SysRename a b) = None) →
        NoDup patchFiles → plan_separate patchFiles →
        ∀ n, n ∈ patchFiles →
          disk w' !! final_path dir n = disk staged.2 !! tmpPath dir n ∧
          disk w' !! tmpPath dir n = None)).
Proof.
  cbn zeta. unfold doPatch, bind. cbn [emit snd].
  set (w0 := mkWorld (disk w) (runningGames w) (trace w ++ [EvProgressReset])).
  destruct (doPatch_download_effect E patchFiles remoteDir dir [] w0) as [Hstaged Hok].
  split; [|split].
  - eapply staged_only_trans; [|exact Hstaged]. by apply staged_only_event.
  - intros e He.
    destruct (doPatch_download E patchFiles remoteDir dir [] w0) as [[tmpFiles|e'] w1];
      [done|]. cbn in He. by injection He as ->.
  - intros tmpFiles Htmp. pose proof (Hok _ Htmp) as ->. split; [done|].
    destruct (doPatch_download_present _ _ _ _ _ _ _ Htmp) as [Hpresent _].
    destruct (doPatch_download E patchFiles remoteDir dir [] w0) as [[tmpFiles|e'] w1];
      [|done].
    cbn in Htmp. injection Htmp as ->. cbn [snd app] in *.
    destruct (doPatch_rename_stops E dir patchFiles [] w1)
      as (promoted & Hpre & Htrace & Hiff & Hstop); [by auto|].
    exists promoted. split; [done|]. split; [done|]. split; [done|].
    split; [exact Hstop|]. split.
    + intros Hfree Hdup.
      assert (promoted = patchFiles) as Hall; [|split; [by apply Hiff|done]].
      destruct Hpre as [[|n rest] Hrest]; [by rewrite app_nil_r in Hrest|]. exfalso.
      destruct (Hstop n rest Hrest) as [Hfault|Hin].
      * apply Hfault, Hfree. rewrite Hrest.
        apply elem_of_app. right. apply list_elem_of_here.
      * rewrite Hrest in Hdup. apply NoDup_app in Hdup as (_ & Hdisjoint & _).
        apply (Hdisjoint n Hin), list_elem_of_here.
    + intros Hfree Hdup Hsep.
      destruct (doPatch_rename E (tmpPath dir <$> patchFiles) w1) as [r2 w2] eqn:Hrun.
      by destruct (doPatch_rename_disk E dir patchFiles w1 r2 w2 Hfree Hdup Hsep
                     Hpresent Hrun) as (_ & Hmoved & _).
Qed.

Lemma doPatch_two_phase_witness :
  ((doPatch Sample.E ["a.mpq"; "b.mpq"] 2000 "current" "/d2" Sample.w_missing).1
     = Err (ErrOther "remote file not found: current/b.mpq") ∧
   trace (doPatch Sample.E ["a.mpq"; "b.mpq"] 2000 "current" "/d2" Sample.w_missing).2
     = [EvProgressReset; EvCreate "/d2/a.mpq.tmp"; EvFetch "current/a.mpq";
        EvWrite "/d2/a.mpq.tmp"; EvCreate "/d2/b.mpq.tmp"; EvFetch "current/b.mpq"]) ∧
  ∃ promoted,
    promoted `prefix_of` ["a.mpq"] ∧
    trace (doPatch Sample.E ["a.mpq"] 1000 "current" "/d2" Sample.w_missing).2
      = [EvProgressReset; EvCreate "/d2/a.mpq.tmp"; EvFetch "current/a.mpq";
         EvWrite "/d2/a.mpq.tmp"] ++ promotions "/d2" promoted ∧
    (doPatch Sample.E ["a.mpq"] 1000 "current" "/d2" Sample.w_missing).1 = Ok tt ∧
    promoted = ["a.mpq"] ∧
    disk (doPatch Sample.E ["a.mpq"] 1000 "current" "/d2" Sample.w_missing).2
      !! "/d2/a.mpq" = Some "contents of a.mpq" ∧
    disk (doPatch Sample.E ["a.mpq"] 1000 "current" "/d2" Sample.w_missing).2
      !! "/d2/a.mpq.tmp" = None.
Proof.
  split.
  - destruct (doPatch_two_phase Sample.E ["a.mpq"; "b.mpq"] 2000 "current" "/d2"
                Sample.w_missing) as (_ & H & _).
    destruct (H (ErrOther "remote file not found: current/b.mpq")) as [-> ->].
    + vm_compute. reflexivity.
    + split; vm_compute; reflexivity.
  - destruct (doPatch_two_phase Sample.E ["a.mpq"] 1000 "current" "/d2"
                Sample.w_missing) as (_ & _ & H).
    destruct (H ["/d2/a.mpq.tmp"])
      as [_ (promoted & Hpre & Htrace & _ & _ & Hall & Hmoved)].
    + vm_compute. reflexivity.
    + exists promoted. split; [exact Hpre|]. split; [exact Htrace|].
      destruct Hall as [Hok Hpromoted]; [done|apply NoDup_singleton|].
      split; [exact Hok|]. split; [exact Hpromoted|].
      destruct (Hmoved (λ _ _, eq_refl) (NoDup_singleton _)) with (n := "a.mpq")
        as [Hfinal Hstaged].
      * intros a b ->%list_elem_of_singleton ->%list_elem_of_singleton. discriminate.
      * apply list_elem_of_here.
      * split; [|exact Hstaged].
        change "/d2/a.mpq" with (final_path "/d2" "a.mpq"). rewrite Hfinal.
        vm_compute. reflexivity.
Defined.

(** A name that is planned twice: both downloads succeed, the first
    promotion takes the staged file, and the second finds it gone. *)
Example doPatch_duplicate_name :
  doPatch Sample.E ["a.mpq"; "a.mpq"] 2000 "current" "/d2" Sample.w_missing
  = (Err (ErrNotExist "rename" "/d2/a.mpq.tmp"),
     mkWorld (<["/d2/a.mpq" := "contents of a.mpq"]> (disk Sample.w_missing)) []
       [EvProgressReset; EvCreate "/d2/a.mpq.tmp"; EvFetch "current/a.mpq";
        EvWrite "/d2/a.mpq.tmp"; EvCreate "/d2/a.mpq.tmp"; EvFetch "current/a.mpq";
        EvWrite "/d2/a.mpq.tmp"; EvRename "/d2/a.mpq.tmp" "/d2/a.mpq"]).
Proof. vm_compute. reflexivity. Qed.

(** ** What a layer application touches *)

Lemma doPatch_rename_frame E dir names w q :
  q ∉ tmpPath dir <$> names → q ∉ final_path dir <$> names →
  disk (doPatch_rename E (tmpPath dir <$> names) w).2 !! q = disk w !! q.
Proof.
  revert w. induction names as [|n names IH]; intros w Hq1 Hq2; [done|].
  rewrite fmap_cons in Hq1, Hq2.
  apply not_elem_of_cons in Hq1 as [? ?]. apply not_elem_of_cons in Hq2 as [? ?].
  rewrite fmap_cons. cbn [doPatch_rename]. rewrite tmpPath_strip.
  unfold bind, os_Rename, faulty, fail.
  destruct (fault E (SysRename _ _)); [done|].
  destruct (disk w !! tmpPath dir n); [|done].
  rewrite IH by done. cbn [disk].
  rewrite lookup_insert_ne by done. by apply lookup_delete_ne.
Qed.

(** Whatever its outcome, [doPatch] changes only staged and final paths
    of the plan. *)
Lemma doPatch_frame E patchFiles patchLength remoteDir dir w q :
  q ∉ tmpPath dir <$> patchFiles → q ∉ final_path dir <$> patchFiles →
  disk (doPatch E patchFiles patchLength remoteDir dir w).2 !! q = disk w !! q.
Proof.
  intros Hq1 Hq2. unfold doPatch, bind at 1, emit. unfold bind at 1.
  match goal with |- context [doPatch_download E _ _ _ [] ?w0] =>
    destruct (doPatch_download_effect E patchFiles remoteDir dir [] w0)
      as [(_ & _ & Hframe) Hok];
    destruct (doPatch_download E patchFiles remoteDir dir [] w0) as [[staged|e] w1]
  end; cbn [snd] in *.
  - rewrite (Hok staged eq_refl). cbn [app].
    rewrite doPatch_rename_frame by done. by rewrite Hframe.
  - by rewrite Hframe.
Qed.

Lemma patchThenCleanUp_frame E patchFiles patchLength remoteDir dir w q :
  q ∉ tmpPath dir <$> patchFiles → q ∉ final_path dir <$> patchFiles →
  (∀ n, GoString.contains n ".tmp" = true → q ≠ final_path dir n) →
  disk (patchThenCleanUp E patchFiles patchLength remoteDir dir w).2 !! q = disk w !! q.
Proof.
  intros Hq1 Hq2 Hq3. unfold patchThenCleanUp.
  pose proof (doPatch_frame E patchFiles patchLength remoteDir dir w q Hq1 Hq2) as Hpatch.
  destruct (doPatch E patchFiles patchLength remoteDir dir w) as [[[]|patchErr] w1];
    cbn [snd] in Hpatch; [done|].
  destruct (cleanUpFailedPatch_effect E dir w1) as (_ & _ & _ & Hclean).
  specialize (Hclean q Hq3).
  destruct (cleanUpFailedPatch E dir w1) as [[[]|e] w2]; cbn [snd] in *; congruence.
Qed.

Lemma plan_names E w files dir ignore names total n :
  plan_spec E w files dir ignore = Ok (names, total) →
  n ∈ names →
  ∃ f, f ∈ files ∧ Name f = n ∧ (Name f ∉ ignore) ∧ needs_patch E w dir ignore f = true.
Proof.
  unfold plan_spec. destruct (head _); [done|]. intros [= <- _].
  intros (f & -> & Hf)%list_elem_of_fmap.
  apply list_elem_of_In, List.filter_In in Hf as [Hf Hstale].
  exists f. split; [by apply list_elem_of_In|]. split; [done|]. split; [|done].
  unfold needs_patch in Hstale. intros Hign.
  by rewrite (bool_decide_eq_true_2 _ Hign) in Hstale.
Qed.

Lemma applyFiles_frame E files ignore updating remoteDir dir w q :
  layer_untouched dir files ignore q →
  disk (applyFiles E files ignore updating remoteDir dir w).2 !! q = disk w !! q.
Proof.
  intros [Hfiles Htmp]. unfold applyFiles, bind at 1.
  rewrite getFilesToPatch_spec.
  destruct (plan_spec E w files dir ignore) as [[names total]|e] eqn:Hplan; [|done].
  cbn [fst snd]. case_bool_decide; [|done].
  unfold bind, emit.
  rewrite patchThenCleanUp_frame; [done|..|done].
  - intros (n & -> & Hn)%list_elem_of_fmap.
    destruct (plan_names _ _ _ _ _ _ _ _ Hplan Hn) as (f & Hf & <- & Hign & _).
    by destruct (Hfiles f Hf Hign).
  - intros (n & -> & Hn)%list_elem_of_fmap.
    destruct (plan_names _ _ _ _ _ _ _ _ Hplan Hn) as (f & Hf & <- & Hign & _).
    by destruct (Hfiles f Hf Hign).
Qed.

Lemma getManifest_disk E path w :
  disk (getManifest E path w).2 = disk w.
Proof. destruct (getManifest_eq E path w) as (r & -> & _). done. Qed.

(** X10.  Whatever its outcome, the application of a layer changes
    nothing on disk but final and staged paths of manifest files that are
    not ignored, and files of the directory whose name contains [.tmp]. *)
Theorem layer_application_frame E (dir : string) (w : world) (q : string) :
  (∀ manifestFiles ignoredFiles,
     layer_untouched dir manifestFiles ignoredFiles q →
     disk (applyMaphack E dir manifestFiles ignoredFiles w).2 !! q = disk w !! q) ∧
  (∀ manifestFiles,
     layer_untouched dir manifestFiles [] q →
     disk (applyHDMod E dir manifestFiles w).2 !! q = disk w !! q) ∧
  ((∀ manifest, manifest_at E "1.13c/manifest.json" manifest →
                layer_untouched dir (Files manifest) [] q) →
   disk (apply113c E dir w).2 !! q = disk w !! q) ∧
  ((∀ manifest, manifest_at E "current/manifest.json" manifest →
                layer_untouched dir (Files manifest) [] q) →
   disk (applySlashPatch E dir w).2 !! q = disk w !! q).
Proof.
  assert (∀ path msg updating remoteDir,
            (∀ manifest, manifest_at E path manifest →
                         layer_untouched dir (Files manifest) [] q) →
            disk ((emit (EvMessage msg) ;;
                   manifest <- getManifest E path ;;
                   applyFiles E (Files manifest) [] updating remoteDir dir) w).2 !! q
            = disk w !! q) as Hfetching.
  { intros path msg updating remoteDir Hq. unfold bind at 1, emit. unfold bind at 1.
    match goal with |- context [getManifest E path ?w0] =>
      destruct (getManifest_eq E path w0) as (r & -> & Hr) end.
    destruct r as [manifest|e]; [|done].
    rewrite applyFiles_frame; [done|]. apply Hq. by apply Hr. }
  split; [|split; [|split]].
  - intros manifestFiles ignoredFiles Hq. unfold applyMaphack, bind, emit.
    by rewrite applyFiles_frame.
  - intros manifestFiles Hq. unfold applyHDMod, bind, emit.
    by rewrite applyFiles_frame.
  - apply Hfetching.
  - apply Hfetching.
Qed.

Lemma layer_application_frame_witness :
  disk (applyHDMod Sample.E "/d2" [Sample.a_mpq] Sample.w_missing).2 !! "/d2/notes.txt"
  = disk Sample.w_missing !! "/d2/notes.txt".
Proof.
  destruct (layer_application_frame Sample.E "/d2" Sample.w_missing "/d2/notes.txt")
    as (_ & Hhd & _).
  apply Hhd. split.
  - intros f Hf _. apply list_elem_of_singleton in Hf as ->.
    split; vm_compute; discriminate.
  - intros n Htmp Heq.
    change "/d2/notes.txt" with (final_path "/d2" "notes.txt") in Heq.
    apply final_path_inj in Heq. subst n. vm_compute in Htmp. discriminate.
Defined.

Lemma not_tmp_suffix_BH_cfg n : n +:+ ".tmp" ≠ "BH.cfg".
Proof.
  intros Heq. pose proof (f_equal String.length Heq) as Hlen.
  rewrite string_length_app in Hlen.
  destruct n as [|a [|b [|c n]]]; cbn in Hlen; try lia.
  rewrite !string_app_cons in Heq. change ("" +:+ ".tmp") with ".tmp" in Heq.
  discriminate.
Qed.

Lemma BH_cfg_untouched dir files :
  layer_untouched dir files ["BH.cfg"] (final_path dir "BH.cfg").
Proof.
  split.
  - intros f _ Hign. split.
    + intros Heq%final_path_inj. apply Hign. rewrite <- Heq. apply list_elem_of_here.
    + rewrite tmpPath_as_final. intros Heq%final_path_inj.
      by apply (not_tmp_suffix_BH_cfg (Name f)).
  - intros n Htmp Heq%final_path_inj. subst n. vm_compute in Htmp. discriminate.
Qed.

(** X11.  For an install whose [BH.cfg] the user overrides, [applyMaphack],
    called with the ignore list that [Patch] builds for the install, does
    not change the file [BH.cfg] of the install directory, whatever the
    manifest lists, whatever is on disk and whatever the outcome: neither
    the download, nor the promotion, nor the clean-up touches it. *)
Theorem override_keeps_BH_cfg E (g : Game) (manifestFiles : list PatchFile)
    (w : world) :
  OverrideBHCfg g = true →
  disk (applyMaphack E (Location g) manifestFiles (ignoredMaphackFiles g) w).2
    !! final_path (Location g) "BH.cfg" = disk w !! final_path (Location g) "BH.cfg".
Proof.
  intros Hover. unfold ignoredMaphackFiles. rewrite Hover.
  unfold applyMaphack, bind, emit.
  rewrite applyFiles_frame; [done|]. apply BH_cfg_untouched.
Qed.

Lemma override_keeps_BH_cfg_witness :
  disk (applyMaphack Sample.E "/d2" [Sample.bh_dll; Sample.bh_cfg] ["BH.cfg"]
          Sample.w_maphack).2 !! "/d2/BH.cfg" = Some "my own settings".
Proof.
  exact (override_keeps_BH_cfg Sample.E
           (mkGame "X" "/d2" [] 1 true false true) [Sample.bh_dll; Sample.bh_cfg]
           Sample.w_maphack eq_refl).
Defined.

(** ** Layers that are in place, and layers that get in place *)

Lemma applyFiles_up_to_date E files ignore updating remoteDir dir w :
  Forall (λ f, Name f ∈ ignore ∨ up_to_date E w dir f) files →
  applyFiles E files ignore updating remoteDir dir w = (Ok tt, w).
Proof.
  intros Hcur. apply plan_empty_iff in Hcur as (names & total & Hplan & Hempty).
  unfold applyFiles, bind. rewrite getFilesToPatch_spec, Hplan. cbn [fst snd].
  by rewrite bool_decide_eq_false_2.
Qed.

Lemma plan_spec_names E w files dir ignore names total :
  plan_spec E w files dir ignore = Ok (names, total) →
  names = Name <$> List.filter (needs_patch E w dir ignore) files.
Proof. unfold plan_spec. destruct (head _); [done|]. by intros [= <- _]. Qed.

Lemma filter_sublist {A} (p : A → bool) (l : list A) : List.filter p l `sublist_of` l.
Proof.
  induction l as [|a l IH]; [done|]. cbn [List.filter].
  destruct (p a); [by apply sublist_skip|by apply sublist_cons].
Qed.

Lemma up_to_date_lookup E w dir f contents :
  fault E (SysOpen (final_path dir (Name f))) = None →
  disk w !! final_path dir (Name f) = Some contents →
  crc32_hex E contents = CRC f →
  up_to_date E w dir f.
Proof.
  intros Hfree Hdisk Hcrc. unfold up_to_date, local_checksum, hashCRC32, faulty.
  rewrite Hfree, Hdisk. cbn [fst]. by rewrite Hcrc.
Qed.

Lemma up_to_date_inv E w dir f :
  fault E (SysOpen (final_path dir (Name f))) = None →
  up_to_date E w dir f →
  ∃ contents, disk w !! final_path dir (Name f) = Some contents ∧
              crc32_hex E contents = CRC f.
Proof.
  intros Hfree. unfold up_to_date, local_checksum, hashCRC32, faulty. rewrite Hfree.
  destruct (disk w !! final_path dir (Name f)) as [contents|]; cbn [fst]; [|done].
  intros [= Hcrc]. by exists contents.
Qed.

Lemma not_needs_patch_up_to_date E w dir ignore f :
  fault E (SysOpen (final_path dir (Name f))) = None →
  Name f ∉ ignore →
  needs_patch E w dir ignore f = false →
  up_to_date E w dir f.
Proof.
  intros Hfree Hign. unfold needs_patch, up_to_date.
  rewrite (bool_decide_eq_false_2 _ Hign). cbn [negb andb].
  unfold local_checksum, hashCRC32, faulty. rewrite Hfree.
  destruct (disk w !! final_path dir (Name f)); cbn [fst].
  - intros Hsame%bool_decide_eq_false. f_equal. by apply dec_stable.
  - by rewrite bool_decide_eq_true_2.
Qed.

Lemma applyFiles_converges E files ignore updating remoteDir dir w :
  unhindered E →
  NoDup (Name <$> files) →
  plan_separate (Name <$> files) →
  repository_consistent E remoteDir files ignore →
  (applyFiles E files ignore updating remoteDir dir w).1 = Ok tt ∧
  Forall (λ f, Name f ∈ ignore ∨
               up_to_date E (applyFiles E files ignore updating remoteDir dir w).2 dir f)
    files.
Proof.
  intros Hfree Hnodup Hsep Hrepo.
  destruct (plan_spec_unhindered E w files dir ignore) as (names & total & Hplan);
    [intros p; apply Hfree|].
  destruct (applyFiles E files ignore updating remoteDir dir w) as [r w'] eqn:Hrun.
  cbn [fst snd]. unfold applyFiles, bind at 1 in Hrun.
  rewrite getFilesToPatch_spec, Hplan in Hrun. cbn [fst snd] in Hrun.
  case_bool_decide as Hlen.
  2: { injection Hrun as <- <-. split; [done|]. apply plan_empty_iff.
       by exists names, total. }
  unfold bind, emit, patchThenCleanUp in Hrun.
  set (w0 := mkWorld _ _ _) in Hrun.
  assert (names ⊆ Name <$> files) as Hsub.
  { intros n Hn. destruct (plan_names _ _ _ _ _ _ _ _ Hplan Hn) as (f & Hf & <- & _).
    apply list_elem_of_fmap. by exists f. }
  destruct (doPatch_outcome E names total remoteDir dir w0) as (Hok & Hnew & Hframe).
  { repeat split; try (intros; apply Hfree).
    intros n Hn. destruct (plan_names _ _ _ _ _ _ _ _ Hplan Hn) as (f & Hf & <- & Hign & _).
    destruct (Hrepo f Hf Hign) as (contents & -> & _). by eexists. }
  { rewrite (plan_spec_names _ _ _ _ _ _ _ Hplan).
    eapply sublist_NoDup; [exact Hnodup|]. apply fmap_sublist, filter_sublist. }
  { intros a b Ha Hb. apply Hsep; by apply Hsub. }
  destruct (doPatch E names total remoteDir dir w0) as [[[]|e] w1]; [|done].
  injection Hrun as <- <-.
  cbn [fst snd] in *. split; [done|].
  apply Forall_forall. intros f Hf.
  destruct (decide (Name f ∈ ignore)) as [|Hign]; [by left|right].
  destruct (decide (Name f ∈ names)) as [Hin|Hout].
  - destruct (Hnew _ Hin) as [Hfinal _].
    destruct (Hrepo f Hf Hign) as (contents & Hremote & Hcrc).
    eapply up_to_date_lookup; [apply Hfree| |exact Hcrc]. by rewrite Hfinal.
  - assert (needs_patch E w dir ignore f = false) as Hstale.
    { apply not_true_iff_false. intros Hstale. apply Hout.
      rewrite (plan_spec_names _ _ _ _ _ _ _ Hplan).
      apply list_elem_of_fmap. exists f. split; [done|].
      apply list_elem_of_In, List.filter_In. split; [by apply list_elem_of_In|done]. }
    pose proof (not_needs_patch_up_to_date E w dir ignore f (Hfree _) Hign Hstale) as Hcur.
    apply (up_to_date_inv _ _ _ _ (Hfree _)) in Hcur as (contents & Hdisk & Hcrc).
    eapply up_to_date_lookup; [apply Hfree| |exact Hcrc].
    rewrite Hframe; [done|..].
    + intros (n & Heq & Hn)%list_elem_of_fmap.
      rewrite tmpPath_as_final in Heq. apply final_path_inj in Heq.
      apply (Hsep (Name f) n); [|by apply Hsub|done].
      apply list_elem_of_fmap. by exists f.
    + intros (n & Heq & Hn)%list_elem_of_fmap.
      apply final_path_inj in Heq. by subst n.
Qed.

Lemma fetching_layer_converges E path msg updating remoteDir dir w manifest :
  unhindered E →
  manifest_at E path manifest →
  NoDup (Name <$> Files manifest) →
  plan_separate (Name <$> Files manifest) →
  repository_consistent E remoteDir (Files manifest) [] →
  ∃ w', (emit (EvMessage msg) ;;
         manifest <- getManifest E path ;;
         applyFiles E (Files manifest) [] updating remoteDir dir) w = (Ok tt, w') ∧
        Forall (up_to_date E w' dir) (Files manifest).
Proof.
  intros Hfree Hat Hnodup Hsep Hrepo. unfold bind at 1, emit. unfold bind at 1.
  match goal with |- context [getManifest E path ?w0] =>
    destruct (getManifest_eq E path w0) as (r & -> & Hr) end.
  apply Hr in Hat as ->.
  match goal with |- context [applyFiles E ?fs [] updating remoteDir dir ?w1] =>
    destruct (applyFiles_converges E fs [] updating remoteDir dir w1
                Hfree Hnodup Hsep Hrepo) as [Hok Hcur];
    destruct (applyFiles E fs [] updating remoteDir dir w1) as [r w'] end.
  cbn [fst snd] in *. subst r. exists w'. split; [done|].
  by apply up_to_date_Forall_iff.
Qed.

(** X12.  When no system call is made to fail, the names of a manifest
    are distinct, none of them is another one followed by [.tmp], and the
    repository holds every file that is not ignored with the checksum the
    manifest declares, each of the four apply functions succeeds and leaves
    every such file on disk with the manifest's checksum, whatever was on
    disk before. *)
Theorem layer_application_converges E (dir : string) (w : world) :
  unhindered E →
  (∀ manifestFiles ignoredFiles,
     NoDup (Name <$> manifestFiles) → plan_separate (Name <$> manifestFiles) →
     repository_consistent E "maphack" manifestFiles ignoredFiles →
     (applyMaphack E dir manifestFiles ignoredFiles w).1 = Ok tt ∧
     Forall (λ f, Name f ∈ ignoredFiles ∨
                  up_to_date E (applyMaphack E dir manifestFiles ignoredFiles w).2 dir f)
       manifestFiles) ∧
  (∀ manifestFiles,
     NoDup (Name <$> manifestFiles) → plan_separate (Name <$> manifestFiles) →
     repository_consistent E "hd" manifestFiles [] →
     (applyHDMod E dir manifestFiles w).1 = Ok tt ∧
     Forall (up_to_date E (applyHDMod E dir manifestFiles w).2 dir) manifestFiles) ∧
  (∀ manifest,
     manifest_at E "1.13c/manifest.json" manifest →
     NoDup (Name <$> Files manifest) → plan_separate (Name <$> Files manifest) →
     repository_consistent E "1.13c" (Files manifest) [] →
     (apply113c E dir w).1 = Ok tt ∧
     Forall (up_to_date E (apply113c E dir w).2 dir) (Files manifest)) ∧
  (∀ manifest,
     manifest_at E "current/manifest.json" manifest →
     NoDup (Name <$> Files manifest) → plan_separate (Name <$> Files manifest) →
     repository_consistent E "current" (Files manifest) [] →
     (applySlashPatch E dir w).1 = Ok tt ∧
     Forall (up_to_date E (applySlashPatch E dir w).2 dir) (Files manifest)).
Proof.
  intros Hfree. split; [|split; [|split]].
  - intros files ignore Hnodup Hsep Hrepo. unfold applyMaphack, bind, emit.
    by apply applyFiles_converges.
  - intros files Hnodup Hsep Hrepo. unfold applyHDMod, bind, emit.
    rewrite <- up_to_date_Forall_iff. by apply applyFiles_converges.
  - intros manifest Hat Hnodup Hsep Hrepo. unfold apply113c.
    by edestruct fetching_layer_converges as (w' & -> & Hcur).
  - intros manifest Hat Hnodup Hsep Hrepo. unfold applySlashPatch.
    by edestruct fetching_layer_converges as (w' & -> & Hcur).
Qed.

Lemma layer_application_converges_witness :
  (applySlashPatch Sample.E "/d2" Sample.w_missing).1 = Ok tt ∧
  Forall (up_to_date Sample.E (applySlashPatch Sample.E "/d2" Sample.w_missing).2 "/d2")
    [Sample.a_mpq].
Proof.
  destruct (layer_application_converges Sample.E "/d2" Sample.w_missing)
    as (_ & _ & _ & Hslash); [by intros c|].
  apply (Hslash (mkManifest [Sample.a_mpq])).
  - repeat split. by exists "core".
  - apply NoDup_singleton.
  - intros a b ->%list_elem_of_singleton ->%list_elem_of_singleton. discriminate.
  - intros f ->%list_elem_of_singleton _. by exists "contents of a.mpq".
Defined.

(** ** [Patch] on installs that are in place *)

Lemma bind_run {A B} (c : M A) (k : A → M B) w a w' :
  c w = (Ok a, w') → (x <- c ;; k x) w = k a w'.
Proof. unfold bind. by intros ->. Qed.

Lemma append_trace_nil w : append_trace [] w = w.
Proof. apply world_eta. Qed.

Lemma emit_run ev w : emit ev w = (Ok tt, append_trace [ev] w).
Proof. reflexivity. Qed.

Lemma getManifest_run E path manifest w :
  manifest_at E path manifest →
  getManifest E path w = (Ok manifest, append_trace [EvFetch path] w).
Proof.
  intros Hat. destruct (getManifest_eq E path w) as (r & -> & Hr).
  by apply Hr in Hat as ->.
Qed.

Lemma up_to_date_disk E w w2 dir f :
  disk w = disk w2 → up_to_date E w dir f → up_to_date E w2 dir f.
Proof. unfold up_to_date. by intros <-%(local_checksum_disk E w w2 dir f). Qed.

Lemma applyFiles_idle E files ignore updating remoteDir dir evs w :
  Forall (λ f, Name f ∈ ignore ∨ up_to_date E w dir f) files →
  applyFiles E files ignore updating remoteDir dir (append_trace evs w)
  = (Ok tt, append_trace evs w).
Proof.
  intros Hcur. apply applyFiles_up_to_date.
  eapply Forall_impl; [exact Hcur|]. intros f [?|?]; [by left|right].
  by eapply up_to_date_disk; [|eassumption].
Qed.

Lemma fetching_layer_idle E path msg updating remoteDir dir w manifest :
  manifest_at E path manifest →
  Forall (up_to_date E w dir) (Files manifest) →
  (emit (EvMessage msg) ;;
   manifest <- getManifest E path ;;
   applyFiles E (Files manifest) [] updating remoteDir dir) w
  = (Ok tt, append_trace [EvMessage msg; EvFetch path] w).
Proof.
  intros Hat Hcur.
  rewrite (bind_run _ _ _ _ _ (emit_run _ _)).
  rewrite (bind_run _ _ _ _ _ (getManifest_run _ _ _ _ Hat)).
  rewrite append_trace_app. apply applyFiles_idle. by apply up_to_date_Forall_iff.
Qed.

Lemma resetDisabled_idle E (enabled : bool) dir marker reset w :
  fault E (SysStat (final_path dir marker)) = None →
  (if enabled then True else disk w !! final_path dir marker = None) →
  resetDisabled enabled (isInstalled E dir marker) reset w = (Ok tt, w).
Proof.
  intros Hfree Hgone. unfold resetDisabled. destruct enabled; [done|].
  unfold bind. rewrite isInstalled_eq, Hfree, Hgone.
  rewrite bool_decide_eq_false_2; [done|]. by intros [? ?].
Qed.

Lemma game_in_place_disk E w w2 base sl mh hd g :
  disk w = disk w2 →
  game_in_place E w base sl mh hd g → game_in_place E w2 base sl mh hd g.
Proof.
  intros Hdisk (Hbase & Hv & Hsl & Hmh & Hhd).
  assert (∀ A (l : list A) f, Forall (λ x, up_to_date E w (Location g) (f x)) l →
                              Forall (λ x, up_to_date E w2 (Location g) (f x)) l) as Hmove.
  { intros A l f H. eapply Forall_impl; [exact H|]. intros x. by apply up_to_date_disk. }
  split; [by apply (Hmove _ _ id)|]. split; [by rewrite <- Hdisk|].
  split; [by apply (Hmove _ _ id)|]. rewrite <- Hdisk. split.
  - destruct (Maphack g); [|done].
    eapply Forall_impl; [exact Hmh|]. intros f [?|?]; [by left|right].
    by eapply up_to_date_disk; [|eassumption].
  - destruct (HD g); [|done]. by apply (Hmove _ _ id).
Qed.

Lemma patchGame_idle E base sl mh hd g w :
  manifest_at E "1.13c/manifest.json" base →
  manifest_at E "current/manifest.json" sl →
  (∀ p, fault E (SysStat p) = None) →
  game_in_place E w base sl mh hd g →
  patchGame E mh hd g w = (Ok tt, append_trace (idle_events g) w).
Proof.
  intros Hbase Hsl Hstat (Hcur0 & _ & Hcur1 & Hcur2 & Hcur3). unfold patchGame.
  rewrite (bind_run _ _ _ tt w).
  2: { apply resetDisabled_idle; [apply Hstat|]. by destruct (Maphack g). }
  rewrite (bind_run _ _ _ tt w).
  2: { apply resetDisabled_idle; [apply Hstat|]. by destruct (HD g). }
  erewrite bind_run; [|by apply (fetching_layer_idle E _ _ _ _ _ _ _ Hbase)].
  erewrite bind_run.
  2: { apply (fetching_layer_idle E _ _ _ _ _ _ _ Hsl).
       eapply Forall_impl; [exact Hcur1|]. intros f. by apply up_to_date_disk. }
  rewrite append_trace_app. unfold idle_events.
  assert (∀ evs, applyMaphack E (Location g) (Files mh) (ignoredMaphackFiles g)
                   (append_trace evs w)
                 = (Ok tt, append_trace (evs ++ [EvMessage "Checking maphack..."]) w) ∨
                 Maphack g = false) as Hmaphack.
  { intros evs. destruct (Maphack g); [left|by right]. unfold applyMaphack.
    rewrite (bind_run _ _ _ _ _ (emit_run _ _)), append_trace_app.
    by apply applyFiles_idle. }
  assert (∀ evs, applyHDMod E (Location g) (Files hd) (append_trace evs w)
                 = (Ok tt, append_trace (evs ++ [EvMessage "Checking HD mod..."]) w) ∨
                 HD g = false) as Hhdmod.
  { intros evs. destruct (HD g); [left|by right]. unfold applyHDMod.
    rewrite (bind_run _ _ _ _ _ (emit_run _ _)), append_trace_app.
    apply applyFiles_idle. by apply up_to_date_Forall_iff. }
  clear Hcur2 Hcur3. unfold configureForOS.
  destruct (Maphack g), (HD g).
  - destruct (Hmaphack ([EvMessage "Checking game version...";
                          EvFetch "1.13c/manifest.json"] ++
                         [EvMessage "Checking Slashdiablo patch...";
                          EvFetch "current/manifest.json"])) as [Hrun|?]; [|done].
    rewrite (bind_run _ _ _ _ _ Hrun).
    destruct (Hhdmod (([EvMessage "Checking game version...";
                         EvFetch "1.13c/manifest.json"] ++
                        [EvMessage "Checking Slashdiablo patch...";
                         EvFetch "current/manifest.json"]) ++
                       [EvMessage "Checking maphack..."])) as [Hrun2|?]; [|done].
    by rewrite (bind_run _ _ _ _ _ Hrun2).
  - destruct (Hmaphack ([EvMessage "Checking game version...";
                          EvFetch "1.13c/manifest.json"] ++
                         [EvMessage "Checking Slashdiablo patch...";
                          EvFetch "current/manifest.json"])) as [Hrun|?]; [|done].
    by rewrite (bind_run _ _ _ _ _ Hrun).
  - destruct (Hhdmod ([EvMessage "Checking game version...";
                        EvFetch "1.13c/manifest.json"] ++
                       [EvMessage "Checking Slashdiablo patch...";
                        EvFetch "current/manifest.json"])) as [Hrun|?]; [|done].
    unfold bind at 1, ret at 1. by rewrite (bind_run _ _ _ _ _ Hrun).
  - done.
Qed.

Lemma idle_events_notices g : Forall (λ ev, is_notice ev = true) (idle_events g).
Proof. unfold idle_events. destruct (Maphack g), (HD g); by repeat constructor. Qed.

Lemma Patch_loop_idle E base sl mh hd games w :
  manifest_at E "1.13c/manifest.json" base →
  manifest_at E "current/manifest.json" sl →
  (∀ p, fault E (SysStat p) = None) →
  Forall (game_in_place E w base sl mh hd) games →
  Patch_loop E mh hd games w = (Ok tt, append_trace (games ≫= idle_events) w).
Proof.
  intros Hbase Hsl Hstat. revert w.
  induction games as [|g games IH]; intros w Hcur; cbn [Patch_loop mbind list_bind].
  { by rewrite append_trace_nil. }
  apply Forall_cons in Hcur as [Hg Hcur].
  rewrite (bind_run _ _ _ _ _ (patchGame_idle _ _ _ _ _ _ _ Hbase Hsl Hstat Hg)).
  rewrite IH, append_trace_app; [done|].
  eapply Forall_impl; [exact Hcur|]. intros g'. by apply game_in_place_disk.
Qed.

(** X13.  When the configuration and the four manifests can be obtained,
    no [os.Stat] is made to fail, and every install of the configuration
    has the files of the base layer, of the core layer and of each optional
    layer it enables in place (an overridden [BH.cfg] apart) and lacks the
    marker file of each optional layer it disables, [Patch] reports success
    and neither writes, renames nor removes a file: all it does is fetch
    the two optional manifests once and, per install, report each check and
    fetch the base and the core manifest. *)
Theorem Patch_idle E (w : world) (conf : Config)
    (baseManifest slashManifest maphackManifest hdManifest : Manifest) :
  config_read E = Ok conf →
  manifest_at E "1.13c/manifest.json" baseManifest →
  manifest_at E "current/manifest.json" slashManifest →
  manifest_at E "maphack/manifest.json" maphackManifest →
  manifest_at E "hd/manifest.json" hdManifest →
  (∀ p, fault E (SysStat p) = None) →
  Forall (game_in_place E w baseManifest slashManifest maphackManifest hdManifest)
    (Games conf) →
  Patch E w =
  (Ok tt,
   append_trace ([EvFetch "maphack/manifest.json"; EvFetch "hd/manifest.json"] ++
                 (Games conf ≫= idle_events)) w).
Proof.
  intros Hconf Hbase Hsl Hmh Hhd Hstat Hcur. unfold Patch.
  rewrite (bind_run _ _ _ conf w); [|by unfold lift; rewrite Hconf].
  rewrite (bind_run _ _ _ _ _ (getManifest_run _ _ _ _ Hmh)).
  rewrite (bind_run _ _ _ _ _ (getManifest_run _ _ _ _ Hhd)).
  rewrite append_trace_app.
  erewrite Patch_loop_idle; [by rewrite append_trace_app|done..|].
  eapply Forall_impl; [exact Hcur|]. intros g. by apply game_in_place_disk.
Qed.

Lemma Patch_idle_witness :
  Patch SampleInPlace.E SampleInPlace.w =
  (Ok tt,
   append_trace [EvFetch "maphack/manifest.json"; EvFetch "hd/manifest.json";
                 EvMessage "Checking game version..."; EvFetch "1.13c/manifest.json";
                 EvMessage "Checking Slashdiablo patch...";
                 EvFetch "current/manifest.json"] SampleInPlace.w).
Proof.
  apply (Patch_idle SampleInPlace.E SampleInPlace.w (mkConfig [Sample.install])
           (mkManifest [Sample.game_exe]) (mkManifest [Sample.a_mpq])
           (mkManifest []) (mkManifest [])).
  - reflexivity.
  - repeat split. by exists "base".
  - repeat split. by exists "core".
  - repeat split. by exists "none".
  - repeat split. by exists "none".
  - done.
  - apply Forall_singleton. split; [by apply Forall_singleton|].
    split; [done|]. split; [by apply Forall_singleton|]. by split.
Defined.

(** X14.  [Patch] obtains the manifests of both optional layers before it
    looks at any install: when one of them cannot be obtained, [Patch]
    reports an error and has done nothing but fetch, whether or not an
    install enables the layer, and whatever state the installs are in. *)
Theorem Patch_needs_optional_manifests E (w : world) :
  (¬ ∃ manifest, manifest_at E "maphack/manifest.json" manifest) ∨
  (¬ ∃ manifest, manifest_at E "hd/manifest.json" manifest) →
  (∃ e, (Patch E w).1 = Err e) ∧
  ∃ evs, (Patch E w).2 = append_trace evs w ∧
         evs `prefix_of` [EvFetch "maphack/manifest.json"; EvFetch "hd/manifest.json"].
Proof.
  intros Hmissing. destruct (Patch E w) as [r w'] eqn:Hrun. cbn [fst snd].
  unfold Patch, bind at 1, lift in Hrun.
  destruct (config_read E) as [conf|e].
  2: { injection Hrun as <- <-. split; [by exists e|]. exists [].
       split; [by rewrite append_trace_nil|]. apply prefix_nil. }
  unfold bind at 1 in Hrun.
  destruct (getManifest_eq E "maphack/manifest.json" w) as (r1 & Hrun1 & Hr1).
  rewrite Hrun1 in Hrun. destruct r1 as [mh|e].
  2: { injection Hrun as <- <-. split; [by exists e|].
       exists [EvFetch "maphack/manifest.json"].
       split; [done|]. by exists [EvFetch "hd/manifest.json"]. }
  unfold bind at 1 in Hrun.
  match type of Hrun with context [getManifest E "hd/manifest.json" ?w1] =>
    destruct (getManifest_eq E "hd/manifest.json" w1) as (r2 & Hrun2 & Hr2) end.
  rewrite Hrun2 in Hrun. destruct r2 as [hd|e].
  - exfalso. destruct Hmissing as [Hno|Hno]; apply Hno.
    + exists mh. by apply Hr1.
    + exists hd. by apply Hr2.
  - injection Hrun as <- <-. split; [by exists e|].
    exists [EvFetch "maphack/manifest.json"; EvFetch "hd/manifest.json"].
    split; [|done]. unfold append_trace. cbn [disk runningGames trace].
    by rewrite <- (assoc_L (++)).
Qed.

Lemma Patch_needs_optional_manifests_witness :
  ∃ e, (Patch E_without_hd_manifest Sample.w_missing).1 = Err e.
Proof.
  apply (Patch_needs_optional_manifests E_without_hd_manifest Sample.w_missing).
  right. intros (manifest & _ & _ & body & Hbody & _). vm_compute in Hbody.
  discriminate.
Defined.

(** ** A reset, repeated *)

Lemma lookup_foldl_delete_None (removed : list string) (d : gmap string string) p :
  d !! p = None → foldl (λ d p, delete p d) d removed !! p = None.
Proof.
  revert d. induction removed as [|q removed IH]; intros d Hp; [done|].
  cbn [foldl]. apply IH. destruct (decide (q = p)) as [->|Hne].
  - apply lookup_delete_eq.
  - by rewrite lookup_delete_ne.
Qed.

Lemma resetPatch_loop_only_deletes E dir files ignore w p :
  disk w !! p = None → disk (resetPatch_loop E dir files ignore w).2 !! p = None.
Proof.
  intros Hp. destruct (resetPatch_loop_effect E dir files ignore w) as (removed & -> & _).
  by apply lookup_foldl_delete_None.
Qed.

(** A loop that went through has left no manifest file that is not
    ignored. *)
Lemma resetPatch_loop_Ok_absent E dir files ignore w f :
  (resetPatch_loop E dir files ignore w).1 = Ok tt →
  f ∈ files → Name f ∉ ignore →
  disk (resetPatch_loop E dir files ignore w).2 !! final_path dir (Name f) = None.
Proof.
  revert w. induction files as [|f0 rest IH]; intros w Hok Hf Hign.
  { by apply elem_of_nil in Hf. }
  revert Hok. rewrite (resetPatch_loop_cons E dir f0 rest ignore w). cbv zeta.
  destruct (fault E (SysStat (final_path dir (Name f0)))) as [msg|]; [done|].
  apply elem_of_cons in Hf as [->|Hf].
  - destruct (disk w !! final_path dir (Name f0)) as [contents|] eqn:Hp.
    + rewrite bool_decide_eq_false_2 by done.
      destruct (fault E (SysRemove (final_path dir (Name f0)))) as [msg|]; [done|].
      intros _. apply resetPatch_loop_only_deletes.
      unfold after_removals. cbn [disk foldl]. apply lookup_delete_eq.
    + intros _. by apply resetPatch_loop_only_deletes.
  - destruct (disk w !! final_path dir (Name f0)) as [contents|]; [|by auto].
    case_bool_decide; [by auto|].
    destruct (fault E (SysRemove (final_path dir (Name f0)))) as [msg|]; [done|].
    by auto.
Qed.

(** Where no manifest file that is not ignored is left, a reset removes
    nothing, whatever is made to fail. *)
Lemma resetPatch_nothing_left E dir files ignore w :
  (∀ f, f ∈ files → Name f ∉ ignore → disk w !! final_path dir (Name f) = None) →
  (resetPatch E dir files ignore w).2 = w.
Proof.
  intros Habsent.
  destruct (resetPatch_effect E dir files ignore w) as (removed & -> & Hrem).
  destruct removed as [|p removed]; [apply after_removals_nil|].
  apply Forall_cons in Hrem as [(f & Hf & -> & Hign & Hsome) _].
  rewrite (Habsent f Hf Hign) in Hsome. by destruct Hsome.
Qed.

Lemma filter_length_Forall {A} (keep : A → bool) (l : list A) :
  length (List.filter keep l) = length l ↔ Forall (λ x, keep x = true) l.
Proof.
  induction l as [|x l IH]; [by split; [constructor|]|]. cbn [List.filter].
  destruct (keep x) eqn:Hx.
  - cbn [length]. split.
    + intros [= Hlen]. constructor; [done|]. by apply IH.
    + intros [_ Hl]%Forall_cons. f_equal. by apply IH.
  - pose proof (List.filter_length_le keep l). cbn [length]. split; [lia|].
    intros [? _]%Forall_cons. congruence.
Qed.

Lemma needs_patch_with_fault E fault' w dir ignore f :
  needs_patch E w dir ignore f = true →
  read_error (with_fault E fault') w dir ignore f = None →
  needs_patch (with_fault E fault') w dir ignore f = true.
Proof.
  unfold needs_patch, read_error, local_checksum, hashCRC32, faulty, fail.
  case_bool_decide; [done|]. cbn [negb andb with_fault fault crc32_hex].
  destruct (fault E (SysOpen (final_path dir (Name f)))); cbn [fst].
  { by rewrite bool_decide_eq_false_2. }
  destruct (fault' (SysOpen (final_path dir (Name f)))); cbn [fst].
  { by rewrite bool_decide_eq_false_2. }
  done.
Qed.

(** When every manifest file is stale, it is so whatever is made to fail,
    unless the diff fails. *)
Lemma plan_all_stale_with_fault E fault' w files dir ignore plan plan' :
  plan_spec E w files dir ignore = Ok plan →
  length plan.1 = length files →
  plan_spec (with_fault E fault') w files dir ignore = Ok plan' →
  length plan'.1 = length files.
Proof.
  unfold plan_spec.
  destruct (head (omap (read_error E w dir ignore) files)); [done|].
  intros [= <-]. cbn [fst]. rewrite length_fmap. intros Hall%filter_length_Forall.
  destruct (head (omap (read_error (with_fault E fault') w dir ignore) files))
    eqn:Hread; [done|].
  intros [= <-]. cbn [fst]. rewrite length_fmap. apply filter_length_Forall.
  apply read_error_none_Forall in Hread.
  rewrite Forall_forall in Hall, Hread. apply Forall_forall. intros f Hf.
  apply needs_patch_with_fault; auto.
Qed.

(** X15.  After a reset that returned without error, a further reset with
    the same arguments changes nothing, whichever system calls are made to
    fail then: either the first call found every manifest file stale and
    removed nothing, and so does the second, or it has left no manifest
    file that is not ignored. *)
Theorem resetPatch_idempotent E (fault' : syscall → option string) (dir : string)
    (files : list PatchFile) (ignore : list string) (w : world) :
  (resetPatch E dir files ignore w).1 = Ok tt →
  (resetPatch (with_fault E fault') dir files ignore
     (resetPatch E dir files ignore w).2).2
  = (resetPatch E dir files ignore w).2.
Proof.
  rewrite (resetPatch_unfold E dir files ignore w).
  destruct (plan_spec E w files dir ignore) as [plan|e] eqn:Hplan; [|done].
  case_bool_decide as Hlen.
  - intros Hok. apply resetPatch_nothing_left.
    intros f Hf Hign. by apply resetPatch_loop_Ok_absent.
  - intros _. cbn [snd]. rewrite resetPatch_unfold.
    destruct (plan_spec (with_fault E fault') w files dir ignore) as [plan'|e]
      eqn:Hplan'; [|done].
    rewrite bool_decide_eq_false_2; [done|]. intros Hne. apply Hne.
    eapply plan_all_stale_with_fault; [exact Hplan| |exact Hplan'].
    destruct (decide (length plan.1 = length files)); [done|by destruct Hlen].
Qed.

Lemma resetPatch_idempotent_witness :
  (resetPatch (with_fault Sample.E fault_BH_dll) "/d2" [Sample.bh_dll; Sample.bh_cfg]
     ["BH.cfg"]
     (resetPatch Sample.E "/d2" [Sample.bh_dll; Sample.bh_cfg] ["BH.cfg"]
        Sample.w_maphack).2).2
  = (resetPatch Sample.E "/d2" [Sample.bh_dll; Sample.bh_cfg] ["BH.cfg"]
       Sample.w_maphack).2.
Proof.
  apply (resetPatch_idempotent Sample.E fault_BH_dll "/d2"
           [Sample.bh_dll; Sample.bh_cfg] ["BH.cfg"] Sample.w_maphack).
  vm_compute. reflexivity.
Defined.

(** The hypothesis cannot be dropped: a first call that fails while
    [BH.dll] cannot be examined leaves the file, and a call without that
    failure removes it. *)
Example resetPatch_after_failure :
  (resetPatch (with_fault Sample.E fault_BH_dll) "/d2" [Sample.bh_dll; Sample.bh_cfg]
     ["BH.cfg"] Sample.w_maphack)
  = (Err (ErrOther "stat /d2/BH.dll: busy"), Sample.w_maphack) ∧
  disk (resetPatch Sample.E "/d2" [Sample.bh_dll; Sample.bh_cfg] ["BH.cfg"]
          Sample.w_maphack).2 !! "/d2/BH.dll" = None.
Proof. vm_compute. split; reflexivity. Qed.
